(* ===== verification/_CoqProject ===== *)
-Q . S2P
Prelude.v
Sys.v
Recorder.v
Player.v
AudioIO.v
Protocol.v
Dispatch.v
Client.v
Mock.v
AudioClient.v
CliClient.v
Conversation.v
Cubic.v
CubicMock.v
FileStream.v
Streaming.v
SyncClient.v
StreamClient.v
ContextClient.v
MicClient.v
