(* ===== verification/Prelude.v ===== *)
(** * A verification library for the Cobalt Speech C++ client examples

    The repository holds client programs for two gRPC services: the
    Diatheke dialogue service (src/diatheke) and the Cubic speech
    recognition service (src/cubic), and a Recorder class that pipes
    microphone audio from an external process.  The services and their
    SDKs are outside the repository; this library models the client
    side as the sources write it, against an explicit interface for
    each service.

    ** The parts of the program and how they interact

    - src/diatheke/recorder.{h,cpp}: the Recorder, an object whose only
      state is a FILE* ([mStdout]) obtained from popen.  Its methods
      start, readAudio, stop and its destructor change that state and
      the process table of the operating system.
    - src/diatheke/player.h: the Player, the writing counterpart used for
      speech synthesis; player.cpp is not part of the sources, so its
      methods are modelled from the spec (marked so in the manifest).
    - src/diatheke/audio_client.cpp and cli_client.cpp: the dialogue
      clients.  Their [processActions] walks the action list of a
      session: a reply is rendered and the walk goes on, an input
      request or a command ends the walk with the session returned by
      the server, an unset action or the end of the list is an error.
      [main] creates a session and loops forever on [processActions].
    - src/cubic/synchronous_client.cpp: one [recognize] request with the
      whole of test.wav, then the transcripts.
    - src/cubic/stream_client.cpp and context_client.cpp: a stream; an
      audio thread pushes test.wav in 8192-byte buffers while the main
      thread prints the results, joins the audio thread and closes the
      stream.  The context client first compiles a list of phrases for
      the first model's context token and sends it with the stream's
      configuration.
    - src/cubic/mic_client.cpp: a stream fed from a microphone by an
      audio thread while a results thread prints; the main thread stops
      the audio thread through an atomic flag when Enter is pressed.

    ** Files, and which part each models

    - [Prelude] (this file): the C++ exceptions the clients throw or
      catch and undefined behaviour ([exn]), the state-and-exception
      monad [M] in which every sequential operation is written (a run
      returns the outcome and the world at the point where it stopped,
      so an exception keeps the effects done before it), pointwise
      equivalence of programs with its [Proper] instances, the [scoped]
      combinator for a C++ local object whose destructor runs on every
      exit path, [star] for step relations, the closure [astep] of a
      step relation with the aborts of [std::terminate], [interleave]
      (the merges of two threads' writes to one stream) and [prefix],
      measure induction, and the hint databases [cpp] and [cpp_run].
    - [Sys]: the operating system seen through popen, fread, fwrite and
      pclose: a table of pipes and a sticky flag for undefined
      behaviour (a FILE* used after pclose).  A lens class [HasSys]
      lets every component that owns a world reach the process table.
    - [Recorder] (Module [Recorder], recorder.cpp) and [Player] (Module
      [Player], player.h): the objects, the invariant that an object's
      FILE* is either null or an open pipe of the table, its
      preservation by every method, and the absence of leaked processes
      after the destructor.
    - [AudioIO]: the SDK's abstract classes [AudioReader] and
      [AudioWriter] as type classes, with the laws a reader must obey
      for the capture loop to end; [Recorder] and [Player] are their
      instances, as they derive from them in the sources.
    - [Protocol]: the Diatheke messages and the class [DiathekeServer],
      the interface the dialogue clients call.
    - [Dispatch]: the abstract contract of [processActions] and the
      class [DispatchLoop] whose equations make a walk refine it.
    - [Client]: the world of a dialogue client (server, process table,
      standard input, event log), the SDK calls, and the SDK loops
      ReadASRAudio and WriteTTSAudio (modelled from the spec).
    - [Mock]: a scripted Diatheke server for the witnesses and the
      scenarios of the spec.
    - [AudioClient], [CliClient] (Modules of the same names): the
      handlers and [processActions] of each dialogue client.
    - [Conversation]: both [main] functions, the infinite loop run for a
      given number of turns, and the session's lifecycle.
    - [Cubic]: the Cubic messages, the class [CubicServer], the world of
      a recognition client (server, files, standard input, log), and the
      code the four Cubic [main]s share: the version header, [models[0]],
      the transcript loop, the catch clauses and "Done.".
    - [CubicMock]: a scripted Cubic server for the witnesses.
    - [FileStream]: [std::ifstream] reads and the buffers the audio
      thread's loop pushes ([chunks]).
    - [Streaming] (Module [Streaming]): the two threads of the streaming
      clients as a step relation on a global state (each thread's
      program point, the stream seen by both sides, the console), with
      the server as environment, executable thread steps and schedules.
      The main thread takes a response in one step and prints one line
      per step, so that an abort can fall inside a response.
    - [SyncClient], [StreamClient], [ContextClient]: the [main] of each
      file client; [StreamClient.runs] composes a preamble with the
      threads of [Streaming] and the catch clauses, and
      [ContextClient.runs] is the same composition with the context
      preamble, since the threads of context_client.cpp are the code of
      stream_client.cpp.
    - [MicClient]: the three threads of mic_client.cpp and the flag
      [isRecording] as a step relation, with the microphone, the user
      and the server as environment, a ghost counter of the buffers
      pushed after the flag was cleared, and [MicClient.runs], the
      preamble composed with the threads.  The two threads that print
      write one [<<] per step, the banner's three included.

    ** The theorems

    - Refinement: both [processActions] implement the dispatch contract
      as an equivalence of programs.
    - End to end for the streaming clients: at the end of a run the
      server received exactly the file's buffers, in order, and the
      console holds the transcripts of the responses received, in
      order; the [main]s of stream_client, context_client (with its
      model listing and compiled context) and mic_client (whose banner
      and transcripts are merged write by write) composed with their
      preambles, each stated of the final state of the threads reached
      from the world the preamble left.
    - The microphone's audio: along any schedule, the buffers pushed,
      the one the audio thread holds and those not yet read are exactly
      the microphone's output, in order.
    - Round trip and bounds of the file buffers: they concatenate to the
      file, there are [len / 8192 + 1] of them, all full but the last.
    - Resource safety: the Recorder's class invariant (its FILE* is
      null or an open pipe it owns) holds after every sequence of
      method calls; the Recorder and the Player never use a closed
      FILE* and never leak their process, on every path.
    - Ordering of the threads: no push after audioFinished, close after
      the joins, the microphone's audioFinished after the flag is cleared
      and the recorder stopped, at most one buffer pushed after Enter.
    - Errors inside the threads: an exception of the SDK in a thread,
      or in the main thread while a [std::thread] is joinable, ends the
      process through [std::terminate]; the streaming and microphone
      clients then never print "Cubic error:" nor "Done." and never
      close the stream, though their catch clauses are meant for it:
      the console holds a prefix of what a normal run prints (for the
      microphone client, a merge of prefixes of the two threads'
      writes).
    - Termination and liveness: the streaming threads terminate once
      the server has ended, and every state of the streaming and
      microphone models can reach the end of [main].
    - Functional behaviour of the handlers, of the synchronous client,
      of the context token list (an equivalence with [String.concat])
      and of the context configuration; error paths: server errors,
      processes that cannot start, end of input, and the undefined
      behaviour of [models[0]], [alternatives(0)] and [erase] on
      inputs the code does not check.
    - The scenarios of the spec's section 8 evaluated on a mock server,
      and a console race of the microphone client.

    ** Bounds and fuel

    The SDK loop ReadASRAudio is written with fuel one more than the
    audio its reader has left (for the Recorder, the bytes left in its
    pipe); every read that does not end the loop consumes at least one
    byte, so this fuel is enough, and [sendAudio_fuel] shows that more
    fuel does not change the result.  This rests on the model's pipe
    holding finitely many bytes: a live recorder produces audio until
    the server ends the utterance, which the model does not bound.  The
    audio thread's read loop is written with fuel [length d + 1] in
    [chunks]; it makes [length d / 8192 + 1] reads, and more fuel does
    not change it ([pushes_fuel]).  The infinite loops of the dialogue
    [main]s are run for a given number of turns.  The thread models
    need no fuel: their termination is a decreasing measure.

    ** Not modelled

    The gRPC wire protocol, the servers (reached only through
    [DiathekeServer] and [CubicServer] and the server steps of the
    stream models), the audio codecs, the console formatting of numbers
    (printed as items of their own), which SDK calls throw and when
    (any call the threads make may, as an environment choice of the
    abort closure), and the Recorder class of the Cubic examples,
    which is not in the repository: its [readAudio] is taken as a
    blocking read of the next buffer the microphone produced.  The
    threads of context_client.cpp are the code of stream_client.cpp and
    are modelled once. *)

From Stdlib Require Import String List Lia Setoid Morphisms.
Import ListNotations.

(** ** Exceptions *)

(** The exceptions the clients throw or catch: [std::runtime_error]
    with its message, and the SDK's [ClientError].  [UndefinedBehaviour]
    marks an operation whose C++ meaning is undefined (an out of range
    index, a pointer before the start of a string). *)
Inductive exn : Type :=
| RuntimeError (msg : string)
| ClientError (msg : string)
| UndefinedBehaviour (what : string).

Inductive outcome (A : Type) : Type :=
| Ok (a : A)
| Throw (e : exn).
Arguments Ok {A} a.
Arguments Throw {A} e.

(** ** The state-and-exception monad *)

Definition M (W A : Type) : Type := W -> outcome A * W.

Definition ret {W A} (a : A) : M W A := fun w => (Ok a, w).

Definition bind {W A B} (m : M W A) (k : A -> M W B) : M W B :=
  fun w => match m w with
           | (Ok a, w') => k a w'
           | (Throw e, w') => (Throw e, w')
           end.

Definition throw {W A} (e : exn) : M W A := fun w => (Throw e, w).

Definition get {W} : M W W := fun w => (Ok w, w).

Definition put {W} (w : W) : M W unit := fun _ => (Ok tt, w).

Definition modify {W} (f : W -> W) : M W unit := fun w => (Ok tt, f w).

(** [try { m } catch (...) { h e }]. *)
Definition catch {W A} (m : M W A) (h : exn -> M W A) : M W A :=
  fun w => match m w with
           | (Ok a, w') => (Ok a, w')
           | (Throw e, w') => h e w'
           end.

Declare Scope cpp_scope.
Delimit Scope cpp_scope with cpp.
Notation "x <- m ;; k" := (bind m (fun x => k))
  (at level 61, m at next level, right associativity) : cpp_scope.
Notation "' p <- m ;; k" := (bind m (fun x => match x with p => k end))
  (at level 61, p pattern, m at next level, right associativity) : cpp_scope.
Notation "m ;; k" := (bind m (fun _ => k))
  (at level 61, right associativity) : cpp_scope.
Open Scope cpp_scope.

(** A range-for loop over a list whose body returns nothing. *)
Fixpoint for_each {W A} (f : A -> M W unit) (l : list A) : M W unit :=
  match l with
  | [] => ret tt
  | x :: l' => f x ;; for_each f l'
  end.

(** ** Programs equal on every world *)

Definition meq {W A} (m1 m2 : M W A) : Prop := forall w, m1 w = m2 w.
Infix "≡" := meq (at level 70) : cpp_scope.

(** ** C++ local objects

    A local object of type [L] lives beside the world while its block
    runs.  [scoped init dtor body] constructs it from [init], runs the
    block, and runs the destructor on the object as the block left it,
    whether the block returned or threw: the RAII discipline of C++. *)

Definition lift {W L A} (m : M W A) : M (W * L) A :=
  fun '(w, l) => let '(r, w') := m w in (r, (w', l)).

(** A method call [obj.f(...)] whose result is the updated object. *)
Definition self {W L} (f : L -> M W L) : M (W * L) unit :=
  fun '(w, l) => match f l w with
                 | (Ok l', w') => (Ok tt, (w', l'))
                 | (Throw e, w') => (Throw e, (w', l))
                 end.

(** A method call that leaves the object unchanged. *)
Definition call {W L A} (f : L -> M W A) : M (W * L) A :=
  fun '(w, l) => let '(r, w') := f l w in (r, (w', l)).

(** Read the local object. *)
Definition local {W L} : M (W * L) L := fun '(w, l) => (Ok l, (w, l)).

Definition scoped {W L A} (init : L) (dtor : L -> W -> W) (body : M (W * L) A) : M W A :=
  fun w => let '(r, (w', l')) := body (w, init) in (r, dtor l' w').

(** A local variable: an object without destructor. *)
Definition with_local {W L A} (init : L) (body : M (W * L) A) : M W A :=
  scoped init (fun _ w => w) body.

(** ** Invariants of the world on every exit

    [preserves P m]: whatever [m] does, returning or throwing, it takes
    a world satisfying [P] to a world satisfying [P]. *)

Definition preserves {W A} (P : W -> Prop) (m : M W A) : Prop :=
  forall w, P w -> P (snd (m w)).

(** ** Results of a run *)

Definition result_of {W A} (p : outcome A * W) : outcome A := fst p.
Definition world_of {W A} (p : outcome A * W) : W := snd p.

(** ** Reflexive transitive closure, for the step relations *)

Inductive star {A : Type} (R : A -> A -> Prop) : A -> A -> Prop :=
| star_refl a : star R a a
| star_step a b c : R a b -> star R b c -> star R a c.

(** A run that an uncaught exception can end through [std::terminate].
    [R] is the program's step relation and [throws a] says that in [a]
    some thread is at a call that may throw where nothing will catch
    the exception: it would leave a [std::thread]'s function, or leave
    a scope while a [std::thread] there is still joinable.  [Aborted a]
    is the end of the process in state [a]: no rule leaves it. *)
Inductive run_state (A : Type) : Type :=
| Running (a : A)
| Aborted (a : A).
Arguments Running {A} a.
Arguments Aborted {A} a.

Inductive astep {A : Type} (R : A -> A -> Prop) (throws : A -> Prop) : run_state A -> run_state A -> Prop :=
| astep_step a b : R a b -> astep R throws (Running a) (Running b)
| astep_abort a : throws a -> astep R throws (Running a) (Aborted a).

(** ** Generic lemmas on lists *)

(** [l] is a merge of [l1] and [l2] that keeps the order of each: what
    two threads writing to one stream can leave in it. *)
Inductive interleave {A : Type} : list A -> list A -> list A -> Prop :=
| il_nil : interleave [] [] []
| il_left x l1 l2 l : interleave l1 l2 l -> interleave (x :: l1) l2 (x :: l)
| il_right x l1 l2 l : interleave l1 l2 l -> interleave l1 (x :: l2) (x :: l).

(** [l1] is a prefix of [l2]. *)
Definition prefix {A : Type} (l1 l2 : list A) : Prop := exists rest, l1 ++ rest = l2.

(** Replace the element at index [i]; out of range the list is
    unchanged. *)
Fixpoint update_nth {A} (i : nat) (f : A -> A) (l : list A) : list A :=
  match l, i with
  | [], _ => []
  | x :: l', 0 => f x :: l'
  | x :: l', S i' => x :: update_nth i' f l'
  end.

(** * Laws of the monad and lemmas *)

#[export] Instance meq_equiv {W A} : Equivalence (@meq W A).
Proof.
  split; [intros m w; reflexivity
         | intros m1 m2 H w; symmetry; apply H
         | intros m1 m2 m3 H1 H2 w; rewrite H1; apply H2].
Qed.

#[export] Instance bind_proper {W A B} :
  Proper (meq ==> pointwise_relation A meq ==> meq) (@bind W A B).
Proof.
  intros m1 m2 Hm k1 k2 Hk w. unfold bind. rewrite Hm.
  destruct (m2 w) as [[a|e] w']; [apply Hk | reflexivity].
Qed.

#[export] Instance catch_proper {W A} :
  Proper (meq ==> pointwise_relation exn meq ==> meq) (@catch W A).
Proof.
  intros m1 m2 Hm h1 h2 Hh w. unfold catch. rewrite Hm.
  destruct (m2 w) as [[a|e] w']; [reflexivity | apply Hh].
Qed.

Lemma bind_ret_l {W A B} (a : A) (k : A -> M W B) : bind (ret a) k ≡ k a.
Proof. intros w; reflexivity. Qed.

Lemma bind_ret_r {W A} (m : M W A) : bind m ret ≡ m.
Proof. intros w. unfold bind. destruct (m w) as [[a|e] w']; reflexivity. Qed.

Lemma bind_assoc {W A B C} (m : M W A) (k : A -> M W B) (h : B -> M W C) :
  bind (bind m k) h ≡ bind m (fun a => bind (k a) h).
Proof. intros w. unfold bind. destruct (m w) as [[a|e] w']; reflexivity. Qed.

Lemma bind_throw {W A B} (e : exn) (k : A -> M W B) : bind (throw e) k ≡ throw e.
Proof. intros w; reflexivity. Qed.

(** A step that returned, or threw, on a given world. *)
Lemma bind_ok {W A B} (m : M W A) (k : A -> M W B) w a w' :
  m w = (Ok a, w') -> bind m k w = k a w'.
Proof. intros Hm. unfold bind. rewrite Hm. reflexivity. Qed.

Lemma bind_err {W A B} (m : M W A) (k : A -> M W B) w e w' :
  m w = (Throw e, w') -> bind m k w = (Throw e, w').
Proof. intros Hm. unfold bind. rewrite Hm. reflexivity. Qed.

Lemma for_each_app {W A} (f : A -> M W unit) (l1 l2 : list A) :
  for_each f (l1 ++ l2) ≡ (for_each f l1 ;; for_each f l2).
Proof.
  induction l1 as [|x l1 IH]; cbn.
  - intros w; reflexivity.
  - rewrite bind_assoc. apply bind_proper; [reflexivity | intros []; apply IH].
Qed.

Lemma call_run {W L A} (f : L -> M W A) w l :
  call f (w, l) = (fst (f l w), (snd (f l w), l)).
Proof. unfold call. destruct (f l w); reflexivity. Qed.

Lemma lift_run {W L A} (m : M W A) w (l : L) :
  lift m (w, l) = (fst (m w), (snd (m w), l)).
Proof. unfold lift. destruct (m w); reflexivity. Qed.

Lemma lift_bind {W L A B} (m : M W A) (k : A -> M W B) :
  @lift W L B (bind m k) ≡ bind (lift m) (fun a => lift (k a)).
Proof.
  intros [w l]. unfold lift, bind.
  destruct (m w) as [[a|e] w']; [destruct (k a w')|]; reflexivity.
Qed.

(** The world after [scoped] is the destructor applied to the object as
    the block left it, on the normal and on the exceptional exit. *)
Lemma scoped_run {W L A} (init : L) (dtor : L -> W -> W) (body : M (W * L) A) w :
  scoped init dtor body w =
  (fst (body (w, init)), dtor (snd (snd (body (w, init)))) (fst (snd (body (w, init))))).
Proof. unfold scoped. destruct (body (w, init)) as [r [w' l']]. reflexivity. Qed.

Lemma preserves_ret {W A} (P : W -> Prop) (a : A) : preserves P (ret a).
Proof. intros w Hw; exact Hw. Qed.

Lemma preserves_throw {W A} (P : W -> Prop) e : preserves P (@throw W A e).
Proof. intros w Hw; exact Hw. Qed.

Lemma preserves_bind {W A B} (P : W -> Prop) (m : M W A) (k : A -> M W B) :
  preserves P m -> (forall a, preserves P (k a)) -> preserves P (bind m k).
Proof.
  intros Hm Hk w Hw. unfold bind. specialize (Hm w Hw).
  destruct (m w) as [[a|e] w']; [apply Hk|]; exact Hm.
Qed.

Lemma preserves_for_each {W A} (P : W -> Prop) (f : A -> M W unit) l :
  (forall x, preserves P (f x)) -> preserves P (for_each f l).
Proof.
  intros Hf. induction l as [|x l IH]; cbn;
    [apply preserves_ret | apply preserves_bind; auto].
Qed.

(** Reachability *)

Section Star.
Context {A : Type} (R : A -> A -> Prop).

Lemma star_one a b : R a b -> star R a b.
Proof. eauto using star. Qed.

Lemma star_trans a b c : star R a b -> star R b c -> star R a c.
Proof. induction 1; eauto using star. Qed.

(** An invariant preserved by every step holds on every reachable
    state. *)
Lemma star_invariant (P : A -> Prop) :
  (forall a b, P a -> R a b -> P b) -> forall a b, star R a b -> P a -> P b.
Proof. intros HP a b Hs. induction Hs; eauto. Qed.
End Star.

Section Abort.
Context {A : Type} (R : A -> A -> Prop) (throws : A -> Prop).

(** A run of the program is a run with aborts that took none. *)
Lemma astar_lift a b : star R a b -> star (astep R throws) (Running a) (Running b).
Proof. induction 1; eauto using star, astep. Qed.

Lemma astar_inv x y :
  star (astep R throws) x y -> forall a, x = Running a ->
  match y with Running b => star R a b | Aborted b => star R a b /\ throws b end.
Proof.
  induction 1 as [x|x y z Hxy Hyz IH]; intros a0 ->; [apply star_refl|].
  inversion Hxy as [a b Hab|a Ht]; subst.
  - specialize (IH b eq_refl). destruct z as [c|c].
    + exact (star_step _ _ _ _ Hab IH).
    + destruct IH as [Hs Ht]. split; [exact (star_step _ _ _ _ Hab Hs) | exact Ht].
  - inversion Hyz as [|? ? ? Hab' _]; subst; [split; [apply star_refl | exact Ht] | inversion Hab'].
Qed.

(** An aborted run is a run of the program to a state where a call
    that throws was under way. *)
Lemma astar_aborted a b : star (astep R throws) (Running a) (Aborted b) -> star R a b /\ throws b.
Proof. intros Hs. exact (astar_inv _ _ Hs a eq_refl). Qed.
End Abort.

Lemma firstn_skipn_length {A} (n : nat) (l : list A) :
  length (firstn n l) + length (skipn n l) = length l.
Proof. rewrite <- length_app, firstn_skipn. reflexivity. Qed.

Lemma skipn_length_lt {A} (n : nat) (l : list A) :
  0 < n -> l <> [] -> length (skipn n l) < length l.
Proof.
  intros Hn Hl. rewrite length_skipn. destruct l; [congruence|]. simpl length. lia.
Qed.

Lemma length_update_nth {A} i (f : A -> A) l : length (update_nth i f l) = length l.
Proof. revert i; induction l as [|x l IH]; intros [|i]; cbn; auto. Qed.

Lemma nth_error_update_nth_eq {A} i (f : A -> A) l :
  nth_error (update_nth i f l) i = option_map f (nth_error l i).
Proof. revert i; induction l as [|x l IH]; intros [|i]; cbn; auto. Qed.

Lemma nth_error_update_nth_ne {A} i j (f : A -> A) l :
  i <> j -> nth_error (update_nth i f l) j = nth_error l j.
Proof.
  revert i j; induction l as [|x l IH]; intros [|i] [|j] Hij; cbn; auto; try lia.
Qed.

Lemma nth_error_app_end {A} (l : list A) x : nth_error (l ++ [x]) (length l) = Some x.
Proof. induction l as [|y l IH]; cbn; auto. Qed.

(** Well-founded induction on a measure in [nat]. *)
Section Interleave.
Context {A : Type}.

Lemma il_snoc_l (l1 l2 l : list A) x : interleave l1 l2 l -> interleave (l1 ++ [x]) l2 (l ++ [x]).
Proof.
  induction 1; cbn; [apply il_left, il_nil | apply il_left | apply il_right]; assumption.
Qed.

Lemma il_snoc_r (l1 l2 l : list A) x : interleave l1 l2 l -> interleave l1 (l2 ++ [x]) (l ++ [x]).
Proof.
  induction 1; cbn; [apply il_right, il_nil | apply il_left | apply il_right]; assumption.
Qed.

Lemma il_nil_l (l : list A) : interleave [] l l.
Proof. induction l; constructor; assumption. Qed.

Lemma prefix_refl (l : list A) : prefix l l.
Proof. exists []. apply app_nil_r. Qed.

End Interleave.

Lemma measure_induction {A} (f : A -> nat) (P : A -> Prop) :
  (forall x, (forall y, f y < f x -> P y) -> P x) -> forall x, P x.
Proof.
  intros Hind x. remember (f x) as n eqn:Hn. revert x Hn.
  induction n as [n IH] using (well_founded_induction Wf_nat.lt_wf).
  intros x ->. apply Hind. intros y Hy. exact (IH (f y) Hy y eq_refl).
Qed.

(** ** Automation *)

Create HintDb cpp.
Create Rewrite HintDb cpp_run.
#[export] Hint Rewrite @bind_ret_l @bind_throw : cpp_run.
#[export] Hint Rewrite @length_update_nth @nth_error_update_nth_eq @nth_error_app_end : cpp_run.
#[export] Hint Resolve star_refl star_one : cpp.
#[export] Hint Resolve il_nil il_snoc_l il_snoc_r il_nil_l prefix_refl : cpp.
#[export] Hint Resolve preserves_ret preserves_throw preserves_bind preserves_for_each : cpp.

(** Prove that a chain of binds preserves an invariant, closing every
    step with [leaf]. *)
Ltac chain_preserves leaf :=
  repeat (apply preserves_bind; [solve [leaf] | intros ?]); solve [leaf].

(** Unfold the monad on a concrete world and split the matches. *)
Ltac run_m :=
  repeat (cbn [bind ret throw get put modify catch lift self call local scoped
               for_each fst snd] in *).

(** Split the first [match] of the goal, or of hypothesis [H], keeping
    the equation of the scrutinee. *)
Ltac split_match :=
  match goal with |- context [match ?x with _ => _ end] => destruct x eqn:? end.
Ltac split_match_in H :=
  match type of H with context [match ?x with _ => _ end] => destruct x eqn:? end.
