(* ===== verification/Sys.v ===== *)
(** * The operating system seen through popen, fread, fwrite and pclose

    The Recorder (src/diatheke/recorder.cpp) and the Player
    (src/diatheke/player.h) talk to their external process through the C
    stdio calls popen, fread, fwrite and pclose.  This file models those
    calls on a table of pipes: a FILE* is an index into the table
    ([option nat], [None] being the null pointer), a pipe opened for
    reading holds the bytes the process has still to deliver, a pipe
    opened for writing the bytes written to it.  Using a FILE* that was
    never returned by popen, or that was already passed to pclose, is
    undefined behaviour in C: the model records it in a sticky flag
    [sys_ub] so that the safety theorems can state its absence.

    The class [HasSys] is the interface by which a component that owns a
    larger world reaches the table: a lens with its three laws. *)

From Stdlib Require Import String List Lia.
From S2P Require Import Prelude.
Import ListNotations.

Inductive mode : Type := ReadEnd | WriteEnd.

Definition mode_eqb (m1 m2 : mode) : bool :=
  match m1, m2 with
  | ReadEnd, ReadEnd | WriteEnd, WriteEnd => true
  | _, _ => false
  end.

Record pipe : Type := mkPipe {
  pipe_cmd : string;
  pipe_mode : mode;
  pipe_data : list Byte.byte;
  pipe_open : bool
}.

(** [sys_spawn cmd] is what popen finds when it launches [cmd]: [None]
    when the process cannot be started (popen returns NULL), otherwise
    the bytes the process writes to its standard output. *)
Record sys : Type := mkSys {
  sys_pipes : list pipe;
  sys_spawn : string -> option (list Byte.byte);
  sys_ub : bool
}.

Definition FILE := option nat.

(** ** The calls *)

Definition set_pipes (s : sys) (ps : list pipe) : sys :=
  mkSys ps (sys_spawn s) (sys_ub s).

Definition raise_ub (s : sys) : sys := mkSys (sys_pipes s) (sys_spawn s) true.

(** The pipe behind a handle, when the handle is open in the given mode. *)
Definition open_pipe (s : sys) (h : nat) (m : mode) : option pipe :=
  match nth_error (sys_pipes s) h with
  | Some p => if andb (pipe_open p) (mode_eqb (pipe_mode p) m) then Some p else None
  | None => None
  end.

(** [popen(cmd, "r")] or [popen(cmd, "w")]. *)
Definition popen (cmd : string) (m : mode) (s : sys) : FILE * sys :=
  match sys_spawn s cmd with
  | None => (None, s)
  | Some out =>
      let data := match m with ReadEnd => out | WriteEnd => [] end in
      (Some (length (sys_pipes s)),
       set_pipes s (sys_pipes s ++ [mkPipe cmd m data true]))
  end.

Definition take_data (n : nat) (p : pipe) : pipe :=
  mkPipe (pipe_cmd p) (pipe_mode p) (skipn n (pipe_data p)) (pipe_open p).

Definition append_data (b : list Byte.byte) (p : pipe) : pipe :=
  mkPipe (pipe_cmd p) (pipe_mode p) (pipe_data p ++ b) (pipe_open p).

Definition close_pipe (p : pipe) : pipe :=
  mkPipe (pipe_cmd p) (pipe_mode p) (pipe_data p) false.

(** [fread(buffer, 1, n, h)]: up to [n] bytes, fewer only at the end of
    the stream; it blocks otherwise, so the bytes returned are a prefix
    of what the process has still to deliver. *)
Definition fread (h : nat) (n : nat) (s : sys) : list Byte.byte * sys :=
  match open_pipe s h ReadEnd with
  | Some p => (firstn n (pipe_data p), set_pipes s (update_nth h (take_data n) (sys_pipes s)))
  | None => ([], raise_ub s)
  end.

(** [fwrite(audio, 1, size, h)]: all the bytes are written. *)
Definition fwrite (h : nat) (b : list Byte.byte) (s : sys) : nat * sys :=
  match open_pipe s h WriteEnd with
  | Some _ => (length b, set_pipes s (update_nth h (append_data b) (sys_pipes s)))
  | None => (0, raise_ub s)
  end.

(** [pclose(h)]: closing twice, or closing what popen did not return, is
    undefined behaviour. *)
Definition pclose (h : nat) (s : sys) : sys :=
  match nth_error (sys_pipes s) h with
  | Some p => if pipe_open p then set_pipes s (update_nth h close_pipe (sys_pipes s))
              else raise_ub s
  | None => raise_ub s
  end.

(** ** Counting running processes *)

Definition open_count (s : sys) : nat :=
  length (filter pipe_open (sys_pipes s)).

(** ** The interface to a larger world *)

Class HasSys (W : Type) := {
  sys_of : W -> sys;
  with_sys : sys -> W -> W
}.

Class HasSysLaws (W : Type) `{HasSys W} := {
  sys_of_with : forall s w, sys_of (with_sys s w) = s;
  with_sys_of : forall w, with_sys (sys_of w) w = w;
  with_sys_twice : forall s1 s2 w, with_sys s2 (with_sys s1 w) = with_sys s2 w
}.

#[export] Instance sys_has_sys : HasSys sys := {
  sys_of := fun s => s;
  with_sys := fun s _ => s
}.

#[export] Instance sys_has_sys_laws : HasSysLaws sys.
Proof. split; reflexivity. Qed.

(** A system call on the table of the world. *)
Definition syscall {W A} `{HasSys W} (f : sys -> A * sys) : M W A :=
  fun w => let '(a, s') := f (sys_of w) in (Ok a, with_sys s' w).

(** ** An object that owns one FILE*

    [holds f m s]: the handle is null, or an open pipe of mode [m].
    [fd_inv base f m s]: moreover no undefined behaviour happened, and
    the running processes are the [base] ones plus the one the handle
    owns. *)

Definition holds (f : FILE) (m : mode) (s : sys) : Prop :=
  match f with
  | None => True
  | Some h => exists p, open_pipe s h m = Some p
  end.

Definition owned (f : FILE) : nat :=
  match f with None => 0 | Some _ => 1 end.

Definition fd_inv (base : nat) (f : FILE) (m : mode) (s : sys) : Prop :=
  holds f m s /\ sys_ub s = false /\ open_count s = base + owned f.

(** ** Lemmas on the calls *)

Lemma open_pipe_some s h m p :
  open_pipe s h m = Some p ->
  nth_error (sys_pipes s) h = Some p /\ pipe_open p = true /\ pipe_mode p = m.
Proof.
  unfold open_pipe. destruct (nth_error _ h) as [q|]; [|discriminate].
  destruct (pipe_open q) eqn:Ho, (pipe_mode q) eqn:Hm, m; cbn; intros E;
    try discriminate; inversion E; subst; auto.
Qed.

Lemma open_pipe_intro s h p :
  nth_error (sys_pipes s) h = Some p -> pipe_open p = true ->
  open_pipe s h (pipe_mode p) = Some p.
Proof.
  intros Hn Ho. unfold open_pipe. rewrite Hn, Ho. destruct (pipe_mode p); reflexivity.
Qed.

Lemma open_count_app ps p :
  length (filter pipe_open (ps ++ [p])) =
  length (filter pipe_open ps) + (if pipe_open p then 1 else 0).
Proof.
  rewrite filter_app, length_app. cbn. destruct (pipe_open p); reflexivity.
Qed.

(** Updating an element without touching its open flag keeps the
    count. *)
Lemma open_count_update_same h f ps :
  (forall p, pipe_open (f p) = pipe_open p) ->
  length (filter pipe_open (update_nth h f ps)) = length (filter pipe_open ps).
Proof.
  intros Hf. revert h; induction ps as [|p ps IH]; intros [|h]; cbn; auto.
  - rewrite Hf. destruct (pipe_open p); reflexivity.
  - destruct (pipe_open p); cbn; auto.
Qed.

(** Closing an open pipe lowers the count by one. *)
Lemma open_count_close h ps p :
  nth_error ps h = Some p -> pipe_open p = true ->
  S (length (filter pipe_open (update_nth h close_pipe ps))) = length (filter pipe_open ps).
Proof.
  revert h; induction ps as [|q ps IH]; intros [|h] Hn Ho; cbn in *; try discriminate.
  - inversion Hn; subst. rewrite Ho. reflexivity.
  - destruct (pipe_open q); cbn; auto.
Qed.

Lemma open_pipe_update_same s h g m p :
  open_pipe s h m = Some p ->
  (forall q, pipe_open (g q) = pipe_open q /\ pipe_mode (g q) = pipe_mode q) ->
  open_pipe (set_pipes s (update_nth h g (sys_pipes s))) h m = Some (g p).
Proof.
  intros Hp Hg. apply open_pipe_some in Hp as (Hn & Ho & Hm).
  unfold open_pipe. cbn. rewrite nth_error_update_nth_eq, Hn. cbn.
  destruct (Hg p) as [-> ->]. rewrite Ho, Hm. destruct m; reflexivity.
Qed.

(** popen of a process that starts: a fresh open handle, one more
    process. *)
Lemma popen_spawn base cmd m s out :
  sys_spawn s cmd = Some out -> fd_inv base None m s ->
  fd_inv base (fst (popen cmd m s)) m (snd (popen cmd m s)).
Proof.
  intros Hs (_ & Hub & Hc). unfold popen. rewrite Hs. cbn.
  repeat split.
  - unfold holds, open_pipe. simpl sys_pipes. rewrite nth_error_app_end.
    destruct m; eexists; reflexivity.
  - exact Hub.
  - unfold open_count in *. simpl sys_pipes. rewrite open_count_app. cbn in *. lia.
Qed.

(** popen of a process that cannot start: NULL and nothing changes. *)
Lemma popen_fail cmd m s :
  sys_spawn s cmd = None -> popen cmd m s = (None, s).
Proof. intros Hs. unfold popen. rewrite Hs. reflexivity. Qed.

Lemma fread_inv base h n s :
  fd_inv base (Some h) ReadEnd s -> fd_inv base (Some h) ReadEnd (snd (fread h n s)).
Proof.
  intros ([p Hp] & Hub & Hc). unfold fread. rewrite Hp. cbn. repeat split.
  - eexists. apply open_pipe_update_same; [exact Hp | intros q; split; reflexivity].
  - exact Hub.
  - unfold open_count in *. cbn. rewrite open_count_update_same; [exact Hc | reflexivity].
Qed.

(** fread on an open pipe returns the first [n] bytes the process has
    still to deliver. *)
Lemma fread_data h n s p :
  open_pipe s h ReadEnd = Some p -> fst (fread h n s) = firstn n (pipe_data p).
Proof. intros Hp. unfold fread. rewrite Hp. reflexivity. Qed.

Lemma fwrite_inv base h b s :
  fd_inv base (Some h) WriteEnd s -> fd_inv base (Some h) WriteEnd (snd (fwrite h b s)).
Proof.
  intros ([p Hp] & Hub & Hc). unfold fwrite. rewrite Hp. cbn. repeat split.
  - eexists. apply open_pipe_update_same; [exact Hp | intros q; split; reflexivity].
  - exact Hub.
  - unfold open_count in *. cbn. rewrite open_count_update_same; [exact Hc | reflexivity].
Qed.

(** A read that returns bytes consumes them: the pipe's remaining data
    gets shorter. *)
Lemma fread_progress h n s :
  fst (fread h n s) <> [] ->
  exists p, nth_error (sys_pipes s) h = Some p /\
    nth_error (sys_pipes (snd (fread h n s))) h = Some (take_data n p) /\
    length (pipe_data (take_data n p)) < length (pipe_data p).
Proof.
  unfold fread. destruct (open_pipe s h ReadEnd) as [p|] eqn:Hp; cbn; [|congruence].
  intros Hne. apply open_pipe_some in Hp as (Hn & _ & _).
  exists p. split; [exact Hn|]. split.
  - rewrite nth_error_update_nth_eq, Hn. reflexivity.
  - cbn. apply skipn_length_lt.
    + destruct n; [cbn in Hne; congruence | lia].
    + intros E. rewrite E, firstn_nil in Hne. congruence.
Qed.

(** pclose of the handle an object holds: the handle goes back to
    null, the process is gone. *)
Lemma pclose_inv base h m s :
  fd_inv base (Some h) m s -> fd_inv base None m (pclose h s).
Proof.
  intros ([p Hp] & Hub & Hc). apply open_pipe_some in Hp as (Hn & Ho & _).
  unfold pclose. rewrite Hn, Ho. repeat split.
  - exact Hub.
  - unfold open_count in *. cbn. pose proof (open_count_close h _ _ Hn Ho). cbn in Hc. lia.
Qed.



#[export] Hint Resolve open_pipe_intro fread_inv fwrite_inv pclose_inv : cpp.

(** ** System calls through the lens *)

Section Lens.
Context {W : Type} `{HasSysLaws W}.

Lemma syscall_run {A} (f : sys -> A * sys) w :
  syscall f w = (Ok (fst (f (sys_of w))), with_sys (snd (f (sys_of w))) w).
Proof. unfold syscall. destruct (f (sys_of w)); reflexivity. Qed.

Lemma syscall_sys {A} (f : sys -> A * sys) w :
  sys_of (snd (syscall f w)) = snd (f (sys_of w)).
Proof. rewrite syscall_run. apply sys_of_with. Qed.
End Lens.
