(* ===== verification/Recorder.v ===== *)
(** * The Recorder: an object that owns the recording process

    Module [Recorder] models src/diatheke/recorder.h and recorder.cpp
    line by line: the object holds the command line [mCmd] and the FILE*
    [mStdout] (null until [start]); [start] launches the process with
    popen unless it runs already, [readAudio] throws when the recorder is
    not running and otherwise freads from the pipe, [stop] pcloses the
    pipe and resets the pointer, and the destructor calls [stop].

    The methods are written once for any world that reaches the process
    table through [HasSys].  The theorems show that the FILE* of the
    object is always null or an open pipe that it owns (the class
    invariant, after any sequence of calls), that no method uses a closed
    pipe, and that any sequence of method calls inside a C++ scope,
    including one cut short by an exception, leaves no process running
    once the destructor has run. *)

From Stdlib Require Import String List Lia.
From S2P Require Import Prelude Sys.
Import ListNotations.

Module Recorder.

Record Recorder : Type := mkRecorder {
  mCmd : string;
  mStdout : FILE
}.

(** [Recorder::Recorder(recordCmd) : mCmd(recordCmd), mStdout(nullptr)]. *)
Definition construct (recordCmd : string) : Recorder := mkRecorder recordCmd None.

Definition not_started_msg : string := "can't read audio - recorder not started.".

Section Methods.
Context {W : Type} `{HasSys W}.

(** [Recorder::start]: ignored when running, otherwise popen "r". *)
Definition start (this : Recorder) : M W Recorder :=
  match mStdout this with
  | Some _ => ret this
  | None => f <- syscall (popen (mCmd this) ReadEnd) ;; ret (mkRecorder (mCmd this) f)
  end.

(** [Recorder::readAudio]: the bytes fread put in the buffer. *)
Definition readAudio (this : Recorder) (buffSize : nat) : M W (list Byte.byte) :=
  match mStdout this with
  | None => throw (RuntimeError not_started_msg)
  | Some h => syscall (fread h buffSize)
  end.

(** [Recorder::stop]: ignored when stopped, otherwise pclose and reset. *)
Definition stop (this : Recorder) : M W Recorder :=
  match mStdout this with
  | None => ret this
  | Some h => syscall (fun s => (tt, pclose h s)) ;; ret (mkRecorder (mCmd this) None)
  end.

(** [Recorder::~Recorder]: [this->stop()]. *)
Definition destroy (this : Recorder) (w : W) : W := snd (stop this w).

(** A client's use of a recorder: any sequence of method calls. *)
Inductive op : Type := OpStart | OpRead (n : nat) | OpStop.

Definition run_op (o : op) : M (W * Recorder) unit :=
  match o with
  | OpStart => self start
  | OpRead n => call (fun r => readAudio r n) ;; ret tt
  | OpStop => self stop
  end.

Definition run_ops (ops : list op) : M (W * Recorder) unit := for_each run_op ops.

End Methods.

(** Worlds for the witnesses: a microphone process that delivers three
    bytes, and one that cannot be started. *)
Definition demo_sys : sys := mkSys [] (fun _ => Some [Byte.x01; Byte.x02; Byte.x03]) false.
Definition dead_sys : sys := mkSys [] (fun _ => None) false.

Section Proofs.
Context {W : Type} `{HasSysLaws W}.

Definition inv (base : nat) (p : W * Recorder) : Prop :=
  fd_inv base (mStdout (snd p)) ReadEnd (sys_of (fst p)).

Lemma start_inv base : preserves (inv base) (self start).
Proof.
  intros [w r] Hi. unfold inv in *. cbn in *. unfold start.
  destruct (mStdout r) as [h|] eqn:E; [cbn; rewrite E; exact Hi|].
  unfold bind. rewrite syscall_run. cbn. rewrite sys_of_with.
  destruct (sys_spawn (sys_of w) (mCmd r)) as [out|] eqn:Hs.
  - apply popen_spawn with (out := out); [exact Hs | exact Hi].
  - rewrite popen_fail by exact Hs. exact Hi.
Qed.

Lemma readAudio_inv base n : preserves (inv base) (call (fun r => readAudio r n)).
Proof.
  intros [w r] Hi. unfold inv in *. rewrite call_run. cbn in *. unfold readAudio.
  destruct (mStdout r) as [h|] eqn:E; [|exact Hi].
  rewrite syscall_sys. auto with cpp.
Qed.

Lemma stop_inv base : preserves (inv base) (self stop).
Proof.
  intros [w r] Hi. unfold inv in *. cbn in *. unfold stop.
  destruct (mStdout r) as [h|] eqn:E; [|cbn; rewrite E; exact Hi].
  unfold bind. rewrite syscall_run. cbn. rewrite sys_of_with. auto with cpp.
Qed.

Lemma run_ops_inv base ops : preserves (inv base) (run_ops ops).
Proof.
  apply preserves_for_each. intros [|n|]; [apply start_inv | | apply stop_inv].
  apply preserves_bind; [apply readAudio_inv | intros; apply preserves_ret].
Qed.

(** After the destructor the object's process is gone. *)
Lemma destroy_inv base r w :
  inv base (w, r) -> fd_inv base None ReadEnd (sys_of (destroy r w)).
Proof.
  unfold inv, destroy, stop. cbn. destruct (mStdout r) as [h|]; intros Hi; [|exact Hi].
  unfold bind. rewrite syscall_run. cbn. rewrite sys_of_with. auto with cpp.
Qed.

(** The no-leak theorem is stated below at a generic world; the lemma carries the
    invariant from construction to destruction. *)
Lemma scope_inv {A} base cmd (body : M (W * Recorder) A) w :
  preserves (inv base) body -> fd_inv base None ReadEnd (sys_of w) ->
  fd_inv base None ReadEnd (sys_of (snd (scoped (construct cmd) destroy body w))).
Proof.
  intros Hb Hw. rewrite scoped_run. cbn [snd].
  apply destroy_inv. apply (Hb (w, construct cmd)). exact Hw.
Qed.

(** C11. Recorder, no leaked process: whatever sequence of start, readAudio
    and stop a block performs on a local Recorder, and even when a
    readAudio throws and cuts the block short, once the destructor has
    run the number of running processes is what it was before the block
    and no FILE* was used after pclose. *)
Theorem recorder_scope_no_leak cmd ops w :
  sys_ub (sys_of w) = false ->
  open_count (sys_of (snd (scoped (construct cmd) destroy (run_ops ops) w))) = open_count (sys_of w)
  /\ sys_ub (sys_of (snd (scoped (construct cmd) destroy (run_ops ops) w))) = false.
Proof.
  intros Hub.
  destruct (scope_inv (open_count (sys_of w)) cmd (run_ops ops) w) as (_ & Hub' & Hc);
    [apply run_ops_inv | repeat split; cbn; auto; lia |].
  cbn in Hc. split; [lia | exact Hub'].
Qed.

(** C30. Recorder, failed popen: when the recording process cannot be
    started, popen returns NULL, start leaves the recorder stopped, and
    the first readAudio throws the "recorder not started" error. *)
Theorem recorder_read_after_failed_start cmd n w :
  sys_spawn (sys_of w) cmd = None ->
  fst ((self start ;; call (fun r => readAudio r n)) (w, construct cmd)) =
  Throw (RuntimeError "can't read audio - recorder not started.").
Proof.
  intros Hs. cbv [bind self start construct mStdout mCmd].
  rewrite syscall_run, popen_fail by exact Hs. reflexivity.
Qed.

(** C14. Recorder, class invariant: after any sequence of start,
    readAudio and stop on a new Recorder, even one cut short by an
    exception, the member [mStdout] is nullptr or an open pipe that the
    object reads from, no FILE* has been used after pclose, and the
    processes running are those that ran before plus the one the
    pointer owns. *)
Theorem recorder_handle_wf cmd ops w :
  sys_ub (sys_of w) = false ->
  let '(w', r) := snd (run_ops ops (w, construct cmd)) in
  holds (mStdout r) ReadEnd (sys_of w') /\ sys_ub (sys_of w') = false /\
  open_count (sys_of w') = open_count (sys_of w) + owned (mStdout r).
Proof.
  intros Hub.
  assert (Hi : inv (open_count (sys_of w)) (snd (run_ops ops (w, construct cmd))))
    by (apply run_ops_inv; repeat split; cbn; auto; lia).
  destruct (snd (run_ops ops (w, construct cmd))) as [w' r]. exact Hi.
Qed.

End Proofs.

Lemma recorder_handle_wf_witness :
  sys_ub demo_sys = false /\
  let '(w', r) := snd (run_ops [OpStart; OpRead 2; OpStart] (demo_sys, construct "rec")) in
  holds (mStdout r) ReadEnd w' /\ sys_ub w' = false /\ open_count w' = open_count demo_sys + owned (mStdout r).
Proof.
  split; [reflexivity|].
  exact (recorder_handle_wf (W := sys) "rec" [OpStart; OpRead 2; OpStart] demo_sys eq_refl).
Defined.

Lemma recorder_scope_no_leak_witness :
  sys_ub demo_sys = false /\
  open_count (snd (scoped (construct "rec") destroy
                 (run_ops [OpStart; OpRead 2; OpStart; OpStop; OpRead 1]) demo_sys))
  = open_count demo_sys.
Proof.
  split; [reflexivity|].
  destruct (recorder_scope_no_leak (W := sys) "rec" [OpStart; OpRead 2; OpStart; OpStop; OpRead 1]
              demo_sys) as [Hc _]; [reflexivity | exact Hc].
Defined.

Lemma recorder_read_after_failed_start_witness :
  sys_spawn dead_sys "rec" = None /\
  fst ((self start ;; call (fun r => readAudio r 8192)) (dead_sys, construct "rec")) =
  Throw (RuntimeError "can't read audio - recorder not started.").
Proof.
  split; [reflexivity|]. apply (recorder_read_after_failed_start (W := sys) "rec" 8192 dead_sys).
  reflexivity.
Defined.

End Recorder.
