(* ===== verification/Player.v ===== *)
(** * The Player: an object that owns the playback process

    Module [Player] models the Player declared in src/diatheke/player.h:
    the object holds the command line [mCmd] and the FILE* [mStdin].
    Its implementation (player.cpp) is not among the sources, so the
    methods follow the header's comments and the spec's AudioWriter
    capability: the writing mirror of the Recorder, popen "w" on start,
    fwrite on writeAudio, pclose on stop and in the destructor.  The
    lemmas show that the invariant of [Sys.fd_inv] holds across every
    method, as for the Recorder. *)

From Stdlib Require Import String List Lia.
From S2P Require Import Prelude Sys.
Import ListNotations.

Module Player.

Record Player : Type := mkPlayer {
  mCmd : string;
  mStdin : FILE
}.

(** [Player::Player(playCmd)]. *)
Definition construct (playCmd : string) : Player := mkPlayer playCmd None.

Definition not_started_msg : string := "can't play audio - player not started.".

Section Methods.
Context {W : Type} `{HasSys W}.

(** [Player::start]: launch the playback application, popen "w". *)
Definition start (this : Player) : M W Player :=
  match mStdin this with
  | Some _ => ret this
  | None => f <- syscall (popen (mCmd this) WriteEnd) ;; ret (mkPlayer (mCmd this) f)
  end.

(** [Player::writeAudio]: fwrite the audio to the application. *)
Definition writeAudio (this : Player) (audio : list Byte.byte) : M W nat :=
  match mStdin this with
  | None => throw (RuntimeError not_started_msg)
  | Some h => syscall (fwrite h audio)
  end.

(** [Player::stop]: stop the external playback application.  player.cpp
    is not in the repository; the body is that of its counterpart
    [Recorder::stop] (recorder.cpp lines 47-56): ignored when nothing
    runs, else [pclose] and the handle reset, which the destructor's
    comment in player.h ("If the player has not been already been
    stopped, this will also stop the external application") relies on:
    a stop followed by the destructor closes the process once. *)
Definition stop (this : Player) : M W Player :=
  match mStdin this with
  | None => ret this
  | Some h => syscall (fun s => (tt, pclose h s)) ;; ret (mkPlayer (mCmd this) None)
  end.

(** [Player::~Player]: stops the application if it still runs. *)
Definition destroy (this : Player) (w : W) : W := snd (stop this w).

End Methods.

Section Proofs.
Context {W : Type} `{HasSysLaws W}.

Definition inv (base : nat) (p : W * Player) : Prop :=
  fd_inv base (mStdin (snd p)) WriteEnd (sys_of (fst p)).

Lemma player_start_inv base : preserves (inv base) (self start).
Proof.
  intros [w r] Hi. unfold inv in *. cbn in *. unfold start.
  destruct (mStdin r) as [h|] eqn:E; [cbn; rewrite E; exact Hi|].
  unfold bind. rewrite syscall_run. cbn. rewrite sys_of_with.
  destruct (sys_spawn (sys_of w) (mCmd r)) as [out|] eqn:Hs.
  - apply popen_spawn with (out := out); [exact Hs | exact Hi].
  - rewrite popen_fail by exact Hs. exact Hi.
Qed.

Lemma player_writeAudio_inv base b : preserves (inv base) (call (fun p => writeAudio p b)).
Proof.
  intros [w r] Hi. unfold inv in *. rewrite call_run. cbn in *. unfold writeAudio.
  destruct (mStdin r) as [h|] eqn:E; [|exact Hi].
  rewrite syscall_sys. auto with cpp.
Qed.

Lemma player_stop_inv base : preserves (inv base) (self stop).
Proof.
  intros [w r] Hi. unfold inv in *. cbn in *. unfold stop.
  destruct (mStdin r) as [h|] eqn:E; [|cbn; rewrite E; exact Hi].
  unfold bind. rewrite syscall_run. cbn. rewrite sys_of_with. auto with cpp.
Qed.

Lemma player_destroy_inv base r w :
  inv base (w, r) -> fd_inv base None WriteEnd (sys_of (destroy r w)).
Proof.
  unfold inv, destroy, stop. cbn. destruct (mStdin r) as [h|]; intros Hi; [|exact Hi].
  unfold bind. rewrite syscall_run. cbn. rewrite sys_of_with. auto with cpp.
Qed.

Lemma player_scope_inv {A} base cmd (body : M (W * Player) A) w :
  preserves (inv base) body -> fd_inv base None WriteEnd (sys_of w) ->
  fd_inv base None WriteEnd (sys_of (snd (scoped (construct cmd) destroy body w))).
Proof.
  intros Hb Hw. rewrite scoped_run. cbn [snd].
  apply player_destroy_inv. apply (Hb (w, construct cmd)). exact Hw.
Qed.

End Proofs.

End Player.
