(* ===== verification/AudioIO.v ===== *)
(** * The SDK's audio interfaces: [Diatheke::AudioReader] and [Diatheke::AudioWriter]

    The SDK helpers [ReadASRAudio] and [WriteTTSAudio] take an object of
    an abstract class of the SDK: [AudioReader], whose [readAudio] the
    [Recorder] overrides (recorder.h lines 31 and 43-48), and
    [AudioWriter], whose [writeAudio] the [Player] overrides (player.h
    lines 32 and 52-56).  The classes are outside the repository; they
    follow the spec's AudioReader/AudioWriter capability (section 9).

    [AudioReader R W] and [AudioWriter P W] are these classes, with the
    object as a value of [R] or [P] beside the world [W].  The
    [AudioReaderLaws] are what the capture loop needs of a reader to
    end: a measure of the audio it has still to deliver, read off the
    process table, that every read returning bytes decreases.  The
    instances for [Recorder] and [Player] are the derivations of the
    sources; [recorder_laws] discharges the laws with the progress of
    [fread] on a pipe. *)

From Stdlib Require Import List Lia.
From S2P Require Import Prelude Sys Recorder Player.
Import ListNotations.

(** [virtual size_t readAudio(char *buffer, size_t buffSize)]: the bytes
    read, none at the end of the audio. *)
Class AudioReader (R W : Type) := readAudio : R -> nat -> M W (list Byte.byte).

(** [virtual size_t writeAudio(const char *audio, size_t sizeInBytes)]. *)
Class AudioWriter (P W : Type) := writeAudio : P -> list Byte.byte -> M W nat.

Class AudioReaderLaws (R W : Type) `{HasSys W} `{AudioReader R W} := {
  audio_left : sys -> R -> nat;
  readAudio_progress r n w b bs w' :
    readAudio r n w = (Ok (b :: bs), w') -> audio_left (sys_of w') r < audio_left (sys_of w) r
}.

(** [class Recorder : public Diatheke::AudioReader]. *)
#[export] Instance recorder_reader {W} `{HasSys W} : AudioReader Recorder.Recorder W := Recorder.readAudio.

(** [class Player : public Diatheke::AudioWriter]. *)
#[export] Instance player_writer {W} `{HasSys W} : AudioWriter Player.Player W := Player.writeAudio.

(** The bytes the recorder's process has still to deliver. *)
Definition pipe_left (s : sys) (r : Recorder.Recorder) : nat :=
  match Recorder.mStdout r with
  | Some h => match nth_error (sys_pipes s) h with
              | Some q => length (pipe_data q)
              | None => 0
              end
  | None => 0
  end.

(** A Recorder is a reader that ends: a read that returns bytes takes
    them from the pipe. *)
#[export] Instance recorder_laws {W} `{HasSysLaws W} : AudioReaderLaws Recorder.Recorder W.
Proof.
  refine {| audio_left := pipe_left |}.
  intros r n w b bs w'. unfold readAudio, recorder_reader, Recorder.readAudio, pipe_left.
  destruct (Recorder.mStdout r) as [h|]; [|discriminate].
  rewrite syscall_run. intros Hr. injection Hr as Hb <-. rewrite sys_of_with.
  match type of Hb with fst (fread h ?m _) = _ =>
    destruct (fread_progress h m (sys_of w)) as (q & Hq & Hq' & Hlt); [rewrite Hb; discriminate|] end.
  rewrite Hq, Hq'. exact Hlt.
Defined.
