(* ===== verification/Protocol.v ===== *)
(** * The Diatheke messages and the server interface

    The dialogue clients (src/diatheke/audio_client.cpp and
    cli_client.cpp) exchange protobuf messages of the package
    [cobaltspeech::diatheke] with the server through the SDK class
    [Diatheke::Client].  This file holds the messages as the clients use
    them and the class [DiathekeServer], the interface through which the
    model reaches the server: each operation takes the server's state
    and returns its new state and the reply or the [ClientError] the SDK
    throws.

    - [SessionOutput]: the session token and the action list.
    - [ActionData]: the [action] oneof, one constructor per case the
      clients test ([has_input], [has_reply], [has_command]) and
      [ActionUnset] for a message with none of them set, which is what
      an action of a kind unknown to the client parses to.
    - [CommandResult] and [ASRResult]: what the clients send back. *)

From Stdlib Require Import String List NArith Floats.
From S2P Require Import Prelude.
Import ListNotations.

(** The session token is opaque to the clients: they only pass it back. *)
Definition TokenData := string.

(** [WaitForUserAction]: the flags that tell when to record. *)
Record WaitForUserAction : Type := mkWaitForUserAction {
  immediate : bool;
  requires_wake_word : bool
}.

(** [ReplyAction]: the text to render and the TTS model to render it. *)
Record ReplyAction : Type := mkReplyAction {
  reply_text : string;
  luna_model : string
}.

(** [CommandAction]: the command id and its input parameters, a
    protobuf map iterated in the order of the list. *)
Record CommandAction : Type := mkCommandAction {
  command_id : string;
  input_parameters : list (string * string)
}.

(** [ActionData]: the [action] oneof. *)
Inductive ActionData : Type :=
| AInput (input : WaitForUserAction)
| AReply (reply : ReplyAction)
| ACommand (command : CommandAction)
| ActionUnset.

(** [SessionOutput] ([DiathekeSession] in the clients). *)
Record SessionOutput : Type := mkSessionOutput {
  token : TokenData;
  action_list : list ActionData
}.

(** [CommandResult]: the clients set only the id. *)
Record CommandResult : Type := mkCommandResult {
  result_id : string;
  out_parameters : list (string * string);
  result_error : string
}.

(** [ASRResult]: the transcript and its confidence, a double. *)
Record ASRResult : Type := mkASRResult {
  asr_text : string;
  confidence : float
}.

(** [VersionResponse]: the versions of the server's engines. *)
Record VersionResponse : Type := mkVersionResponse {
  diatheke : string;
  chosun : string;
  cubic : string;
  luna : string
}.

(** [ModelInfo]: one entry of [listModels]. *)
Record ModelInfo : Type := mkModelInfo {
  model_id : string;
  model_name : string;
  language : string;
  asr_sample_rate : N;
  tts_sample_rate : N
}.

(** ** The server, as the SDK exposes it

    One field per [Diatheke::Client] method the clients call, and the
    two streams: an ASR stream takes audio until the server has heard
    the end of the utterance ([dk_asrSendAudio] answers [false]) and
    then yields its [ASRResult]; a TTS stream yields the audio of a
    reply in chunks. *)
Class DiathekeServer (S : Type) := {
  dk_version : S -> S * outcome VersionResponse;
  dk_listModels : S -> S * outcome (list ModelInfo);
  dk_createSession : S -> string -> S * outcome SessionOutput;
  dk_deleteSession : S -> TokenData -> S * outcome unit;
  dk_processText : S -> TokenData -> string -> S * outcome SessionOutput;
  dk_processASRResult : S -> TokenData -> ASRResult -> S * outcome SessionOutput;
  dk_processCommandResult : S -> TokenData -> CommandResult -> S * outcome SessionOutput;
  dk_newSessionASRStream : S -> TokenData -> S * outcome unit;
  dk_asrSendAudio : S -> list Byte.byte -> S * bool;
  dk_asrResult : S -> S * outcome ASRResult;
  dk_newTTSStream : S -> ReplyAction -> S * outcome (list (list Byte.byte))
}.

(** The calls a client makes, as they appear in the event log. *)
Inductive Call : Type :=
| CallVersion
| CallListModels
| CallCreateSession (model : string)
| CallDeleteSession (t : TokenData)
| CallProcessText (t : TokenData) (text : string)
| CallProcessASRResult (t : TokenData) (r : ASRResult)
| CallProcessCommandResult (t : TokenData) (r : CommandResult)
| CallNewSessionASRStream (t : TokenData)
| CallASRSendAudio (audio : list Byte.byte)
| CallASRResult
| CallNewTTSStream (r : ReplyAction).
