(* ===== verification/Dispatch.v ===== *)
(** * The contract of processActions, and the refinement lemma

    Section 4.1 of the spec states what [processActions] promises: the
    replies at the head of the action list are rendered in order, the
    first action that is not a reply decides the rest (an input request
    or a command ends the walk with the session its handler returns, an
    unset action is the "unknown action" error), and a list of replies
    only is the "no session-advancing action" error.

    [classify] computes that decision on an action list: the replies of
    the prefix and the [verdict].  [contract] is the program the spec
    describes, over any [handlers].  The class [DispatchLoop] states the
    four equations of the loop both clients write (one per branch of the
    if-chain in [processActions], and the throw after the loop);
    [loop_refines] proves that any such loop is the contract. *)

From Stdlib Require Import String List Setoid Morphisms.
From S2P Require Import Prelude Protocol.
Import ListNotations.

Inductive verdict : Type :=
| VInput (a : WaitForUserAction)
| VCommand (c : CommandAction)
| VUnknown
| VExhausted.

(** The reply prefix of an action list and the action that ends it. *)
Fixpoint classify (l : list ActionData) : list ReplyAction * verdict :=
  match l with
  | [] => ([], VExhausted)
  | AInput a :: _ => ([], VInput a)
  | AReply r :: l' => let '(rs, v) := classify l' in (r :: rs, v)
  | ACommand c :: _ => ([], VCommand c)
  | ActionUnset :: _ => ([], VUnknown)
  end.

(** What a client does with each kind of action, and its two error
    messages. *)
Record handlers (W : Type) : Type := mkHandlers {
  onInput : WaitForUserAction -> M W SessionOutput;
  onReply : ReplyAction -> M W unit;
  onCommand : CommandAction -> M W SessionOutput;
  unknownMsg : string;
  exhaustedMsg : string
}.
Arguments mkHandlers {W}.
Arguments onInput {W} h.
Arguments onReply {W} h.
Arguments onCommand {W} h.
Arguments unknownMsg {W} h.
Arguments exhaustedMsg {W} h.

Definition finish {W} (h : handlers W) (v : verdict) : M W SessionOutput :=
  match v with
  | VInput a => onInput h a
  | VCommand c => onCommand h c
  | VUnknown => throw (RuntimeError (unknownMsg h))
  | VExhausted => throw (RuntimeError (exhaustedMsg h))
  end.

(** The spec's processActions: render the replies, then finish. *)
Definition contract {W} (h : handlers W) (l : list ActionData) : M W SessionOutput :=
  let '(rs, v) := classify l in for_each (onReply h) rs ;; finish h v.

(** The loop the clients write, by its equations. *)
Class DispatchLoop {W} (h : handlers W) (loop : list ActionData -> M W SessionOutput) := {
  loop_nil : loop [] ≡ throw (RuntimeError (exhaustedMsg h));
  loop_input : forall a l, loop (AInput a :: l) ≡ onInput h a;
  loop_reply : forall r l, loop (AReply r :: l) ≡ (onReply h r ;; loop l);
  loop_command : forall c l, loop (ACommand c :: l) ≡ onCommand h c;
  loop_unset : forall l, loop (ActionUnset :: l) ≡ throw (RuntimeError (unknownMsg h))
}.

(** ** Facts of the contract *)

Lemma classify_replies_then rs rest :
  classify (map AReply rs ++ rest) = let '(rs', v) := classify rest in (rs ++ rs', v).
Proof.
  induction rs as [|r rs IH]; cbn [map app].
  - destruct (classify rest); reflexivity.
  - cbn [classify]. rewrite IH. destruct (classify rest); reflexivity.
Qed.

Section Refinement.
Context {W : Type} (h : handlers W) (loop : list ActionData -> M W SessionOutput).
Context `{DispatchLoop W h loop}.

(** Any loop with the clients' equations is the spec's contract. *)
Lemma loop_refines l : loop l ≡ contract h l.
Proof.
  induction l as [|[a|r|c|] l IH]; unfold contract; cbn [classify].
  - rewrite loop_nil. intros w; reflexivity.
  - rewrite loop_input. intros w; reflexivity.
  - rewrite loop_reply. unfold contract in IH. destruct (classify l) as [rs v].
    cbn [for_each]. rewrite bind_assoc. apply bind_proper; [reflexivity | intros []; exact IH].
  - rewrite loop_command. intros w; reflexivity.
  - rewrite loop_unset. intros w; reflexivity.
Qed.

(** A reply prefix is rendered in order, then the walk goes on. *)
Lemma loop_replies_then rs rest :
  loop (map AReply rs ++ rest) ≡ (for_each (onReply h) rs ;; loop rest).
Proof.
  induction rs as [|r rs IH]; cbn [map app for_each].
  - intros w; reflexivity.
  - rewrite loop_reply, bind_assoc. apply bind_proper; [reflexivity | intros []; exact IH].
Qed.

End Refinement.
