(* ===== verification/Client.v ===== *)
(** * The world of a dialogue client and the SDK calls it makes

    A dialogue client runs against a world of four parts: the server
    (any instance of [DiathekeServer]), the process table of [Sys], the
    lines standard input will deliver, and the log of what the client
    did that an observer sees: console output and calls to the server.

    The SDK calls are written once: [rpc] logs the call and applies the
    server's operation; a [ClientError] from the server is thrown as the
    SDK throws it.  The two SDK helpers the audio client calls,
    [Diatheke::ReadASRAudio] and [Diatheke::WriteTTSAudio], are outside
    the repository; they are modelled from the spec's capture protocol
    (section 4.1, steps 3 and 4) and its AudioReader/AudioWriter
    capabilities: read a buffer from the reader and send it until the
    reader has no more audio or the server has heard the end of the
    utterance, then take the result; write each chunk of the reply's
    audio to the writer.  They are written once for any instance of
    [AudioIO.AudioReader] and [AudioIO.AudioWriter], and the audio client
    calls them with its Recorder and Player.

    [ReadASRAudio] runs with fuel one more than the audio the reader has
    left ([audio_left] of [AudioReaderLaws]); [sendAudio_fuel] shows,
    against the laws alone, that more fuel gives the same run.  The
    Recorder's reader obeys the laws because its pipe holds finitely
    many bytes: a live recorder ends only when the server stops the
    utterance or the process ends, which the model does not bound.
    The lemmas on the process table are proved once for any reader
    ([sendAudio_preserves]) and instantiated with the Recorder's invariant. *)

From Stdlib Require Import String Ascii List Lia NArith Floats.
From S2P Require Import Prelude Sys Recorder Player AudioIO Protocol.
Import ListNotations.

(** What [std::cout << a << b] prints: strings, and numbers as items of
    their own (their decimal formatting is not modelled). *)
Inductive out_item : Type :=
| OStr (s : string)
| ONum (n : N)
| ODouble (f : float).

(** The newline character. *)
Definition nl : string := String (ascii_of_nat 10) EmptyString.

(** [std::endl]. *)
Definition endl : out_item := OStr nl.

Inductive Event : Type :=
| EvOut (items : list out_item)
| EvCall (c : Call).

Record World (S : Type) : Type := mkWorld {
  w_srv : S;
  w_sys : sys;
  w_stdin : list string;
  w_log : list Event
}.
Arguments mkWorld {S}.
Arguments w_srv {S}.
Arguments w_sys {S}.
Arguments w_stdin {S}.
Arguments w_log {S}.

#[export] Instance world_has_sys {S} : HasSys (World S) := {
  sys_of := w_sys;
  with_sys := fun s w => mkWorld (w_srv w) s (w_stdin w) (w_log w)
}.

#[export] Instance world_has_sys_laws {S} : HasSysLaws (World S).
Proof. split; intros; cbn; try destruct w; reflexivity. Qed.

Section Calls.
Context {Srv : Type} `{DiathekeServer Srv}.

Definition emit (e : Event) : M (World Srv) unit :=
  modify (fun w => mkWorld (w_srv w) (w_sys w) (w_stdin w) (w_log w ++ [e])).

(** One statement [std::cout << ... ;]. *)
Definition cout (items : list out_item) : M (World Srv) unit := emit (EvOut items).

(** [std::getline(std::cin, text)]: the next line; at the end of the
    input getline fails and leaves the fresh string empty. *)
Definition getline : M (World Srv) string :=
  fun w => match w_stdin w with
           | [] => (Ok EmptyString, w)
           | l :: rest => (Ok l, mkWorld (w_srv w) (w_sys w) rest (w_log w))
           end.

(** A call to the server through the SDK, logged. *)
Definition rpc {A} (c : Call) (f : Srv -> Srv * outcome A) : M (World Srv) A :=
  fun w => let '(s', o) := f (w_srv w) in
           (o, mkWorld s' (w_sys w) (w_stdin w) (w_log w ++ [EvCall c])).

Definition client_version : M (World Srv) VersionResponse :=
  rpc CallVersion dk_version.
Definition client_listModels : M (World Srv) (list ModelInfo) :=
  rpc CallListModels dk_listModels.
Definition client_createSession (model : string) : M (World Srv) SessionOutput :=
  rpc (CallCreateSession model) (fun s => dk_createSession s model).
Definition client_deleteSession (t : TokenData) : M (World Srv) unit :=
  rpc (CallDeleteSession t) (fun s => dk_deleteSession s t).
Definition client_processText (t : TokenData) (text : string) : M (World Srv) SessionOutput :=
  rpc (CallProcessText t text) (fun s => dk_processText s t text).
Definition client_processASRResult (t : TokenData) (r : ASRResult) : M (World Srv) SessionOutput :=
  rpc (CallProcessASRResult t r) (fun s => dk_processASRResult s t r).
Definition client_processCommandResult (t : TokenData) (r : CommandResult) : M (World Srv) SessionOutput :=
  rpc (CallProcessCommandResult t r) (fun s => dk_processCommandResult s t r).
Definition client_newSessionASRStream (t : TokenData) : M (World Srv) unit :=
  rpc (CallNewSessionASRStream t) (fun s => dk_newSessionASRStream s t).
Definition client_asrSendAudio (audio : list Byte.byte) : M (World Srv) bool :=
  rpc (CallASRSendAudio audio) (fun s => let '(s', b) := dk_asrSendAudio s audio in (s', Ok b)).
Definition client_asrResult : M (World Srv) ASRResult :=
  rpc CallASRResult dk_asrResult.
Definition client_newTTSStream (r : ReplyAction) : M (World Srv) (list (list Byte.byte)) :=
  rpc (CallNewTTSStream r) (fun s => dk_newTTSStream s r).

(** ** The SDK audio loops *)

(** Read a buffer from the reader and send it, until the reader has
    nothing more or the stream's [sendAudio] says the server has heard
    enough; with fuel. *)
Fixpoint sendAudio {R} `{AudioReader R (World Srv)} (fuel buffSize : nat) : M (World Srv * R) unit :=
  match fuel with
  | 0 => ret tt
  | S fuel' =>
      audio <- call (fun r => readAudio r buffSize) ;;
      match audio with
      | [] => ret tt
      | _ :: _ =>
          more <- lift (client_asrSendAudio audio) ;;
          if more then sendAudio fuel' buffSize else ret tt
      end
  end.

(** [Diatheke::ReadASRAudio(stream, reader, buffSize)], for any reader
    that ends: the fuel is one more than the audio it has left. *)
Definition ReadASRAudio {R} `{AudioReader R (World Srv)} `{!AudioReaderLaws R (World Srv)} (buffSize : nat)
    : M (World Srv * R) ASRResult :=
  fun p => (sendAudio (S (audio_left (w_sys (fst p)) (snd p))) buffSize ;; lift client_asrResult) p.

(** [Diatheke::WriteTTSAudio(stream, writer)]. *)
Definition WriteTTSAudio {P} `{AudioWriter P (World Srv)} (stream : list (list Byte.byte)) : M (World Srv * P) unit :=
  for_each (fun chunk => call (fun p => writeAudio p chunk) ;; ret tt) stream.

End Calls.

Section Fuel.
Context {Srv : Type} `{DiathekeServer Srv}.

(** A program that leaves the process table alone. *)
Definition sys_frame {A} (m : M (World Srv) A) : Prop := forall w, w_sys (snd (m w)) = w_sys w.

Lemma rpc_sys {A} c (f : Srv -> Srv * outcome A) w : w_sys (snd (rpc c f w)) = w_sys w.
Proof. unfold rpc. destruct (f (w_srv w)); reflexivity. Qed.

Lemma rpc_frame {A} c (f : Srv -> Srv * outcome A) : sys_frame (rpc c f).
Proof. intros w. apply rpc_sys. Qed.

Lemma cout_frame items : sys_frame (cout items).
Proof. intros w. reflexivity. Qed.

Lemma frame_bind {A B} (m : M (World Srv) A) (k : A -> M (World Srv) B) :
  sys_frame m -> (forall a, sys_frame (k a)) -> sys_frame (bind m k).
Proof.
  intros Hm Hk w. unfold bind. specialize (Hm w).
  destruct (m w) as [[a|e] w']; cbn in *; [rewrite Hk|]; exact Hm.
Qed.

Lemma frame_for_each {A} (f : A -> M (World Srv) unit) l :
  (forall x, sys_frame (f x)) -> sys_frame (for_each f l).
Proof.
  intros Hf. induction l as [|x l IH]; cbn; [intros w; reflexivity | apply frame_bind; auto].
Qed.

(** Such a program, lifted beside a local object, keeps the object's
    invariant: it depends on the process table only. *)
Lemma frame_lift_preserves {L A} (P : sys -> L -> Prop) (m : M (World Srv) A) :
  sys_frame m -> preserves (fun p : World Srv * L => P (w_sys (fst p)) (snd p)) (lift m).
Proof. intros Hm [w l] Hp. rewrite lift_run. cbn. rewrite Hm. exact Hp. Qed.

Lemma frame_preserves {A} (P : sys -> Prop) (m : M (World Srv) A) :
  sys_frame m -> preserves (fun w => P (w_sys w)) m.
Proof. intros Hm w Hp. rewrite Hm. exact Hp. Qed.

Section Reader.
Context {R : Type} `{AudioReader R (World Srv)}.

(** [sendAudio] keeps any property of the process table and the reader
    that every read keeps, whatever the server answers. *)
Lemma sendAudio_preserves (P : sys -> R -> Prop) fuel n :
  preserves (fun p : World Srv * R => P (w_sys (fst p)) (snd p)) (call (fun r => readAudio r n)) ->
  preserves (fun p : World Srv * R => P (w_sys (fst p)) (snd p)) (sendAudio fuel n).
Proof.
  intros Hr. induction fuel as [|fuel IH]; cbn [sendAudio]; [apply preserves_ret|].
  apply preserves_bind; [exact Hr|]. intros [|b bs]; [apply preserves_ret|].
  apply preserves_bind; [|intros []; [exact IH | apply preserves_ret]].
  apply frame_lift_preserves, rpc_frame.
Qed.

Context `{!AudioReaderLaws R (World Srv)}.

(** One more than the audio left is enough fuel for [sendAudio]: any
    larger fuel gives the same run. *)
Lemma sendAudio_fuel n : forall f1 f2 (p : World Srv * R),
  audio_left (w_sys (fst p)) (snd p) < f1 -> audio_left (w_sys (fst p)) (snd p) < f2 ->
  sendAudio f1 n p = sendAudio f2 n p.
Proof.
  induction f1 as [|f1 IH]; intros [|f2] [w r] H1 H2; try lia.
  cbn [sendAudio]. unfold bind. rewrite !call_run.
  destruct (readAudio r n w) as [[[|b bs]|e] w'] eqn:Er; cbn [fst snd]; [reflexivity| |reflexivity].
  pose proof (readAudio_progress r n w b bs w' Er) as Hlt. cbn [sys_of world_has_sys] in Hlt.
  rewrite !lift_run. unfold client_asrSendAudio.
  destruct (fst (rpc _ _ w')) as [[|]|e]; [|reflexivity|reflexivity].
  apply IH; cbn [fst snd] in *; rewrite rpc_sys; lia.
Qed.

Lemma ReadASRAudio_preserves (P : sys -> R -> Prop) n :
  preserves (fun p : World Srv * R => P (w_sys (fst p)) (snd p)) (call (fun r => readAudio r n)) ->
  preserves (fun p : World Srv * R => P (w_sys (fst p)) (snd p)) (ReadASRAudio n).
Proof.
  intros Hr p Hp. unfold ReadASRAudio.
  apply (preserves_bind _ _ _ (sendAudio_preserves P _ n Hr)); [|exact Hp].
  intros a. apply frame_lift_preserves, rpc_frame.
Qed.

End Reader.

(** The Recorder keeps its invariant through the capture loop. *)
Lemma ReadASRAudio_inv base n : preserves (Recorder.inv base) (ReadASRAudio (R := Recorder.Recorder) n).
Proof.
  apply (ReadASRAudio_preserves (fun s r => fd_inv base (Recorder.mStdout r) ReadEnd s)).
  exact (Recorder.readAudio_inv (W := World Srv) base n).
Qed.

Lemma lift_frame_rec base {A} (m : M (World Srv) A) :
  sys_frame m -> preserves (Recorder.inv base) (lift m).
Proof. apply (frame_lift_preserves (fun s r => fd_inv base (Recorder.mStdout r) ReadEnd s)). Qed.

Lemma lift_frame_player base {A} (m : M (World Srv) A) :
  sys_frame m -> preserves (Player.inv base) (lift m).
Proof. apply (frame_lift_preserves (fun s r => fd_inv base (Player.mStdin r) WriteEnd s)). Qed.

Lemma WriteTTSAudio_inv base stream : preserves (Player.inv base) (WriteTTSAudio (Srv := Srv) stream).
Proof.
  apply preserves_for_each. intros chunk.
  apply preserves_bind; [apply Player.player_writeAudio_inv | intros; apply preserves_ret].
Qed.


End Fuel.

#[export] Hint Resolve rpc_frame cout_frame frame_bind frame_for_each : cpp.
#[export] Hint Extern 1 (sys_frame _) =>
  unfold client_version, client_listModels, client_createSession, client_deleteSession, client_processText,
    client_processASRResult, client_processCommandResult, client_newSessionASRStream,
    client_asrSendAudio, client_asrResult, client_newTTSStream; apply rpc_frame : cpp.
