(* ===== verification/Mock.v ===== *)
(** * A scripted Diatheke server

    The spec (section 9) asks that the dispatcher be exercised against a
    test double of the client capability.  [Mock] is such a double, an
    instance of [DiathekeServer]: it hands out the sessions of its
    script in order (createSession, processText, processASRResult and
    processCommandResult each take the next one, and throw a
    [ClientError] once the script is exhausted), accepts a fixed number
    of audio chunks per utterance before it has the [ASRResult], and
    synthesises every reply as the same audio chunks.  The witnesses and
    the scenarios of section 8 run the clients against it. *)

From Stdlib Require Import String List Lia NArith Floats.
From S2P Require Import Prelude Sys Recorder AudioIO Protocol Client.
Import ListNotations.
Local Open Scope string_scope.

Record Mock : Type := mkMock {
  mock_sessions : list SessionOutput;
  mock_chunks : nat;
  mock_result : ASRResult;
  mock_tts : list (list Byte.byte)
}.

Definition mock_next (m : Mock) : Mock * outcome SessionOutput :=
  match mock_sessions m with
  | [] => (m, Throw (ClientError "session script exhausted"))
  | s :: rest => (mkMock rest (mock_chunks m) (mock_result m) (mock_tts m), Ok s)
  end.

(** The stream asks for more audio until the last expected chunk. *)
Definition mock_send (m : Mock) : Mock * bool :=
  let k := pred (mock_chunks m) in
  (mkMock (mock_sessions m) k (mock_result m) (mock_tts m), negb (Nat.eqb k 0)).

(** The version and the model list of the server. *)
Definition mock_version : VersionResponse := mkVersionResponse "2.0" "1.1" "3.0" "1.0".
Definition mock_models : list ModelInfo := [mkModelInfo "1" "English" "en_US" 16000 48000].

#[export] Instance mock_server : DiathekeServer Mock := {
  dk_version := fun m => (m, Ok mock_version);
  dk_listModels := fun m => (m, Ok mock_models);
  dk_createSession := fun m _ => mock_next m;
  dk_deleteSession := fun m _ => (m, Ok tt);
  dk_processText := fun m _ _ => mock_next m;
  dk_processASRResult := fun m _ _ => mock_next m;
  dk_processCommandResult := fun m _ _ => mock_next m;
  dk_newSessionASRStream := fun m _ => (m, Ok tt);
  dk_asrSendAudio := fun m _ => mock_send m;
  dk_asrResult := fun m => (m, Ok (mock_result m));
  dk_newTTSStream := fun m _ => (m, Ok (mock_tts m))
}.

(** A microphone that says four bytes, and a speaker that works. *)
Definition mic_sys : sys :=
  mkSys [] (fun _ => Some [Byte.x10; Byte.x20; Byte.x30; Byte.x40]) false.

Definition mock_world (m : Mock) (stdin : list string) : World Mock :=
  mkWorld m mic_sys stdin [].

(** The messages of the spec's scenarios. *)
Definition lights_result : ASRResult := mkASRResult "turn on lights" 0.92%float.
Definition session_s2 : SessionOutput := mkSessionOutput "s2" [].
Definition session_s3 : SessionOutput := mkSessionOutput "s3" [].
Definition hello : ReplyAction := mkReplyAction "Hello" "1".
Definition answer_now : WaitForUserAction := mkWaitForUserAction true false.
Definition lights_on : CommandAction := mkCommandAction "lights_on" [].

(** The calls of a log, without the console output. *)
Definition calls_of (log : list Event) : list Call :=
  flat_map (fun e => match e with EvCall c => [c] | EvOut _ => [] end) log.

(** The sessions of the witnesses and scenarios. *)
Definition s1_input : SessionOutput := mkSessionOutput "s1" [AReply hello; AInput answer_now].
Definition s1_command : SessionOutput := mkSessionOutput "s1" [ACommand lights_on].
Definition s1_replies : SessionOutput := mkSessionOutput "s1" [AReply hello; AReply hello].
Definition s1_unknown : SessionOutput :=
  mkSessionOutput "s1" [AReply hello; ActionUnset; AInput answer_now].

(** The server of the first scenario answers the utterance with
    [session_s2], the one of the second answers the command with
    [session_s3]. *)
Definition scenario_mock : Mock := mkMock [session_s2] 1 lights_result [[Byte.x01]].
Definition command_mock : Mock := mkMock [session_s3] 1 lights_result [].

(** A machine on which no process can be started. *)
Definition dead_sys : sys := mkSys [] (fun _ => None) false.
