(* ===== verification/AudioClient.v ===== *)
(** * The audio dialogue client: src/diatheke/audio_client.cpp

    Module [AudioClient] translates the four functions of the file that
    run a dialogue turn:
    - [waitForInput] (lines 54-98): opens the session's ASR stream,
      records with a local [Recorder] until the SDK returns an
      [ASRResult], stops the recorder, prints the result and sends it
      with processASRResult.  The Recorder is a C++ local: its
      destructor runs on every exit, which [scoped] expresses.  The two
      [if] blocks on the action's flags have empty bodies in the source
      and are therefore absent from the model.
    - [handleReply] (lines 101-115): prints the reply, opens a TTS
      stream and plays it with a local [Player].
    - [handleCommand] (lines 121-138): prints the command and its
      parameters and sends a [CommandResult] carrying the command id.
    - [processActions] (lines 144-164): the walk over the action list.

    The theorems: [processActions] implements the dispatch contract of
    [Dispatch] on every action list (refinement), and each branch of
    the contract is spelled out (functional and error behaviour); the
    recorder and the player never outlive their block (no leaked
    process, on the normal and the exceptional path); a recording
    process that cannot start ends the turn with the Recorder's error
    before anything is sent; the action's flags change nothing. *)

From Stdlib Require Import String List Lia Floats.
From S2P Require Import Prelude Sys Recorder Player AudioIO Protocol Dispatch Client Mock.
Import ListNotations.

Module AudioClient.

(** The external processes of lines 45 and 48. *)
Definition recordCmd : string := "sox -q -d -c 1 -r 16000 -b 16 -L -e signed -t raw -".
Definition playCmd : string := "sox -q -c 1 -r 48000 -b 16 -L -e signed -t raw - -d".

Definition unknownMsg : string := "received unknown action type".
Definition exhaustedMsg : string := "ran all actions without receiving an updated session".

Section Client.
Context {Srv : Type} `{DiathekeServer Srv}.

Definition waitForInput (session : SessionOutput) (inputAction : WaitForUserAction)
  : M (World Srv) SessionOutput :=
  client_newSessionASRStream (token session) ;;
  scoped (Recorder.construct recordCmd) Recorder.destroy
    (self Recorder.start ;;
     lift (cout [OStr (String.append nl "Recording..."); endl]) ;;
     result <- ReadASRAudio 8192 ;;
     self Recorder.stop ;;
     lift (cout [OStr (String.append nl "  ASRResult:"); endl]) ;;
     lift (cout [OStr "    Text: "; OStr (asr_text result); endl]) ;;
     lift (cout [OStr "    Confidence: "; ODouble (confidence result); endl]) ;;
     lift (client_processASRResult (token session) result)).

(** Lines 101-115.  The TTS stream of [client->newTTSStream(reply)] is
    modelled by the chunks it will deliver, which the server gives when
    the stream is created: an error of the server during synthesis is
    an error of that call, raised before the Player is constructed,
    not while [WriteTTSAudio] runs. *)
Definition handleReply (reply : ReplyAction) : M (World Srv) unit :=
  cout [OStr (String.append nl "  Reply:"); endl] ;;
  cout [OStr "    Text: "; OStr (reply_text reply); endl] ;;
  cout [OStr "    Luna Model: "; OStr (luna_model reply); endl] ;;
  stream <- client_newTTSStream reply ;;
  scoped (Player.construct playCmd) Player.destroy
    (self Player.start ;;
     WriteTTSAudio stream ;;
     self Player.stop).

(** One line of the parameter listing. *)
Definition printParam (param : string * string) : M (World Srv) unit :=
  cout [OStr "      "; OStr (fst param); OStr " = "; OStr (snd param); endl].

Definition handleCommand (session : SessionOutput) (cmd : CommandAction)
  : M (World Srv) SessionOutput :=
  cout [endl] ;;
  cout [OStr "  Command:"; endl] ;;
  cout [OStr "    ID:"; OStr (command_id cmd); endl] ;;
  cout [OStr "    Input params:"; endl] ;;
  for_each printParam (input_parameters cmd) ;;
  client_processCommandResult (token session) (mkCommandResult (command_id cmd) [] EmptyString).

(** The range-for over [session.action_list()], from a given action on. *)
Fixpoint processActions_from (session : SessionOutput) (actions : list ActionData)
  : M (World Srv) SessionOutput :=
  match actions with
  | [] => throw (RuntimeError exhaustedMsg)
  | action :: rest =>
      match action with
      | AInput input => waitForInput session input
      | AReply reply => handleReply reply ;; processActions_from session rest
      | ACommand command => handleCommand session command
      | ActionUnset => throw (RuntimeError unknownMsg)
      end
  end.

Definition processActions (session : SessionOutput) : M (World Srv) SessionOutput :=
  processActions_from session (action_list session).

(** The handlers this client gives the dispatch contract. *)
Definition handlers (session : SessionOutput) : Dispatch.handlers (World Srv) :=
  mkHandlers (waitForInput session) handleReply (handleCommand session) unknownMsg exhaustedMsg.

(** The process table of the world is where it was, counted from
    [base], with no undefined behaviour. *)
Definition settled (base : nat) (w : World Srv) : Prop := fd_inv base None ReadEnd (w_sys w).

End Client.

Section Proofs.
Context {Srv : Type} `{DiathekeServer Srv}.

(** The walk of the source has the four equations of a dispatch loop. *)
Lemma processActions_dispatch_loop (session : SessionOutput) :
  DispatchLoop (handlers session) (processActions_from (Srv := Srv) session).
Proof. split; intros; intros w; reflexivity. Qed.

(** C1. Refinement: on every session, [processActions] of the audio
    client is the spec's dispatch contract: it renders the replies that
    head the action list, in order, then runs exactly one handler for
    the first input request or command, or throws the "unknown action"
    or "no updated session" error. *)
Theorem audio_processActions_refines (session : SessionOutput) :
  processActions session ≡ contract (handlers session) (action_list session).
Proof.
  unfold processActions.
  assert (L : DispatchLoop (handlers session) (processActions_from session))
    by (split; intros; intros w; reflexivity).
  exact (@loop_refines _ _ _ L _).
Qed.

(** Replies only, or an empty list: the replies are played, then
    the walk fails with "ran all actions without receiving an updated
    session". *)
Theorem audio_processActions_replies_only (session : SessionOutput) rs :
  action_list session = map AReply rs ->
  processActions session ≡
  (for_each handleReply rs ;;
   throw (RuntimeError "ran all actions without receiving an updated session")).
Proof.
  intros Hl. unfold processActions. rewrite Hl, <- (app_nil_r (map AReply rs)).
  rewrite (@loop_replies_then _ _ _ (processActions_dispatch_loop session)).
  apply bind_proper; [reflexivity | intros []; apply (@loop_nil _ _ _ (processActions_dispatch_loop session))].
Qed.

(** An action with no case of the oneof set, after replies: the
    replies are played and the walk fails with "received unknown action
    type" before any later action is processed. *)
Theorem audio_processActions_unknown (session : SessionOutput) rs rest :
  action_list session = map AReply rs ++ ActionUnset :: rest ->
  processActions session ≡
  (for_each handleReply rs ;; throw (RuntimeError "received unknown action type")).
Proof.
  intros Hl. unfold processActions. rewrite Hl, (@loop_replies_then _ _ _ (processActions_dispatch_loop session)).
  apply bind_proper; [reflexivity | intros []; apply (@loop_unset _ _ _ (processActions_dispatch_loop session))].
Qed.

Lemma settled_mode base (w : World Srv) : settled base w <-> fd_inv base None WriteEnd (w_sys w).
Proof. reflexivity. Qed.

Lemma waitForInput_settled base session a : preserves (settled base) (waitForInput session a).
Proof.
  unfold waitForInput. apply preserves_bind; [apply frame_preserves, rpc_frame | intros _].
  intros w Hw. match goal with |- context [scoped _ _ ?b w] =>
    refine (Recorder.scope_inv (W := World Srv) base recordCmd b w _ Hw) end.
  chain_preserves ltac:(first [ apply Recorder.start_inv | apply Recorder.stop_inv
                              | apply ReadASRAudio_inv | apply lift_frame_rec; auto with cpp ]).
Qed.

Lemma handleReply_settled base reply : preserves (settled base) (handleReply reply).
Proof.
  unfold handleReply.
  repeat (apply preserves_bind; [apply frame_preserves; auto with cpp | intros ?]).
  intros w Hw. match goal with |- context [scoped _ _ ?b w] =>
    refine (Player.player_scope_inv (W := World Srv) base playCmd b w _ Hw) end.
  chain_preserves ltac:(first [ apply Player.player_start_inv | apply Player.player_stop_inv
                              | apply WriteTTSAudio_inv ]).
Qed.

Lemma settled_start (w : World Srv) : sys_ub (w_sys w) = false -> settled (open_count (w_sys w)) w.
Proof. intros Hub. repeat split; cbn; auto; lia. Qed.

Lemma settled_end base (w : World Srv) : settled base w -> open_count (w_sys w) = base /\ sys_ub (w_sys w) = false.
Proof. intros (_ & Hub & Hc). cbn in Hc. split; [lia | exact Hub]. Qed.

(** C9. No leaked recorder: whatever the server and the recording
    process do during an input turn (the ASR stream fails to open, the
    recording cannot start, the result is rejected, or all goes well),
    when waitForInput returns or throws the recording process has been
    closed exactly once and no other process was started or closed. *)
Theorem audio_waitForInput_no_leak (session : SessionOutput) a (w : World Srv) :
  sys_ub (w_sys w) = false ->
  open_count (w_sys (snd (waitForInput session a w))) = open_count (w_sys w) /\
  sys_ub (w_sys (snd (waitForInput session a w))) = false.
Proof. intros Hub. apply settled_end, waitForInput_settled, settled_start, Hub. Qed.

(** C10. No leaked player: a reply turn leaves no playback process
    running, whether the TTS stream, the playback process or a write
    fails, or the reply is played to the end. *)
Theorem audio_handleReply_no_leak (reply : ReplyAction) (w : World Srv) :
  sys_ub (w_sys w) = false ->
  open_count (w_sys (snd (handleReply reply w))) = open_count (w_sys w) /\
  sys_ub (w_sys (snd (handleReply reply w))) = false.
Proof. intros Hub. apply settled_end, handleReply_settled, settled_start, Hub. Qed.

(** C31. Recording process that cannot start: popen returns NULL, so
    the Recorder stays stopped and the SDK's first readAudio throws the
    Recorder's "not started" error.  The turn ends there: the only call
    made is opening the ASR stream, the only output is "Recording...",
    and no result reaches the server. *)
Theorem audio_waitForInput_record_fails (session : SessionOutput) a (w : World Srv) srv' :
  sys_spawn (w_sys w) recordCmd = None ->
  dk_newSessionASRStream (w_srv w) (token session) = (srv', Ok tt) ->
  waitForInput session a w =
  (Throw (RuntimeError "can't read audio - recorder not started."),
   mkWorld srv' (w_sys w) (w_stdin w)
     (w_log w ++ [EvCall (CallNewSessionASRStream (token session))]
              ++ [EvOut [OStr (String.append nl "Recording..."); endl]])).
Proof.
  intros Hs Hn. unfold waitForInput, bind at 1, client_newSessionASRStream, rpc.
  rewrite Hn. cbv [scoped bind self lift call Recorder.start Recorder.construct
                   Recorder.mStdout Recorder.mCmd].
  rewrite syscall_run. cbn [sys_of world_has_sys w_sys]. rewrite popen_fail by exact Hs.
  cbv [fst snd with_sys world_has_sys cout emit modify w_srv w_sys w_stdin w_log
       ReadASRAudio sendAudio audio_left recorder_laws pipe_left readAudio recorder_reader bind call
       Recorder.readAudio Recorder.mStdout
       Recorder.destroy Recorder.stop ret throw].
  rewrite app_assoc. reflexivity.
Qed.

(** The flags of an input request change nothing: waitForInput
    behaves the same for every value of [immediate] and
    [requires_wake_word]; in particular recording starts at once even
    when a wake word is required. *)
Theorem audio_waitForInput_flags_ignored (session : SessionOutput) a1 a2 :
  waitForInput (Srv := Srv) session a1 = waitForInput session a2.
Proof. reflexivity. Qed.

End Proofs.

(** ** The scenarios of the spec, section 8, against the scripted server *)

(** Spec scenario 1: the actions [Reply "Hello"; InputRequest
    (immediate, no wake word)] of session "s1"%string, with a server that
    recognises "turn on lights" at confidence 0.92 and answers with
    session "s2": the reply is synthesised, the ASR stream of "s1"%string is
    opened, the recorded audio is sent, the result is submitted for
    "s1"%string, the call returns session "s2", and both the recording and the
    playback processes are closed. *)
Theorem audio_spec_scenario_input :
  let '(r, w) := processActions s1_input (mock_world scenario_mock []) in
  r = Ok session_s2 /\
  calls_of (w_log w) =
    [CallNewTTSStream hello; CallNewSessionASRStream "s1"%string;
     CallASRSendAudio [Byte.x10; Byte.x20; Byte.x30; Byte.x40]; CallASRResult;
     CallProcessASRResult "s1"%string lights_result] /\
  open_count (w_sys w) = 0.
Proof. vm_compute. repeat constructor. Qed.

(** Spec scenario 2: the single action [Command "lights_on"] of
    session "s1"%string, with a server that answers with session "s3": the
    only call is processCommandResult for "s1"%string with a result whose id is
    "lights_on", and the call returns session "s3". *)
Theorem audio_spec_scenario_command :
  let '(r, w) := processActions s1_command (mock_world command_mock []) in
  r = Ok session_s3 /\
  calls_of (w_log w) = [CallProcessCommandResult "s1"%string (mkCommandResult "lights_on" [] EmptyString)].
Proof. vm_compute. repeat constructor. Qed.

(** ** Witnesses *)

Lemma audio_processActions_replies_only_witness :
  action_list s1_replies = map AReply [hello; hello] /\
  processActions (Srv := Mock) s1_replies ≡
  (for_each handleReply [hello; hello] ;;
   throw (RuntimeError "ran all actions without receiving an updated session")).
Proof. split; [reflexivity | apply (audio_processActions_replies_only s1_replies [hello; hello]); reflexivity]. Defined.

Lemma audio_processActions_unknown_witness :
  action_list s1_unknown = map AReply [hello] ++ ActionUnset :: [AInput answer_now] /\
  processActions (Srv := Mock) s1_unknown ≡
  (for_each handleReply [hello] ;; throw (RuntimeError "received unknown action type")).
Proof.
  split; [reflexivity|].
  apply (audio_processActions_unknown s1_unknown [hello] [AInput answer_now]); reflexivity.
Defined.

Lemma audio_waitForInput_no_leak_witness :
  sys_ub (w_sys (mock_world scenario_mock [])) = false /\
  open_count (w_sys (snd (waitForInput s1_input answer_now (mock_world scenario_mock [])))) =
  open_count (w_sys (mock_world scenario_mock [])).
Proof.
  split; [reflexivity|].
  apply (proj1 (audio_waitForInput_no_leak s1_input answer_now (mock_world scenario_mock []) eq_refl)).
Defined.

Lemma audio_handleReply_no_leak_witness :
  sys_ub (w_sys (mock_world scenario_mock [])) = false /\
  open_count (w_sys (snd (handleReply hello (mock_world scenario_mock [])))) =
  open_count (w_sys (mock_world scenario_mock [])).
Proof.
  split; [reflexivity|].
  apply (proj1 (audio_handleReply_no_leak hello (mock_world scenario_mock []) eq_refl)).
Defined.

Lemma audio_waitForInput_record_fails_witness :
  sys_spawn dead_sys recordCmd = None /\
  dk_newSessionASRStream scenario_mock "s1"%string = (scenario_mock, Ok tt) /\
  waitForInput s1_input answer_now (mkWorld scenario_mock dead_sys [] []) =
  (Throw (RuntimeError "can't read audio - recorder not started."),
   mkWorld scenario_mock dead_sys []
     ([] ++ [EvCall (CallNewSessionASRStream "s1"%string)]
         ++ [EvOut [OStr (String.append nl "Recording..."); endl]])).
Proof.
  split; [reflexivity|]. split; [reflexivity|].
  apply (audio_waitForInput_record_fails s1_input answer_now (mkWorld scenario_mock dead_sys [] []));
    reflexivity.
Defined.

End AudioClient.
