(* ===== verification/CliClient.v ===== *)
(** * The text dialogue client: src/diatheke/cli_client.cpp

    Module [CliClient] translates the functions of the file that run a
    dialogue turn:
    - [waitForInput] (lines 45-54): prints the prompt, reads a line
      from standard input and sends it with processText;
    - [handleReply] (lines 57-59): prints the reply's text;
    - [handleCommand] (lines 65-82): prints the command and its
      parameters and sends a [CommandResult] carrying the command id;
    - [processActions] (lines 88-107): the same walk as the audio
      client's, with its own error message for an exhausted list.

    The theorems: [processActions] implements the dispatch contract
    (refinement); a turn never starts or stops a process; the line read
    is what is sent; and at the end of standard input getline fails
    silently, so the client sends an empty text to the server. *)

From Stdlib Require Import String List Lia.
From S2P Require Import Prelude Sys Protocol Dispatch Client Mock.
Import ListNotations.

Module CliClient.

Definition unknownMsg : string := "received unknown action type".
Definition exhaustedMsg : string := "action list ended without session update".

(** The prompt of line 47: [std::endl], then a blank line and
    "Diatheke> ". *)
Definition prompt : list out_item := [endl; OStr (String.append nl "Diatheke> ")].

Section Client.
Context {Srv : Type} `{DiathekeServer Srv}.

Definition waitForInput (session : SessionOutput) : M (World Srv) SessionOutput :=
  cout prompt ;;
  text <- getline ;;
  client_processText (token session) text.

Definition handleReply (reply : ReplyAction) : M (World Srv) unit :=
  cout [OStr (String.append nl "  Reply:"); OStr (reply_text reply); endl].

(** One line of the parameter listing. *)
Definition printParam (param : string * string) : M (World Srv) unit :=
  cout [OStr "      "; OStr (fst param); OStr " = "; OStr (snd param); endl].

Definition handleCommand (session : SessionOutput) (cmd : CommandAction)
  : M (World Srv) SessionOutput :=
  cout [endl] ;;
  cout [OStr "  Command:"; endl] ;;
  cout [OStr "    ID:"; OStr (command_id cmd); endl] ;;
  cout [OStr "    Input params:"; endl] ;;
  for_each printParam (input_parameters cmd) ;;
  client_processCommandResult (token session) (mkCommandResult (command_id cmd) [] EmptyString).

Fixpoint processActions_from (session : SessionOutput) (actions : list ActionData)
  : M (World Srv) SessionOutput :=
  match actions with
  | [] => throw (RuntimeError exhaustedMsg)
  | action :: rest =>
      match action with
      | AInput _ => waitForInput session
      | AReply reply => handleReply reply ;; processActions_from session rest
      | ACommand command => handleCommand session command
      | ActionUnset => throw (RuntimeError unknownMsg)
      end
  end.

Definition processActions (session : SessionOutput) : M (World Srv) SessionOutput :=
  processActions_from session (action_list session).

Definition handlers (session : SessionOutput) : Dispatch.handlers (World Srv) :=
  mkHandlers (fun _ => waitForInput session) handleReply (handleCommand session)
    unknownMsg exhaustedMsg.

End Client.

Section Proofs.
Context {Srv : Type} `{DiathekeServer Srv}.

(** C2. Refinement: the text client's [processActions] is the spec's
    dispatch contract on every session: replies printed in order, then
    one prompt-read-send cycle for the first input request or one
    command cycle, or the "unknown action type" or "action list ended
    without session update" error. *)
Theorem cli_processActions_refines (session : SessionOutput) :
  processActions session ≡ contract (handlers session) (action_list session).
Proof.
  unfold processActions.
  assert (L : DispatchLoop (handlers session) (processActions_from session))
    by (split; intros; intros w; reflexivity).
  exact (@loop_refines _ _ _ L _).
Qed.

Lemma cli_turn_frame (session : SessionOutput) : sys_frame (processActions (Srv := Srv) session).
Proof.
  unfold processActions. induction (action_list session) as [|[a|r|c|] l IH];
    cbn [processActions_from].
  - intros w; reflexivity.
  - unfold waitForInput. apply frame_bind; [apply cout_frame | intros _].
    apply frame_bind; [intros w; unfold getline; destruct (w_stdin w); reflexivity|].
    intros t. auto with cpp.
  - apply frame_bind; [apply cout_frame | intros _; exact IH].
  - unfold handleCommand. repeat (apply frame_bind; [apply cout_frame | intros _]).
    apply frame_bind; [apply frame_for_each; intros; apply cout_frame | intros _; auto with cpp].
  - intros w; reflexivity.
Qed.

(** A line of input is sent as it was typed: with [line] first on
    standard input, waitForInput prints the prompt, consumes the line,
    and calls processText with the session's token and exactly that
    line, returning what the server returns. *)
Theorem cli_waitForInput_sends_line (session : SessionOutput) (w : World Srv) line rest srv' o :
  w_stdin w = line :: rest ->
  dk_processText (w_srv w) (token session) line = (srv', o) ->
  waitForInput session w =
  (o, mkWorld srv' (w_sys w) rest
        (w_log w ++ [EvOut prompt] ++ [EvCall (CallProcessText (token session) line)])).
Proof.
  intros Hin Hp. unfold waitForInput, bind, cout, emit, modify, getline. cbn [w_stdin].
  rewrite Hin. unfold client_processText, rpc. cbn. rewrite Hp, <- app_assoc. reflexivity.
Qed.

(** End of standard input: getline fails without an error and the
    text stays empty, so an input turn sends the empty string to the
    server instead of ending the conversation. *)
Theorem cli_waitForInput_eof (session : SessionOutput) (w : World Srv) srv' o :
  w_stdin w = [] ->
  dk_processText (w_srv w) (token session) EmptyString = (srv', o) ->
  waitForInput session w =
  (o, mkWorld srv' (w_sys w) []
        (w_log w ++ [EvOut prompt] ++ [EvCall (CallProcessText (token session) EmptyString)])).
Proof.
  intros Hin Hp. unfold waitForInput, bind, cout, emit, modify, getline. cbn [w_stdin].
  rewrite Hin. unfold client_processText, rpc. cbn. rewrite Hp, <- app_assoc. reflexivity.
Qed.

End Proofs.

Lemma cli_waitForInput_sends_line_witness :
  w_stdin (mock_world scenario_mock ["turn on lights"%string]) = ["turn on lights"%string] /\
  dk_processText scenario_mock "s1"%string "turn on lights"%string =
    (mkMock [] 1 lights_result [[Byte.x01]], Ok session_s2) /\
  waitForInput s1_input (mock_world scenario_mock ["turn on lights"%string]) =
  (Ok session_s2, mkWorld (mkMock [] 1 lights_result [[Byte.x01]]) mic_sys []
     ([] ++ [EvOut prompt] ++ [EvCall (CallProcessText "s1"%string "turn on lights"%string)])).
Proof.
  split; [reflexivity|]. split; [reflexivity|].
  apply (cli_waitForInput_sends_line s1_input (mock_world scenario_mock ["turn on lights"%string])
           _ [] (mkMock [] 1 lights_result [[Byte.x01]]) (Ok session_s2)); reflexivity.
Defined.

Lemma cli_waitForInput_eof_witness :
  w_stdin (mock_world scenario_mock []) = [] /\
  dk_processText scenario_mock "s1"%string EmptyString =
    (mkMock [] 1 lights_result [[Byte.x01]], Ok session_s2) /\
  waitForInput s1_input (mock_world scenario_mock []) =
  (Ok session_s2, mkWorld (mkMock [] 1 lights_result [[Byte.x01]]) mic_sys []
     ([] ++ [EvOut prompt] ++ [EvCall (CallProcessText "s1"%string EmptyString)])).
Proof.
  split; [reflexivity|]. split; [reflexivity|].
  apply (cli_waitForInput_eof s1_input (mock_world scenario_mock [])
           (mkMock [] 1 lights_result [[Byte.x01]]) (Ok session_s2)); reflexivity.
Defined.

End CliClient.
