(* ===== verification/Conversation.v ===== *)
(** * The main functions of the dialogue clients

    Module [Conversation] translates [main] of
    src/diatheke/audio_client.cpp (lines 166-207) and of
    src/diatheke/cli_client.cpp (lines 109-150).  Both print the server
    version and the model list, create a session, and run
    [while (true) session = processActions(&client, session);].  They
    differ in their error handling:
    - the audio client wraps everything in one try block; its
      [deleteSession] follows an infinite loop without break and is
      unreachable, so it is absent from the model: a failing turn is
      reported and the program returns without deleting the session;
    - the text client creates the session outside the try block, so an
      error there escapes [main] (std::terminate); a failing turn is
      reported, and the session held by the local variable is deleted.

    The infinite loop is run for [fuel] turns ([forever]); a run that
    is still looping when the fuel is spent returns [Running] with the
    current session.  The session is a local variable: the assignment
    of a turn happens only when the turn returns, which [self]
    expresses, so after a failing turn the variable still holds the
    last session the server returned.  [fails_after] and [runs_for]
    describe the turns of a run as a relation, and the theorems give the
    outcome of each main for any fuel larger than the turns. *)

From Stdlib Require Import String List Lia NArith.
From S2P Require Import Prelude Sys Protocol Client Mock AudioClient CliClient.
Import ListNotations.

Module Conversation.

(** The model ID of line 42 (audio) and 133 (text). *)
Definition modelID : string := "1".

(** What a run of [main] gives: the program returned with its exit
    code, or it is still in its loop with this session. *)
Inductive status : Type :=
| Exited (code : nat)
| Running (session : SessionOutput).

(** The exceptions the two catch clauses take: [Diatheke::ClientError]
    and [std::exception]. *)
Definition catchable (e : exn) : bool :=
  match e with
  | ClientError _ | RuntimeError _ => true
  | UndefinedBehaviour _ => false
  end.

Section Main.
Context {Srv : Type} `{DiathekeServer Srv}.

Definition printVersion (ver : VersionResponse) : M (World Srv) unit :=
  cout [OStr "Server Version"; endl] ;;
  cout [OStr "  Diatheke: "; OStr (diatheke ver); endl] ;;
  cout [OStr "  Chosun (NLU): "; OStr (chosun ver); endl] ;;
  cout [OStr "  Cubic (ASR): "; OStr (cubic ver); endl] ;;
  cout [OStr "  Luna (TTS): "; OStr (luna ver); endl].

Definition printModel (mdl : ModelInfo) : M (World Srv) unit :=
  cout [OStr "  ID: "; OStr (model_id mdl); endl] ;;
  cout [OStr "    Name: "; OStr (model_name mdl); endl] ;;
  cout [OStr "    Language: "; OStr (language mdl); endl] ;;
  cout [OStr "    ASR Sample Rate: "; ONum (asr_sample_rate mdl); endl] ;;
  cout [OStr "    TTS Sample Rate: "; ONum (tts_sample_rate mdl); endl].

(** Version, model list, and a new session. *)
Definition preamble : M (World Srv) SessionOutput :=
  ver <- client_version ;;
  printVersion ver ;;
  modelList <- client_listModels ;;
  cout [OStr (String.append nl "Available Models:"); endl] ;;
  for_each printModel modelList ;;
  client_createSession modelID.

(** The two catch clauses; any other exception propagates. *)
Definition reportError (e : exn) : M (World Srv) unit :=
  match e with
  | ClientError msg => cout [OStr "Diatheke Error: "; OStr msg; endl]
  | RuntimeError msg => cout [OStr "Error: "; OStr msg; endl]
  | UndefinedBehaviour _ => throw e
  end.

(** [while (true) { session = step(session); }] for [fuel] turns. *)
Fixpoint forever (step : SessionOutput -> M (World Srv) SessionOutput) (fuel : nat)
  : M (World Srv * SessionOutput) unit :=
  match fuel with
  | 0 => ret tt
  | S fuel' => self step ;; forever step fuel'
  end.

Definition audio_main (fuel : nat) : M (World Srv) status :=
  catch
    (session <- preamble ;;
     with_local session
       (forever AudioClient.processActions fuel ;;
        s <- local ;; ret (Running s)))
    (fun e => reportError e ;; ret (Exited 0)).

Definition cli_main (fuel : nat) : M (World Srv) status :=
  session <- preamble ;;
  with_local session
    (ended <- catch (forever CliClient.processActions fuel ;; ret false)
                    (fun e => lift (reportError e) ;; ret true) ;;
     if ended
     then (s <- local ;; lift (client_deleteSession (token s)) ;; ret (Exited 0))
     else (s <- local ;; ret (Running s))).

End Main.

(** ** The turns of a run, as relations *)

Section Turns.
Context {Srv : Type} `{DiathekeServer Srv}.
Context (step : SessionOutput -> M (World Srv) SessionOutput).

(** [k] turns return a session, then the next one throws [e]; the
    session variable then holds [s']. *)
Inductive fails_after : nat -> World Srv -> SessionOutput -> World Srv -> SessionOutput -> exn -> Prop :=
| fails_now w s w' e :
    step s w = (Throw e, w') -> fails_after 0 w s w' s e
| fails_later k w s w1 s1 w' s' e :
    step s w = (Ok s1, w1) -> fails_after k w1 s1 w' s' e -> fails_after (S k) w s w' s' e.

(** [n] turns all return a session. *)
Inductive runs_for : nat -> World Srv -> SessionOutput -> World Srv -> SessionOutput -> Prop :=
| runs_none w s : runs_for 0 w s w s
| runs_more n w s w1 s1 w' s' :
    step s w = (Ok s1, w1) -> runs_for n w1 s1 w' s' -> runs_for (S n) w s w' s'.

End Turns.

(** Fixtures of the witnesses: a server that creates session "s1"
    with a reply and an input request, answers the first turn with the
    empty session "s2", so that the second turn fails. *)
Definition conv_mock : Mock := mkMock [s1_input; session_s2] 1 lights_result [[Byte.x01]].
Definition conv_start : World Mock := mock_world conv_mock ["hi"%string].
Definition conv_w0 : World Mock := snd (preamble conv_start).
Definition audio_w1 : World Mock := snd (AudioClient.processActions s1_input conv_w0).
Definition audio_w2 : World Mock := snd (AudioClient.processActions session_s2 audio_w1).
Definition cli_w1 : World Mock := snd (CliClient.processActions s1_input conv_w0).
Definition cli_w2 : World Mock := snd (CliClient.processActions session_s2 cli_w1).
Definition dead_server : Mock := mkMock [] 1 lights_result [].

Section Proofs.
Context {Srv : Type} `{DiathekeServer Srv}.

Lemma forever_fails step k w s w' s' e :
  fails_after step k w s w' s' e ->
  forall fuel, k < fuel -> forever (Srv := Srv) step fuel (w, s) = (Throw e, (w', s')).
Proof.
  induction 1 as [w s w' e Hs | k w s w1 s1 w' s' e Hs Hf IH]; intros [|fuel] Hk; try lia;
    cbn [forever]; unfold bind at 1, self; rewrite Hs; [reflexivity|].
  apply IH. lia.
Qed.

Lemma forever_runs step n w s w' s' :
  runs_for step n w s w' s' -> forever (Srv := Srv) step n (w, s) = (Ok tt, (w', s')).
Proof.
  induction 1 as [w s | n w s w1 s1 w' s' Hs Hr IH]; [reflexivity|].
  cbn [forever]. unfold bind at 1, self. rewrite Hs. exact IH.
Qed.

Lemma reportError_ok e (w : World Srv) :
  catchable e = true -> fst (reportError e w) = Ok tt.
Proof. destruct e; cbn; congruence. Qed.

Lemma reportError_run e (w : World Srv) :
  catchable e = true -> reportError e w = (Ok tt, snd (reportError e w)).
Proof. intros Hc. rewrite <- (reportError_ok e w Hc). destruct (reportError e w); reflexivity. Qed.

(** C28. The audio client never deletes its session: when the
    conversation ends because a turn throws a catchable error after [k]
    successful turns, main prints the error and returns 0, and the world
    it leaves is the world of the failed turn plus that message: no
    deleteSession call is made, unlike what section 4.1 of the spec asks
    of the caller. *)
Theorem audio_main_error_no_delete fuel (w : World Srv) s0 w0 k w1 s1 e :
  preamble w = (Ok s0, w0) ->
  fails_after AudioClient.processActions k w0 s0 w1 s1 e ->
  k < fuel -> catchable e = true ->
  audio_main fuel w = (Ok (Exited 0), snd (reportError e w1)).
Proof.
  intros Hp Hf Hk Hc. unfold audio_main, catch, bind at 1. rewrite Hp.
  unfold with_local, scoped, bind at 1. rewrite (forever_fails _ _ _ _ _ _ _ Hf _ Hk).
  unfold bind. rewrite reportError_run by exact Hc. reflexivity.
Qed.

(** C27. The text client deletes the last session it holds: when a turn
    throws a catchable error after [k] successful turns, main prints the
    error and then calls deleteSession with the token of the session the
    last successful turn returned (not of a session the failing turn
    might have produced), and returns 0 when that call succeeds. *)
Theorem cli_main_deletes_last_session fuel (w : World Srv) s0 w0 k w1 s1 e :
  preamble w = (Ok s0, w0) ->
  fails_after CliClient.processActions k w0 s0 w1 s1 e ->
  k < fuel -> catchable e = true ->
  cli_main fuel w = (client_deleteSession (token s1) ;; ret (Exited 0)) (snd (reportError e w1)).
Proof.
  intros Hp Hf Hk Hc. unfold cli_main, bind at 1. rewrite Hp.
  unfold with_local, scoped, catch, bind at 1.
  unfold bind at 1. rewrite (forever_fails _ _ _ _ _ _ _ Hf _ Hk).
  unfold lift, bind at 1. rewrite reportError_run by exact Hc. cbn.
  unfold bind. destruct (client_deleteSession (token s1) (snd (reportError e w1))) as [[[]|e'] w3];
    reflexivity.
Qed.

(** The loop does not stop on its own: when [n] turns all return a
    session, the audio client's main is still in its loop after them,
    holding the session of the last turn, and nothing else happened
    after that turn. *)
Theorem audio_main_keeps_running (w : World Srv) s0 w0 n w1 s1 :
  preamble w = (Ok s0, w0) ->
  runs_for AudioClient.processActions n w0 s0 w1 s1 ->
  audio_main n w = (Ok (Running s1), w1).
Proof.
  intros Hp Hr. unfold audio_main, catch, bind at 1. rewrite Hp.
  unfold with_local, scoped, bind at 1. rewrite (forever_runs _ _ _ _ _ _ Hr). reflexivity.
Qed.

(** C29. An error before the loop: the text client calls version,
    listModels and createSession outside its try block, so their error
    escapes main (the program terminates on an uncaught exception),
    while the audio client reports it and returns 0. *)
Theorem main_preamble_error fuel (w : World Srv) e w' :
  preamble w = (Throw e, w') -> catchable e = true ->
  cli_main fuel w = (Throw e, w') /\
  audio_main fuel w = (Ok (Exited 0), snd (reportError e w')).
Proof.
  intros Hp Hc. split.
  - unfold cli_main, bind at 1. rewrite Hp. reflexivity.
  - unfold audio_main, catch, bind at 1. rewrite Hp. unfold bind.
    rewrite reportError_run by exact Hc. reflexivity.
Qed.

End Proofs.

(** ** Witnesses *)

Lemma audio_main_error_no_delete_witness :
  preamble conv_start = (Ok s1_input, conv_w0) /\
  fails_after AudioClient.processActions 1 conv_w0 s1_input audio_w2 session_s2
    (RuntimeError AudioClient.exhaustedMsg) /\
  1 < 5 /\ catchable (RuntimeError AudioClient.exhaustedMsg) = true /\
  audio_main 5 conv_start =
  (Ok (Exited 0), snd (reportError (RuntimeError AudioClient.exhaustedMsg) audio_w2)).
Proof.
  assert (Hp : preamble conv_start = (Ok s1_input, conv_w0)) by (vm_compute; reflexivity).
  assert (Hf : fails_after AudioClient.processActions 1 conv_w0 s1_input audio_w2 session_s2
                 (RuntimeError AudioClient.exhaustedMsg)).
  { apply fails_later with audio_w1 session_s2; [vm_compute; reflexivity|].
    apply fails_now. vm_compute. reflexivity. }
  split; [exact Hp|]. split; [exact Hf|]. split; [lia|]. split; [reflexivity|].
  apply (audio_main_error_no_delete 5 conv_start s1_input conv_w0 1 audio_w2 session_s2); auto.
Defined.

Lemma cli_main_deletes_last_session_witness :
  preamble conv_start = (Ok s1_input, conv_w0) /\
  fails_after CliClient.processActions 1 conv_w0 s1_input cli_w2 session_s2
    (RuntimeError CliClient.exhaustedMsg) /\
  1 < 5 /\ catchable (RuntimeError CliClient.exhaustedMsg) = true /\
  cli_main 5 conv_start =
  (client_deleteSession (token session_s2) ;; ret (Exited 0))
    (snd (reportError (RuntimeError CliClient.exhaustedMsg) cli_w2)).
Proof.
  assert (Hp : preamble conv_start = (Ok s1_input, conv_w0)) by (vm_compute; reflexivity).
  assert (Hf : fails_after CliClient.processActions 1 conv_w0 s1_input cli_w2 session_s2
                 (RuntimeError CliClient.exhaustedMsg)).
  { apply fails_later with cli_w1 session_s2; [vm_compute; reflexivity|].
    apply fails_now. vm_compute. reflexivity. }
  split; [exact Hp|]. split; [exact Hf|]. split; [lia|]. split; [reflexivity|].
  apply (cli_main_deletes_last_session 5 conv_start s1_input conv_w0 1 cli_w2 session_s2); auto.
Defined.

Lemma audio_main_keeps_running_witness :
  preamble conv_start = (Ok s1_input, conv_w0) /\
  runs_for AudioClient.processActions 1 conv_w0 s1_input audio_w1 session_s2 /\
  audio_main 1 conv_start = (Ok (Running session_s2), audio_w1).
Proof.
  assert (Hp : preamble conv_start = (Ok s1_input, conv_w0)) by (vm_compute; reflexivity).
  assert (Hr : runs_for AudioClient.processActions 1 conv_w0 s1_input audio_w1 session_s2).
  { apply runs_more with audio_w1 session_s2; [vm_compute; reflexivity | apply runs_none]. }
  split; [exact Hp|]. split; [exact Hr|].
  apply (audio_main_keeps_running conv_start s1_input conv_w0 1 audio_w1 session_s2 Hp Hr).
Defined.

Lemma main_preamble_error_witness :
  preamble (mock_world dead_server []) =
    (Throw (ClientError "session script exhausted"), snd (preamble (mock_world dead_server []))) /\
  catchable (ClientError "session script exhausted") = true /\
  cli_main 3 (mock_world dead_server []) =
    (Throw (ClientError "session script exhausted"), snd (preamble (mock_world dead_server []))) /\
  audio_main 3 (mock_world dead_server []) =
    (Ok (Exited 0), snd (reportError (ClientError "session script exhausted")
                           (snd (preamble (mock_world dead_server []))))).
Proof.
  assert (Hp : preamble (mock_world dead_server []) =
    (Throw (ClientError "session script exhausted"), snd (preamble (mock_world dead_server []))))
    by (vm_compute; reflexivity).
  split; [exact Hp|]. split; [reflexivity|].
  apply (main_preamble_error 3 (mock_world dead_server []) _ _ Hp eq_refl).
Defined.

End Conversation.
