(* ===== verification/Cubic.v ===== *)
(** * The Cubic messages, the server interface and the shared main code

    The four recognition clients of src/cubic (synchronous_client.cpp,
    stream_client.cpp, context_client.cpp, mic_client.cpp) talk to a
    Cubic server through the SDK class [CubicClient].  This file holds
    - the protobuf messages the clients read or build
      ([RecognitionConfig], [RecognitionResponse] and its results and
      alternatives, [CompiledContext]) and the SDK's [CubicModel];
    - the class [CubicServer]: one operation per [CubicClient] method the
      clients call outside a stream, each returning the server's new
      state and the reply or the [CubicException] the SDK throws (as
      [ClientError]);
    - the world of a recognition client ([CWorld]): the server, the
      files of the working directory, standard input and the log of
      console output and server calls;
    - the code the four [main] functions share line for line: the
      header of lines 42-45 ([printHeader]), [models[0]] ([firstModel]),
      the transcript loop ([printResults]) and the two catch clauses
      followed by "Done." ([finish]).

    C++17 sequencing is assumed for [std::cout << a << f() << b]: the
    left operand of [<<] is evaluated, and printed, before the right
    one, so "Cubic version: " is on the console before the version is
    asked for. *)

From Stdlib Require Import String Ascii List Lia.
From S2P Require Import Prelude Client.
Import ListNotations.

(** [RecognitionConfig::AudioEncoding]: the two values the clients set. *)
Inductive AudioEncoding : Type :=
| RAW_LINEAR16
| WAV.

(** [CompiledContext]: opaque data the server compiled. *)
Record CompiledContext : Type := mkCompiledContext {
  compiled_data : list Byte.byte
}.

(** [RecognitionConfig]: [context] is the repeated field [compiled] of
    its [RecognitionContext]. *)
Record RecognitionConfig : Type := mkRecognitionConfig {
  model_id : string;
  audio_encoding : AudioEncoding;
  context : list CompiledContext
}.

(** [RecognitionAlternative], with the one field the clients print. *)
Record RecognitionAlternative : Type := mkRecognitionAlternative {
  transcript : string
}.

Record RecognitionResult : Type := mkRecognitionResult {
  alternatives : list RecognitionAlternative;
  is_partial : bool
}.

Record RecognitionResponse : Type := mkRecognitionResponse {
  results : list RecognitionResult
}.

(** The SDK's [CubicModel]. *)
Record CubicModel : Type := mkCubicModel {
  id : string;
  name : string;
  supportsContext : bool;
  allowedContextTokens : list string
}.

(** The server, as [CubicClient] exposes it outside a stream. *)
Class CubicServer (S : Type) := {
  cb_cubicVersion : S -> S * outcome string;
  cb_serverVersion : S -> S * outcome string;
  cb_listModels : S -> S * outcome (list CubicModel);
  cb_recognize : S -> RecognitionConfig -> list Byte.byte -> S * outcome RecognitionResponse;
  cb_compileContext : S -> string -> string -> list string -> S * outcome CompiledContext;
  cb_streamingRecognize : S -> RecognitionConfig -> S * outcome unit
}.

Inductive CubicCall : Type :=
| CallCubicVersion
| CallServerVersion
| CallListModels
| CallRecognize (cfg : RecognitionConfig) (audio : list Byte.byte)
| CallCompileContext (model token : string) (phrases : list string)
| CallStreamingRecognize (cfg : RecognitionConfig).

(** What an observer sees: the two console streams and the calls. *)
Inductive CEvent : Type :=
| COut (items : list out_item)
| CErr (items : list out_item)
| CCall (c : CubicCall).

Record CWorld (S : Type) : Type := mkCWorld {
  c_srv : S;
  c_files : string -> option (list Byte.byte);
  c_stdin : list string;
  c_log : list CEvent
}.
Arguments mkCWorld {S}.
Arguments c_srv {S}.
Arguments c_files {S}.
Arguments c_stdin {S}.
Arguments c_log {S}.

(** The constants of lines 32-33 of the file clients. *)
Definition serverAddress : string := "localhost:2727".
Definition filename : string := "test.wav".

Section Calls.
Context {Srv : Type} `{CubicServer Srv}.

Definition log_event (e : CEvent) : M (CWorld Srv) unit :=
  modify (fun w => mkCWorld (c_srv w) (c_files w) (c_stdin w) (c_log w ++ [e])).

Definition cout (items : list out_item) : M (CWorld Srv) unit := log_event (COut items).
Definition cerr (items : list out_item) : M (CWorld Srv) unit := log_event (CErr items).

Definition rpc {A} (c : CubicCall) (f : Srv -> Srv * outcome A) : M (CWorld Srv) A :=
  fun w => let '(s', o) := f (c_srv w) in
           (o, mkCWorld s' (c_files w) (c_stdin w) (c_log w ++ [CCall c])).

Definition cubicVersion : M (CWorld Srv) string := rpc CallCubicVersion cb_cubicVersion.
Definition serverVersion : M (CWorld Srv) string := rpc CallServerVersion cb_serverVersion.
Definition listModels : M (CWorld Srv) (list CubicModel) := rpc CallListModels cb_listModels.
Definition recognize (cfg : RecognitionConfig) (audio : list Byte.byte)
  : M (CWorld Srv) RecognitionResponse :=
  rpc (CallRecognize cfg audio) (fun s => cb_recognize s cfg audio).
Definition compileContext (model token : string) (phrases : list string)
  : M (CWorld Srv) CompiledContext :=
  rpc (CallCompileContext model token phrases) (fun s => cb_compileContext s model token phrases).
Definition streamingRecognize (cfg : RecognitionConfig) : M (CWorld Srv) unit :=
  rpc (CallStreamingRecognize cfg) (fun s => cb_streamingRecognize s cfg).

(** Lines 42-45: each version is asked for after its label is printed. *)
Definition printHeader : M (CWorld Srv) unit :=
  cout [OStr "Cubic version: "] ;;
  v <- cubicVersion ;;
  cout [OStr v; endl] ;;
  cout [OStr "Server version: "] ;;
  sv <- serverVersion ;;
  cout [OStr sv; endl] ;;
  cout [OStr "Connected to "; OStr serverAddress; endl] ;;
  cout [endl].

(** [models[0]]: [operator[]] of an empty vector is undefined. *)
Definition firstModel (models : list CubicModel) : M (CWorld Srv) CubicModel :=
  match models with
  | [] => throw (UndefinedBehaviour "models[0] on an empty vector")
  | m :: _ => ret m
  end.

(** The body of the transcript loop for one result: a final result's
    first alternative is printed; [alternatives(0)] of a result with no
    alternative reads out of the repeated field's range. *)
Definition printResult (result : RecognitionResult) : M (CWorld Srv) unit :=
  if is_partial result then ret tt
  else match alternatives result with
       | [] => throw (UndefinedBehaviour "alternatives(0) on an empty field")
       | a :: _ => cout [OStr (transcript a); endl]
       end.

(** [for (int i = 0; i < resp.results_size(); i++) ...]. *)
Definition printResults (resp : RecognitionResponse) : M (CWorld Srv) unit :=
  for_each printResult (results resp).

(** The two catch clauses: [CubicException], then [std::exception];
    undefined behaviour is not an exception and is not caught. *)
Definition reportError (e : exn) : M (CWorld Srv) unit :=
  match e with
  | ClientError msg => cerr [OStr "Cubic error: "; OStr msg; endl]
  | RuntimeError msg => cerr [OStr "Error: "; OStr msg; endl]
  | UndefinedBehaviour _ => throw e
  end.

(** [try { body } catch ... ; std::cout << "\nDone." << std::endl;]. *)
Definition finish (body : M (CWorld Srv) unit) : M (CWorld Srv) unit :=
  catch body reportError ;;
  cout [OStr (String.append nl "Done."); endl].

End Calls.

(** ** What the transcript loop prints *)

(** The line a result prints, when it is final and has an alternative. *)
Definition result_line (result : RecognitionResult) : list CEvent :=
  if is_partial result then []
  else match alternatives result with
       | [] => []
       | a :: _ => [COut [OStr (transcript a); endl]]
       end.

Definition response_lines (resp : RecognitionResponse) : list CEvent :=
  flat_map result_line (results resp).

(** A response the loop prints without undefined behaviour: each of its
    final results has an alternative. *)
Definition result_ok (result : RecognitionResult) : bool :=
  is_partial result || match alternatives result with [] => false | _ :: _ => true end.

Definition well_formed (resp : RecognitionResponse) : bool := forallb result_ok (results resp).

Definition log_append {S} (w : CWorld S) (l : list CEvent) : CWorld S :=
  mkCWorld (c_srv w) (c_files w) (c_stdin w) (c_log w ++ l).

Section Lemmas.
Context {Srv : Type} `{CubicServer Srv}.

Lemma log_append_app (w : CWorld Srv) l1 l2 :
  log_append (log_append w l1) l2 = log_append w (l1 ++ l2).
Proof. unfold log_append. cbn. rewrite app_assoc. reflexivity. Qed.

Lemma log_append_nil (w : CWorld Srv) : log_append w [] = w.
Proof. destruct w. unfold log_append. cbn. rewrite app_nil_r. reflexivity. Qed.

Lemma printResult_ok (result : RecognitionResult) (w : CWorld Srv) :
  result_ok result = true -> printResult result w = (Ok tt, log_append w (result_line result)).
Proof.
  unfold printResult, result_ok, result_line.
  destruct (is_partial result); [intros _; symmetry; apply (f_equal _ (log_append_nil w))|].
  destruct (alternatives result); [discriminate | reflexivity].
Qed.

Lemma printResults_ok (resp : RecognitionResponse) (w : CWorld Srv) :
  well_formed resp = true -> printResults resp w = (Ok tt, log_append w (response_lines resp)).
Proof.
  unfold printResults, well_formed, response_lines. destruct resp as [rs]; cbn [results].
  revert w. induction rs as [|r rs IH]; intros w Hwf; cbn in *.
  - rewrite log_append_nil. reflexivity.
  - apply andb_prop in Hwf as [Hr Hrs]. unfold bind. rewrite printResult_ok by exact Hr.
    rewrite IH, log_append_app by exact Hrs. reflexivity.
Qed.

(** The body of the loop for one result returns, or reads out of range. *)
Lemma printResult_cases (result : RecognitionResult) (w : CWorld Srv) :
  (exists w', printResult result w = (Ok tt, w')) \/
  exists what w', printResult result w = (Throw (UndefinedBehaviour what), w').
Proof.
  unfold printResult. destruct (is_partial result); [left; eexists; reflexivity|].
  destruct (alternatives result); [right; eexists; eexists | left; eexists]; reflexivity.
Qed.

(** A response with a final result without alternative: [alternatives(0)]
    is read out of range. *)
Lemma printResults_ub (resp : RecognitionResponse) (w : CWorld Srv) :
  well_formed resp = false ->
  exists what w', printResults resp w = (Throw (UndefinedBehaviour what), w').
Proof.
  unfold printResults, well_formed. destruct resp as [rs]; cbn [results].
  revert w. induction rs as [|r rs IH]; intros w Hwf; cbn in *; [discriminate|].
  unfold bind. destruct (result_ok r) eqn:Hr; cbn in Hwf.
  - rewrite printResult_ok by exact Hr. apply IH, Hwf.
  - unfold printResult, result_ok in *. destruct (is_partial r); [discriminate|].
    destruct (alternatives r); [|discriminate]. cbn. eauto.
Qed.

End Lemmas.
