(* ===== verification/CubicMock.v ===== *)
(** * A scripted Cubic server

    [CMock] is a test double of the Cubic server, an instance of
    [CubicServer]: it reports fixed versions, lists its models, answers
    every [recognize] with the same response and compiles every context
    to the same data; [cm_fail] makes every recognition call
    ([recognize], [compileContext], [streamingRecognize]) throw the SDK's
    [CubicException] with that message.  The witnesses of the
    recognition clients run against it, with a working directory that
    holds a three-byte test.wav. *)

From Stdlib Require Import String List.
From S2P Require Import Prelude Client Cubic.
Import ListNotations.
Local Open Scope string_scope.

Record CMock : Type := mkCMock {
  cm_models : list CubicModel;
  cm_response : RecognitionResponse;
  cm_fail : option string
}.

Definition cm_answer {A} (m : CMock) (a : A) : CMock * outcome A :=
  match cm_fail m with
  | None => (m, Ok a)
  | Some msg => (m, Throw (ClientError msg))
  end.

#[export] Instance cmock_server : CubicServer CMock := {
  cb_cubicVersion := fun m => (m, Ok "1.0");
  cb_serverVersion := fun m => (m, Ok "2.0");
  cb_listModels := fun m => (m, Ok (cm_models m));
  cb_recognize := fun m _ _ => cm_answer m (cm_response m);
  cb_compileContext := fun m _ _ _ => cm_answer m (mkCompiledContext [Byte.x2a]);
  cb_streamingRecognize := fun m _ => cm_answer m tt
}.

(** A model with the context token of context_client.cpp, and one with
    context support but no token. *)
Definition airport_model : CubicModel := mkCubicModel "1" "English" true ["airport_names"].
Definition tokenless_model : CubicModel := mkCubicModel "2" "Tokenless" true [].

Definition hello_result : RecognitionResult :=
  mkRecognitionResult [mkRecognitionAlternative "hello world"] false.
Definition partial_result : RecognitionResult :=
  mkRecognitionResult [mkRecognitionAlternative "hello"] true.
(** A final result without alternative. *)
Definition empty_result : RecognitionResult := mkRecognitionResult [] false.

Definition hello_response : RecognitionResponse := mkRecognitionResponse [partial_result; hello_result].
Definition broken_response : RecognitionResponse := mkRecognitionResponse [empty_result].

Definition wav_bytes : list Byte.byte := [Byte.x52; Byte.x49; Byte.x46].

(** A working directory with test.wav, and one without. *)
Definition wav_files (f : string) : option (list Byte.byte) :=
  if String.eqb f filename then Some wav_bytes else None.
Definition no_files (f : string) : option (list Byte.byte) := None.

Definition good_mock : CMock := mkCMock [airport_model] hello_response None.

Definition cworld (m : CMock) (files : string -> option (list Byte.byte)) (stdin : list string)
  : CWorld CMock := mkCWorld m files stdin [].
