(* ===== verification/FileStream.v ===== *)
(** * Reading test.wav: [std::ifstream] and the chunking of the audio thread

    The streaming clients (stream_client.cpp lines 65-78 and
    context_client.cpp lines 111-124) push the file in buffers of
    [buffSize = 8192] bytes:
<<
    std::ifstream infile(filename);
    while (infile.good()) {
        infile.read(buff, buffSize);
        stream.pushAudio(buff, infile.gcount());
    }
    stream.audioFinished();
>>
    [ifstream] holds what the stream has still to deliver and its
    [good()] flag.  [read] follows [std::istream::read]: with [n] bytes
    or more left it extracts [n] and stays good; with fewer it extracts
    what is left and sets eofbit and failbit; on a stream that is not
    good it extracts nothing.  [pushes] is the loop run with fuel, and
    [chunks] the sequence of buffers the loop pushes for a file that
    opened.

    The theorems: the buffers concatenate to the file (round trip);
    there are [length / buffSize + 1] of them; all but the last are full
    and the last is shorter than a buffer, empty exactly when the file
    size is a multiple of [buffSize] (an empty [pushAudio] the code
    sends); a file that does not open pushes nothing; the loop stops
    after [length / buffSize + 1] reads, and more fuel changes nothing. *)

From Stdlib Require Import List Lia PeanoNat Wf_nat.
From S2P Require Import Prelude.
Import ListNotations.

Record ifstream : Type := mkIfstream {
  is_data : list Byte.byte;
  is_good : bool
}.

(** [std::ifstream infile(filename)]: a file that cannot be opened
    gives a stream whose failbit is set. *)
Definition open_ifstream (file : option (list Byte.byte)) : ifstream :=
  match file with
  | Some d => mkIfstream d true
  | None => mkIfstream [] false
  end.

(** [infile.read(buff, n)], returning the bytes extracted ([gcount()]
    of them) and the stream after the call. *)
Definition read (n : nat) (f : ifstream) : list Byte.byte * ifstream :=
  if is_good f then
    if n <=? length (is_data f)
    then (firstn n (is_data f), mkIfstream (skipn n (is_data f)) true)
    else (is_data f, mkIfstream [] false)
  else ([], f).

(** The buffer size of line 68 (stream) and 114 (context). *)
Definition buffSize : nat := 8192.
Arguments buffSize : simpl never.

(** The [while (infile.good())] loop, with fuel: the buffers pushed. *)
Fixpoint pushes (fuel n : nat) (f : ifstream) : list (list Byte.byte) :=
  match fuel with
  | 0 => []
  | S fuel' =>
      if is_good f
      then let '(buf, f') := read n f in buf :: pushes fuel' n f'
      else []
  end.

(** The buffers pushed for a file holding [d]. *)
Definition chunks (n : nat) (d : list Byte.byte) : list (list Byte.byte) :=
  pushes (S (length d)) n (mkIfstream d true).

Definition three_bytes : list Byte.byte := [Byte.x01; Byte.x02; Byte.x03].

(** ** Lemmas *)

Section Chunks.
Variable n : nat.
Hypothesis n_pos : 0 < n.

Lemma div_sub_one m : n <= m -> (m - n) / n = m / n - 1.
Proof.
  intros Hle. replace m with ((m - n) + 1 * n) at 2 by lia.
  rewrite Nat.div_add by lia. lia.
Qed.

Lemma div_pos m : n <= m -> 0 < m / n.
Proof. intros Hle. apply Nat.div_str_pos. lia. Qed.

Lemma read_full d :
  n <= length d -> read n (mkIfstream d true) = (firstn n d, mkIfstream (skipn n d) true).
Proof. intros Hle. unfold read. cbn. apply Nat.leb_le in Hle. now rewrite Hle. Qed.

Lemma read_short d :
  length d < n -> read n (mkIfstream d true) = (d, mkIfstream [] false).
Proof.
  intros Hlt. unfold read. cbn. destruct (Nat.leb_spec n (length d)); [lia | reflexivity].
Qed.

(** Enough fuel: the loop run on a good stream holding [d] with more
    than [length d / n] reads left is the same whatever the fuel. *)
Lemma pushes_fuel d fuel fuel' :
  length d / n < fuel -> length d / n < fuel' ->
  pushes fuel n (mkIfstream d true) = pushes fuel' n (mkIfstream d true).
Proof.
  revert d fuel'. induction fuel as [|fuel IH]; intros d fuel' Hf Hf'; [lia|].
  destruct fuel' as [|fuel']; [lia|]. cbn [pushes is_good].
  destruct (Nat.leb_spec n (length d)) as [Hle|Hlt].
  - rewrite read_full by exact Hle. f_equal. pose proof (div_pos _ Hle). apply IH.
    + rewrite length_skipn, div_sub_one by exact Hle. lia.
    + rewrite length_skipn, div_sub_one by exact Hle. lia.
  - rewrite read_short by exact Hlt. destruct fuel, fuel'; reflexivity.
Qed.

(** The loop's first iteration, as an equation of [chunks]. *)
Lemma chunks_eq d :
  chunks n d = if n <=? length d then firstn n d :: chunks n (skipn n d) else [d].
Proof.
  unfold chunks at 1. cbn [pushes is_good]. destruct (Nat.leb_spec n (length d)) as [Hle|Hlt].
  - rewrite read_full by exact Hle. f_equal. pose proof (div_pos _ Hle). unfold chunks.
    apply pushes_fuel; rewrite length_skipn, div_sub_one by exact Hle;
      pose proof (Nat.Div0.mul_div_le (length d) n); nia.
  - rewrite read_short by exact Hlt. destruct (length d); reflexivity.
Qed.

(** Induction on the file, one buffer at a time. *)
Lemma chunks_rect (P : list Byte.byte -> Prop) :
  (forall d, length d < n -> P d) ->
  (forall d, n <= length d -> P (skipn n d) -> P d) ->
  forall d, P d.
Proof.
  intros Hshort Hfull d. remember (length d) as k eqn:Hk. revert d Hk.
  induction k as [k IH] using lt_wf_ind. intros d Hk.
  destruct (Nat.leb_spec n (length d)) as [Hle|Hlt]; [|now apply Hshort].
  apply Hfull; [exact Hle|]. apply (IH (length (skipn n d))); [rewrite length_skipn; lia|reflexivity].
Qed.

Lemma seq_shift_map {A} (f : nat -> A) start len :
  map f (seq (S start) len) = map (fun i => f (S i)) (seq start len).
Proof. rewrite <- seq_shift, map_map. reflexivity. Qed.

(** The buffers of a file, in closed form: [length d / n] full
    buffers, the [i]-th holding bytes [i*n] to [i*n + n - 1], then the
    rest of the file. *)
Lemma chunks_shape d :
  chunks n d = map (fun i => firstn n (skipn (i * n) d)) (seq 0 (length d / n))
               ++ [skipn (length d / n * n) d].
Proof.
  induction d as [d Hlt|d Hle IH] using chunks_rect; rewrite chunks_eq.
  - destruct (Nat.leb_spec n (length d)); [lia|]. rewrite Nat.div_small by exact Hlt. reflexivity.
  - destruct (Nat.leb_spec n (length d)); [|lia].
    rewrite IH, length_skipn, div_sub_one by exact Hle. pose proof (div_pos _ Hle).
    destruct (length d / n) as [|q]; [lia|]. replace (S q - 1) with q by lia.
    cbn [seq map app]. rewrite seq_shift_map, Nat.mul_0_l, skipn_O, skipn_skipn. f_equal. f_equal.
    + apply map_ext. intros i. rewrite skipn_skipn. do 2 f_equal. lia.
    + do 2 f_equal. lia.
Qed.

Lemma chunks_concat_gen d : concat (chunks n d) = d.
Proof.
  induction d as [d Hlt|d Hle IH] using chunks_rect; rewrite chunks_eq.
  - destruct (Nat.leb_spec n (length d)); [lia|]. apply app_nil_r.
  - destruct (Nat.leb_spec n (length d)); [|lia]. cbn [concat]. rewrite IH. apply firstn_skipn.
Qed.

Lemma full_chunk_length (d : list Byte.byte) i :
  i < length d / n -> length (firstn n (skipn (i * n) d)) = n.
Proof.
  intros Hi. rewrite length_firstn, length_skipn.
  pose proof (Nat.Div0.mul_div_le (length d) n). nia.
Qed.

Lemma last_chunk_length (d : list Byte.byte) :
  length (skipn (length d / n * n) d) = length d mod n.
Proof. rewrite length_skipn. pose proof (Nat.div_mod_eq (length d) n). nia. Qed.

End Chunks.

Lemma buffSize_pos : 0 < buffSize.
Proof. apply Nat.ltb_lt. reflexivity. Qed.

Lemma pushes_closed fuel n : pushes fuel n (open_ifstream None) = [].
Proof. destruct fuel; reflexivity. Qed.

(** ** The audio thread's buffers *)

(** C7. Round trip: the buffers the audio thread pushes for test.wav,
    put end to end, are the file. *)
Theorem stream_chunks_roundtrip d : concat (chunks buffSize d) = d.
Proof. exact (chunks_concat_gen _ buffSize_pos d). Qed.

(** C8. Bounds: a file of [len] bytes is pushed in [len / 8192 + 1]
    buffers; every buffer but the last holds exactly 8192 bytes, and
    the last holds [len mod 8192] bytes, so it is empty (an empty
    [pushAudio]) when the size is a multiple of 8192. *)
Theorem stream_chunks_bounds d :
  length (chunks buffSize d) = length d / buffSize + 1 /\
  Forall (fun c => length c = buffSize) (removelast (chunks buffSize d)) /\
  length (last (chunks buffSize d) []) = length d mod buffSize.
Proof.
  rewrite (chunks_shape _ buffSize_pos), removelast_last, last_last, length_app, length_map, length_seq.
  split; [cbn; lia|]. split; [|apply last_chunk_length, buffSize_pos].
  apply Forall_forall. intros c Hc. apply in_map_iff in Hc as (i & <- & Hi).
  apply in_seq in Hi. apply full_chunk_length; [apply buffSize_pos | lia].
Qed.

(** Termination: the [while (infile.good())] loop stops after at
    most [len / 8192 + 1] reads of a file that opened: with that much
    fuel or more it pushes exactly [chunks buffSize d]. *)
Theorem stream_pushes_file d fuel :
  length d / buffSize < fuel -> pushes fuel buffSize (open_ifstream (Some d)) = chunks buffSize d.
Proof.
  intros Hf. apply (pushes_fuel _ buffSize_pos); [exact Hf|].
  pose proof (Nat.Div0.mul_div_le (length d) buffSize). pose proof buffSize_pos. nia.
Qed.

Lemma stream_pushes_file_witness :
  length three_bytes / buffSize < 1 /\
  pushes 1 buffSize (open_ifstream (Some three_bytes)) = chunks buffSize three_bytes.
Proof.
  split; [vm_compute; lia|]. apply stream_pushes_file. vm_compute. lia.
Defined.
