(* ===== verification/Streaming.v ===== *)
(** * The two threads of a streaming recognition

    After [client.streamingRecognize(cfg)] the streaming clients
    (stream_client.cpp lines 65-94, context_client.cpp lines 111-140)
    run two threads over one [CubicStream]:
    - the audio thread (lines 65-78) reads test.wav with
      [infile.read(buff, 8192)] and pushes each buffer while
      [infile.good()], then calls [stream.audioFinished()];
    - the main thread (lines 81-94) prints the final results of every
      [RecognitionResponse] that [stream.receiveResults(&resp)] returns,
      until it returns false; then [audioThread.join()] and
      [stream.close()], and "Done." after the try block.

    Module [Streaming] models the run as a step relation on a global
    state: the audio thread's program point (its [ifstream] while it is
    in its loop), the main thread's program point, the stream as both
    sides see it, and the client's world, which holds the console.  The
    server is the environment: it sends responses into the stream and
    ends its side at any moment, with an ok or an error status that
    [close()] reports (as a [CubicException]).  [receiveResults] blocks
    while no response is waiting and the server has not ended; [join]
    blocks until the audio thread has finished.  Each thread step is an
    executable function ([audio_step], [main_step]); [exec] and [run]
    execute a schedule, and [step_exec] shows that [step] is exactly
    what the schedules do.

    Three invariants hold on every reachable state, each proved by
    induction on the run: [audio_inv] (the buffers pushed are a prefix
    of the file's), [finished_inv] ([audioFinished] exactly when the
    audio thread is done) and [main_inv] (what the main thread has
    printed, and the order of its calls).

    [areachable] adds the aborts: where a thread is at an SDK call whose
    exception nothing catches, the run may end through
    [std::terminate] ([Prelude.astep]).

    The main thread takes a response in one step and prints one result
    of it per step, a line ([std::cout << t << std::endl]) being one
    event of the console, so that an abort coming from the audio thread
    can fall between two lines of one response.  The "Transcripts:"
    header of line 81 is printed by the main function before the state
    of this file is built: only the main thread writes to the console,
    so the order of that write with the audio thread's first pushes is
    not observable. *)

From Stdlib Require Import String List Lia PeanoNat.
From S2P Require Import Prelude Client Cubic CubicMock FileStream.
Import ListNotations.

Module Streaming.

(** The audio thread: in its loop with its [ifstream], or finished. *)
Inductive apc : Type :=
| ALoop (f : ifstream)
| ADone.

(** The main thread from line 83 on; [MPrint rest] is inside the [for]
    loop of lines 84-89 with the results [resp.results(i..)] left. *)
Inductive mpc : Type :=
| MRecv
| MPrint (rest : list RecognitionResult)
| MJoin
| MClose
| MDone
| MUB (what : string).

Record stream : Type := mkStream {
  st_pushed : list (list Byte.byte);       (** the [pushAudio] calls *)
  st_finished : bool;                       (** [audioFinished] called *)
  st_read : list RecognitionResponse;       (** responses received *)
  st_outbox : list RecognitionResponse;     (** sent, not yet received *)
  st_ended : bool;                          (** the server ended its side *)
  st_status : option string;                (** its error status, if any *)
  st_closed : bool                          (** [close] called *)
}.

Definition empty_stream : stream := mkStream [] false [] [] false None false.

Section Threads.
Context {Srv : Type} `{CubicServer Srv}.

Record state : Type := mkState {
  s_audio : apc;
  s_main : mpc;
  s_stream : stream;
  s_world : CWorld Srv
}.

Definition with_stream (s : state) (st : stream) : state :=
  mkState (s_audio s) (s_main s) st (s_world s).

(** The server sends a response, or ends its side. *)
Definition srv_send (r : RecognitionResponse) (st : stream) : stream :=
  mkStream (st_pushed st) (st_finished st) (st_read st) (st_outbox st ++ [r])
    (st_ended st) (st_status st) (st_closed st).

Definition srv_end (status : option string) (st : stream) : stream :=
  mkStream (st_pushed st) (st_finished st) (st_read st) (st_outbox st) true status (st_closed st).

(** [stream.pushAudio(buff, infile.gcount())]. *)
Definition pushAudio (buf : list Byte.byte) (st : stream) : stream :=
  mkStream (st_pushed st ++ [buf]) (st_finished st) (st_read st) (st_outbox st)
    (st_ended st) (st_status st) (st_closed st).

(** [stream.audioFinished()]. *)
Definition audioFinished (st : stream) : stream :=
  mkStream (st_pushed st) true (st_read st) (st_outbox st) (st_ended st) (st_status st) (st_closed st).

(** [stream.close()]: an error status is thrown as a [CubicException]. *)
Definition close (st : stream) : stream :=
  mkStream (st_pushed st) (st_finished st) (st_read st) (st_outbox st) (st_ended st)
    (st_status st) true.

Definition close_status (st : stream) : M (CWorld Srv) unit :=
  match st_status st with
  | None => ret tt
  | Some msg => throw (ClientError msg)
  end.

(** One iteration of the audio loop (lines 70-73), or its exit and
    [audioFinished] (line 76). *)
Definition audio_step (s : state) : option state :=
  match s_audio s with
  | ALoop f =>
      if is_good f
      then let '(buf, f') := read buffSize f in
           Some (mkState (ALoop f') (s_main s) (pushAudio buf (s_stream s)) (s_world s))
      else Some (mkState ADone (s_main s) (audioFinished (s_stream s)) (s_world s))
  | ADone => None
  end.

(** [receiveResults] takes the first response waiting. *)
Definition take_response (st : stream) : stream :=
  mkStream (st_pushed st) (st_finished st) (st_read st ++ firstn 1 (st_outbox st))
    (tl (st_outbox st)) (st_ended st) (st_status st) (st_closed st).

(** One step of the main thread; [None] when it is blocked or done.
    [receiveResults] (line 83) takes the first response waiting; the
    loop of lines 84-89 then prints one result per step, so that the
    audio thread, and an abort, can come between two lines of one
    response.  A response on which the loop reads [alternatives(0)] out
    of range makes the execution undefined as a whole (the standard puts
    no requirement on it, not even on the lines printed before), so the
    run goes to [MUB] as soon as it is received, with the console
    [printResults] leaves. *)
Definition main_step (s : state) : option state :=
  match s_main s with
  | MRecv =>
      match st_outbox (s_stream s) with
      | r :: _ =>
          match printResults r (s_world s) with
          | (Ok _, _) => Some (mkState (s_audio s) (MPrint (results r)) (take_response (s_stream s)) (s_world s))
          | (Throw (UndefinedBehaviour what), w') =>
              Some (mkState (s_audio s) (MUB what) (take_response (s_stream s)) w')
          | (Throw _, w') => None
          end
      | [] => if st_ended (s_stream s) then Some (mkState (s_audio s) MJoin (s_stream s) (s_world s))
              else None
      end
  | MPrint [] => Some (mkState (s_audio s) MRecv (s_stream s) (s_world s))
  | MPrint (result :: rest) =>
      match printResult result (s_world s) with
      | (Ok _, w') => Some (mkState (s_audio s) (MPrint rest) (s_stream s) w')
      | (Throw (UndefinedBehaviour what), w') => Some (mkState (s_audio s) (MUB what) (s_stream s) w')
      | (Throw _, _) => None
      end
  | MJoin =>
      match s_audio s with
      | ADone => Some (mkState ADone MClose (s_stream s) (s_world s))
      | ALoop _ => None
      end
  | MClose =>
      Some (mkState (s_audio s) MDone (close (s_stream s))
              (snd (finish (close_status (s_stream s)) (s_world s))))
  | MDone | MUB _ => None
  end.

(** The steps of the whole program, server included. *)
Inductive step : state -> state -> Prop :=
| StepAudio s s' : audio_step s = Some s' -> step s s'
| StepMain s s' : main_step s = Some s' -> step s s'
| StepSend s r : st_ended (s_stream s) = false -> step s (with_stream s (srv_send r (s_stream s)))
| StepEnd s status : st_ended (s_stream s) = false -> step s (with_stream s (srv_end status (s_stream s))).

(** A schedule: who moves next. *)
Inductive sched : Type :=
| Audio
| Main
| Send (r : RecognitionResponse)
| End (status : option string).

Definition exec (c : sched) (s : state) : option state :=
  match c with
  | Audio => audio_step s
  | Main => main_step s
  | Send r => if st_ended (s_stream s) then None else Some (with_stream s (srv_send r (s_stream s)))
  | End status => if st_ended (s_stream s) then None else Some (with_stream s (srv_end status (s_stream s)))
  end.

Fixpoint run (cs : list sched) (s : state) : option state :=
  match cs with
  | [] => Some s
  | c :: cs' => match exec c s with Some s' => run cs' s' | None => None end
  end.

(** The state right after [std::thread audioThread(...)] in a world
    whose files are [c_files w]. *)
Definition init (w : CWorld Srv) : state :=
  mkState (ALoop (open_ifstream (c_files w filename))) MRecv empty_stream w.

Definition reachable (w : CWorld Srv) (s : state) : Prop := star step (init w) s.

(** The SDK calls that may throw where no handler will run: the main
    thread's [receiveResults] (line 83), whose exception would leave the
    try block while [audioThread] is still joinable, so that the
    thread's destructor calls [std::terminate]; and the audio thread's
    [pushAudio] or [audioFinished] (lines 72 and 76), whose exception
    would leave the thread's function, whatever line the main thread is
    printing.  [close()] (line 94) comes after
    the join, and its exception is caught ([close_status]). *)
Definition sdk_call (s : state) : bool :=
  match s_main s, s_audio s with
  | MRecv, _ => true
  | _, ALoop _ => true
  | _, ADone => false
  end.

(** The runs in which one of those calls may throw. *)
Definition areachable (w : CWorld Srv) (x : run_state state) : Prop :=
  star (astep step (fun s => sdk_call s = true)) (Running (init w)) x.

End Threads.

(** ** What a run must do *)

(** The buffers the audio thread has still to push. *)
Definition remaining_pushes (f : ifstream) : list (list Byte.byte) :=
  if is_good f then chunks buffSize (is_data f) else [].

(** All the buffers of the file, [chunks buffSize d] for a file that
    opened, none for one that did not. *)
Definition file_pushes {S} (w : CWorld S) : list (list Byte.byte) :=
  remaining_pushes (open_ifstream (c_files w filename)).

Definition transcripts_of (rs : list RecognitionResponse) : list CEvent :=
  flat_map response_lines rs.

(** What the end of [main] prints after the loop: the close error, if
    any, then "Done.". *)
Definition close_output (status : option string) : list CEvent :=
  match status with
  | None => []
  | Some msg => [CErr [OStr "Cubic error: "; OStr msg; endl]]
  end ++ [COut [OStr (String.append nl "Done."); endl]].

Section Invariants.
Context {Srv : Type} `{CubicServer Srv}.
Variable w : CWorld Srv.

(** The audio thread has pushed a prefix of the file's buffers, the rest
    being what its [ifstream] still holds. *)
Definition audio_inv (s : @state Srv) : Prop :=
  match s_audio s with
  | ALoop f => st_pushed (s_stream s) ++ remaining_pushes f = file_pushes w
  | ADone => st_pushed (s_stream s) = file_pushes w
  end.

(** [audioFinished] has been called exactly when the thread is done. *)
Definition finished_inv (s : @state Srv) : Prop :=
  st_finished (s_stream s) = match s_audio s with ALoop _ => false | ADone => true end.

(** The main thread has printed the transcripts of the responses it
    received, in order, but for the lines of the results it has still
    to print of the last one; it joins only once the server has ended and
    every response is read, closes only after the join, and undefined
    behaviour comes from a response it received. *)
Definition main_inv (s : @state Srv) : Prop :=
  let st := s_stream s in
  match s_main s with
  | MRecv => st_closed st = false /\ c_log (s_world s) = c_log w ++ transcripts_of (st_read st)
  | MPrint rs => st_closed st = false /\ forallb result_ok rs = true /\
                 c_log (s_world s) ++ flat_map result_line rs = c_log w ++ transcripts_of (st_read st)
  | MJoin => st_closed st = false /\ st_ended st = true /\ st_outbox st = [] /\
             c_log (s_world s) = c_log w ++ transcripts_of (st_read st)
  | MClose => st_closed st = false /\ st_ended st = true /\ st_outbox st = [] /\
              s_audio s = ADone /\ c_log (s_world s) = c_log w ++ transcripts_of (st_read st)
  | MDone => st_closed st = true /\ st_ended st = true /\ st_outbox st = [] /\ s_audio s = ADone /\
             c_log (s_world s) = c_log w ++ transcripts_of (st_read st) ++ close_output (st_status st)
  | MUB _ => st_closed st = false /\ exists r, In r (st_read st) /\ well_formed r = false
  end.

End Invariants.

(** A measure of the work left to the two threads once the server has
    ended: the audio thread's reads, the responses to print and the
    main thread's program point. *)
Definition audio_measure (a : apc) : nat :=
  match a with
  | ALoop f => S (if is_good f then S (length (is_data f)) else 0)
  | ADone => 0
  end.

Definition main_rank (m : mpc) : nat :=
  match m with
  | MPrint rs => 4 + length rs
  | MRecv => 3
  | MJoin => 2
  | MClose => 1
  | MDone | MUB _ => 0
  end.

(** A response waiting weighs its results and the two steps around
    them. *)
Definition outbox_weight (rs : list RecognitionResponse) : nat :=
  fold_right (fun r n => 2 + length (results r) + n) 0 rs.
Arguments outbox_weight : simpl never.

Definition measure {S} (s : @state S) : nat :=
  audio_measure (s_audio s) + outbox_weight (st_outbox (s_stream s)) + main_rank (s_main s).

(** The run is over: [main] printed "Done.", or it had undefined
    behaviour. *)
Definition final {S} (s : @state S) : Prop :=
  s_main s = MDone \/ exists what, s_main s = MUB what.

Definition stream_w0 : CWorld CMock := cworld good_mock wav_files [].

(** The audio thread pushes test.wav and finishes, the server sends one
    response and ends, the main thread prints it, joins and closes. *)
Definition done_schedule : list sched :=
  [Audio; Audio; Send hello_response; End None; Main; Main; Main; Main; Main; Main; Main].

Definition state_after (cs : list sched) : @state CMock :=
  match run cs (init stream_w0) with Some s => s | None => init stream_w0 end.

Section Proofs.
Context {Srv : Type} `{CubicServer Srv}.

Lemma classic_final (s : @state Srv) : final s \/ ~ final s.
Proof.
  unfold final. destruct (s_main s); [right | right | right | right | left; left; reflexivity | left; right; eauto];
    intros [Hm | [? Hm]]; discriminate.
Qed.

Lemma remaining_read f :
  is_good f = true ->
  remaining_pushes f = fst (read buffSize f) :: remaining_pushes (snd (read buffSize f)).
Proof.
  destruct f as [d g]. cbn [is_good]. intros ->. unfold remaining_pushes. cbn [is_good is_data].
  rewrite (chunks_eq _ buffSize_pos). destruct (Nat.leb_spec buffSize (length d)) as [Hle|Hlt].
  - rewrite read_full by first [exact buffSize_pos | exact Hle]. reflexivity.
  - rewrite read_short by first [exact buffSize_pos | exact Hlt]. reflexivity.
Qed.

Lemma finish_close_status (st : stream) (w0 : CWorld Srv) :
  snd (finish (close_status st) w0) = log_append w0 (close_output (st_status st)).
Proof.
  unfold finish, close_status, close_output, log_append.
  destruct (st_status st); cbn; [rewrite <- app_assoc|]; reflexivity.
Qed.

Lemma transcripts_of_snoc rs r : transcripts_of (rs ++ [r]) = transcripts_of rs ++ response_lines r.
Proof. unfold transcripts_of. rewrite flat_map_app. cbn. rewrite app_nil_r. reflexivity. Qed.

Lemma audio_inv_step (w : CWorld Srv) s s' : audio_inv w s -> step s s' -> audio_inv w s'.
Proof.
  intros Hinv Hs. destruct Hs as [s s' Ha|s s' Hm|s r _|s status _]; unfold audio_inv in *.
  - unfold audio_step in Ha. destruct (s_audio s) as [f|] eqn:Hf; [|discriminate].
    destruct (is_good f) eqn:Hg.
    + rewrite (remaining_read f Hg) in Hinv. destruct (read buffSize f) as [buf f'].
      injection Ha as <-. cbn. rewrite <- app_assoc. exact Hinv.
    + injection Ha as <-. cbn. unfold remaining_pushes in Hinv. rewrite Hg, app_nil_r in Hinv. exact Hinv.
  - unfold main_step in Hm.
    repeat (split_match_in Hm; try discriminate); injection Hm as <-; cbn in *;
      try rewrite Heqa; exact Hinv.
  - exact Hinv.
  - exact Hinv.
Qed.

Lemma finished_inv_step (s s' : @state Srv) : finished_inv s -> step s s' -> finished_inv s'.
Proof.
  intros Hinv Hs. destruct Hs as [s s' Ha|s s' Hm|s r _|s status _]; unfold finished_inv in *.
  - unfold audio_step in Ha. destruct (s_audio s) as [f|] eqn:Hf; [|discriminate].
    destruct (is_good f); [destruct (read buffSize f)|]; injection Ha as <-; cbn; [exact Hinv | reflexivity].
  - unfold main_step in Hm.
    repeat (split_match_in Hm; try discriminate); injection Hm as <-; cbn in *;
      try rewrite Heqa; exact Hinv.
  - exact Hinv.
  - exact Hinv.
Qed.

Lemma main_inv_step (w : CWorld Srv) s s' : main_inv w s -> step s s' -> main_inv w s'.
Proof.
  intros Hinv Hs. destruct Hs as [s s' Ha|s s' Hm|s r Hend|s status Hend]; unfold main_inv in *.
  - unfold audio_step in Ha. destruct (s_audio s) as [f|] eqn:Hf; [|discriminate].
    destruct (is_good f); [destruct (read buffSize f)|]; injection Ha as <-; cbn;
      destruct (s_main s); intuition congruence.
  - unfold main_step in Hm. destruct (s_main s) eqn:Hmain; try discriminate.
    + destruct (st_outbox (s_stream s)) as [|r rest] eqn:Ho.
      * destruct (st_ended (s_stream s)) eqn:He; [|discriminate].
        injection Hm as <-. cbn. intuition.
      * destruct (well_formed r) eqn:Hwf.
        -- rewrite printResults_ok in Hm by exact Hwf. injection Hm as <-. cbn.
           rewrite Ho. cbn [firstn]. rewrite transcripts_of_snoc.
           destruct Hinv as [Hc Hl]. rewrite Hl, <- app_assoc. split; [exact Hc | split; [exact Hwf | reflexivity]].
        -- destruct (printResults_ub r (s_world s) Hwf) as (what & w' & Hp).
           rewrite Hp in Hm. injection Hm as <-. cbn. rewrite Ho. cbn [firstn].
           split; [tauto|]. exists r. split; [apply in_or_app; right; left; reflexivity | exact Hwf].
    + destruct Hinv as (Hc & Hok & Hl). destruct rest as [|x rs].
      * injection Hm as <-. cbn. rewrite app_nil_r in Hl. tauto.
      * cbn in Hok. apply andb_prop in Hok as [Hx Hrs].
        rewrite printResult_ok in Hm by exact Hx. injection Hm as <-. cbn.
        split; [exact Hc|]. split; [exact Hrs|]. rewrite <- Hl. cbn. rewrite <- app_assoc. reflexivity.
    + destruct (s_audio s) eqn:Ha; [discriminate|]. injection Hm as <-. cbn. intuition.
    + injection Hm as <-. cbn. rewrite finish_close_status. cbn.
      destruct Hinv as (Hc & He & Ho & Ha & Hl). rewrite Hl, <- app_assoc. tauto.
  - cbn. destruct (s_main s); intuition congruence.
  - cbn. destruct (s_main s); intuition congruence.
Qed.

(** The invariants hold on every state a run reaches. *)
Lemma reachable_inv (w : CWorld Srv) s : reachable w s -> audio_inv w s /\ main_inv w s.
Proof.
  intros Hr. apply (star_invariant step (fun s => audio_inv w s /\ main_inv w s)) with (init w).
  - intros a b [Ha Hm] Hs. split; [exact (audio_inv_step w a b Ha Hs) | exact (main_inv_step w a b Hm Hs)].
  - exact Hr.
  - split; [reflexivity | split; [reflexivity | cbn; rewrite app_nil_r; reflexivity]].
Qed.

Lemma reachable_finished (w : CWorld Srv) s : reachable w s -> finished_inv s.
Proof.
  intros Hr. apply (star_invariant step finished_inv) with (init w); [exact finished_inv_step | exact Hr | reflexivity].
Qed.

Lemma read_measure f :
  is_good f = true ->
  (if is_good (snd (read buffSize f)) then S (length (is_data (snd (read buffSize f)))) else 0)
  < S (length (is_data f)).
Proof.
  destruct f as [d g]. cbn [is_good]. intros ->. pose proof buffSize_pos.
  destruct (Nat.leb_spec buffSize (length d)) as [Hle|Hlt].
  - rewrite read_full by first [assumption | exact Hle]. cbn. rewrite length_skipn. lia.
  - rewrite read_short by first [assumption | exact Hlt]. cbn. lia.
Qed.

Lemma outbox_weight_cons r rs : outbox_weight (r :: rs) = 2 + length (results r) + outbox_weight rs.
Proof. reflexivity. Qed.

Lemma main_step_measure (s s' : @state Srv) : main_step s = Some s' -> measure s' < measure s.
Proof.
  unfold main_step, measure. intros Hm. destruct (s_main s) as [|rs| | | |]; try discriminate.
  - destruct (st_outbox (s_stream s)) as [|r rest] eqn:Ho.
    + destruct (st_ended (s_stream s)); [|discriminate]. injection Hm as <-. cbn. rewrite Ho. cbn. lia.
    + rewrite outbox_weight_cons. unfold take_response.
      repeat (split_match_in Hm; try discriminate); injection Hm as <-; cbn; rewrite Ho; cbn; lia.
  - destruct rs as [|x rs]; [injection Hm as <-; cbn; lia|].
    repeat (split_match_in Hm; try discriminate); injection Hm as <-; cbn; lia.
  - destruct (s_audio s); [discriminate|]. injection Hm as <-. cbn. lia.
  - injection Hm as <-. cbn. lia.
Qed.

Lemma audio_step_measure (s s' : @state Srv) : audio_step s = Some s' -> measure s' < measure s.
Proof.
  unfold audio_step, measure. intros Ha. destruct (s_audio s) as [f|] eqn:Hf; [|discriminate].
  destruct (is_good f) eqn:Hg.
  - pose proof (read_measure f Hg). destruct (read buffSize f) as [buf f'].
    injection Ha as <-. cbn in *. rewrite Hg. lia.
  - injection Ha as <-. cbn. lia.
Qed.

(** An unfinished main thread whose server has ended and whose audio
    thread is done can always move. *)
Lemma main_progress (s : @state Srv) :
  s_audio s = ADone -> st_ended (s_stream s) = true -> ~ final s ->
  exists s', main_step s = Some s'.
Proof.
  intros Ha He Hf. unfold main_step. destruct (s_main s) eqn:Hm.
  - destruct (st_outbox (s_stream s)) as [|r rest].
    + rewrite He. eauto.
    + destruct (well_formed r) eqn:Hwf.
      * rewrite printResults_ok by exact Hwf. eauto.
      * destruct (printResults_ub r (s_world s) Hwf) as (what & w' & ->). eauto.
  - destruct rest as [|x rs]; [eauto|].
    destruct (printResult_cases x (s_world s)) as [(w' & ->) | (what & w' & ->)]; eauto.
  - rewrite Ha. eauto.
  - eauto.
  - exfalso. apply Hf. left. exact Hm.
  - exfalso. apply Hf. right. eauto.
Qed.

Lemma main_step_keeps (s s' : @state Srv) :
  main_step s = Some s' -> s_audio s' = s_audio s /\ st_ended (s_stream s') = st_ended (s_stream s).
Proof.
  unfold main_step. intros Hm. repeat (split_match_in Hm; try discriminate);
    injection Hm as <-; cbn; auto.
Qed.

(** The main thread alone runs to its end once the audio thread is done
    and the server has ended. *)
Lemma main_drains (s : @state Srv) :
  s_audio s = ADone -> st_ended (s_stream s) = true -> exists s', star step s s' /\ final s'.
Proof.
  induction s as [s IH] using (measure_induction (@measure Srv)). intros Ha He.
  destruct (classic_final s) as [Hf|Hf]; [exists s; split; [apply star_refl | exact Hf]|].
  destruct (main_progress s Ha He Hf) as [s' Hs'].
  destruct (main_step_keeps s s' Hs') as [Ha' He'].
  destruct (IH s' (main_step_measure s s' Hs')) as (s'' & Hst & Hfin); [congruence | congruence |].
  exists s''. split; [apply (star_step _ s s' s''); [apply StepMain, Hs' | exact Hst] | exact Hfin].
Qed.

(** The audio thread alone runs to its end. *)
Lemma audio_runs (s : @state Srv) :
  exists s', star step s s' /\ s_audio s' = ADone /\ st_ended (s_stream s') = st_ended (s_stream s).
Proof.
  induction s as [s IH] using (measure_induction (@measure Srv)).
  destruct (s_audio s) as [f|] eqn:Ha; [|exists s; split; [apply star_refl | split; [exact Ha | reflexivity]]].
  assert (exists s', audio_step s = Some s' /\ st_ended (s_stream s') = st_ended (s_stream s))
    as (s' & Hs & He).
  { unfold audio_step. rewrite Ha. destruct (is_good f); [destruct (read buffSize f)|]; eauto. }
  destruct (IH s' (audio_step_measure s s' Hs)) as (s'' & Hst & Ha'' & He'').
  exists s''. split; [apply (star_step _ s s' s''); [apply StepAudio, Hs | exact Hst] | split; congruence].
Qed.

(** [step] is what the schedules execute. *)
Lemma step_exec (s s' : @state Srv) : step s s' <-> exists c, exec c s = Some s'.
Proof.
  split.
  - intros [s0 s1 Ha|s0 s1 Hm|s0 r He|s0 st He]; [exists Audio | exists Main | exists (Send r) | exists (End st)];
      cbn; rewrite ?He; auto.
  - intros [[| |r|st] Hc]; cbn in Hc; [apply StepAudio, Hc | apply StepMain, Hc | |];
      destruct (st_ended (s_stream s)) eqn:He; try discriminate; injection Hc as <-; constructor; exact He.
Qed.

Lemma run_star cs (s s' : @state Srv) : run cs s = Some s' -> star step s s'.
Proof.
  revert s. induction cs as [|c cs IH]; intros s Hr; cbn in Hr; [injection Hr as <-; apply star_refl|].
  destruct (exec c s) as [s1|] eqn:Hc; [|discriminate].
  apply (star_step _ s s1 s'); [apply step_exec; eauto | exact (IH s1 Hr)].
Qed.

Lemma main_step_pushed (s s' : @state Srv) :
  main_step s = Some s' ->
  st_pushed (s_stream s') = st_pushed (s_stream s) /\ st_finished (s_stream s') = st_finished (s_stream s).
Proof.
  unfold main_step. intros Hm. repeat (split_match_in Hm; try discriminate);
    injection Hm as <-; cbn; auto.
Qed.

(** The pushes, the responses left and the console of a run that has
    printed "Done.", read off the two invariants. *)
Lemma done_pushed_log (w : CWorld Srv) s :
  reachable w s -> s_main s = MDone ->
  st_pushed (s_stream s) = file_pushes w /\ st_outbox (s_stream s) = [] /\
  c_log (s_world s) = c_log w ++ transcripts_of (st_read (s_stream s)) ++ close_output (st_status (s_stream s)).
Proof.
  intros Hr Hd. destruct (reachable_inv w s Hr) as [Ha Hm]. unfold main_inv in Hm. rewrite Hd in Hm.
  destruct Hm as (_ & _ & Ho & HA & Hl). unfold audio_inv in Ha. rewrite HA in Ha. auto.
Qed.

(** C3. End to end: when [main] has printed "Done." after the threads,
    the audio thread pushed exactly the buffers of test.wav and called
    [audioFinished], the stream is closed, every response the server
    sent was received, and the console holds, after what it held when
    the threads started, the transcripts of the final results of those
    responses in order, then the close error if there was one, then
    "Done.". *)
Theorem streaming_done (w : CWorld Srv) s :
  reachable w s -> s_main s = MDone ->
  st_pushed (s_stream s) = file_pushes w /\ st_finished (s_stream s) = true /\
  st_closed (s_stream s) = true /\ st_outbox (s_stream s) = [] /\
  c_log (s_world s) = c_log w ++ transcripts_of (st_read (s_stream s)) ++ close_output (st_status (s_stream s)).
Proof.
  intros Hr Hd. destruct (done_pushed_log w s Hr Hd) as (Hp & Ho & Hl).
  pose proof (reachable_finished w s Hr) as Hf. destruct (reachable_inv w s Hr) as [_ Hm].
  unfold main_inv, finished_inv in *. rewrite Hd in Hm. destruct Hm as (Hc & _ & _ & HA & _).
  rewrite HA in Hf. tauto.
Qed.

(** C6. Round trip through the threads: at the end of a run the
    buffers pushed, put end to end, are the content of test.wav; when
    the file does not open nothing is pushed, and no error is reported
    for it. *)
Theorem streaming_file_roundtrip (w : CWorld Srv) s :
  reachable w s -> s_main s = MDone ->
  concat (st_pushed (s_stream s)) = match c_files w filename with Some d => d | None => [] end.
Proof.
  intros Hr Hd. destruct (done_pushed_log w s Hr Hd) as (Hp & _). rewrite Hp. unfold file_pushes.
  destruct (c_files w filename) as [d|]; [apply (chunks_concat_gen _ buffSize_pos) | reflexivity].
Qed.

(** C17. Ordering of the audio calls: once [audioFinished] has been
    called, no step of the program pushes audio again, and the call is
    never undone. *)
Theorem streaming_no_push_after_finish (w : CWorld Srv) s s' :
  reachable w s -> step s s' -> st_finished (s_stream s) = true ->
  st_pushed (s_stream s') = st_pushed (s_stream s) /\ st_finished (s_stream s') = true.
Proof.
  intros Hr Hs Hf. pose proof (reachable_finished w s Hr) as Hfi. unfold finished_inv in Hfi.
  destruct (s_audio s) eqn:HA; [congruence|].
  destruct Hs as [s s' Hstep|s s' Hm|s r _|s st _].
  - unfold audio_step in Hstep. rewrite HA in Hstep. discriminate.
  - destruct (main_step_pushed s s' Hm) as [-> ->]. auto.
  - auto.
  - auto.
Qed.

(** C18. [close()] comes after [join()]: a closed stream belongs to a
    main thread that has finished, whose audio thread is done and has
    called [audioFinished]. *)
Theorem streaming_close_after_join (w : CWorld Srv) s :
  reachable w s -> st_closed (s_stream s) = true ->
  s_main s = MDone /\ s_audio s = ADone /\ st_finished (s_stream s) = true.
Proof.
  intros Hr Hc. destruct (reachable_inv w s Hr) as [Ha Hm]. unfold main_inv in Hm.
  destruct (s_main s) eqn:HM; try (destruct Hm as [Hc' _]; congruence).
  destruct Hm as (_ & _ & _ & HA & _). pose proof (reachable_finished w s Hr) as Hf.
  unfold finished_inv in Hf. rewrite HA in Hf. tauto.
Qed.

(** C19. Termination: once the server has ended its side every step of
    the program decreases [measure], so every run from there is finite. *)
Theorem streaming_terminates (s s' : @state Srv) :
  st_ended (s_stream s) = true -> step s s' -> measure s' < measure s.
Proof.
  intros He Hs. destruct Hs as [s s' Ha|s s' Hm|s r He'|s st He'].
  - exact (audio_step_measure s s' Ha).
  - exact (main_step_measure s s' Hm).
  - congruence.
  - congruence.
Qed.

(** C20. Liveness: from every state, the program can run to its end,
    "Done." or undefined behaviour; the server has only to end its
    side. *)
Theorem streaming_can_finish (s : @state Srv) : exists s', star step s s' /\ final s'.
Proof.
  destruct (audio_runs s) as (s1 & H1 & Ha1 & _).
  destruct (st_ended (s_stream s1)) eqn:He1.
  - destruct (main_drains s1 Ha1 He1) as (s2 & H2 & Hf). eauto using star_trans.
  - set (s2 := with_stream s1 (srv_end None (s_stream s1))).
    destruct (main_drains s2 Ha1 eq_refl) as (s3 & H3 & Hf).
    exists s3. split; [|exact Hf]. apply (star_trans _ s s1 s3); [exact H1|].
    apply (star_step _ s1 s2 s3); [apply StepEnd, He1 | exact H3].
Qed.

(** C32. Undefined behaviour in the transcript loop: a run reaches it
    only through a received response with a final result without
    alternative, and any such response, sent first, makes the next
    [receiveResults] turn read [alternatives(0)] out of range. *)
Theorem streaming_alternatives_ub (w : CWorld Srv) :
  (forall s what, reachable w s -> s_main s = MUB what ->
     exists r, In r (st_read (s_stream s)) /\ well_formed r = false) /\
  (forall r, well_formed r = false ->
     exists s what, run [Send r; Main] (init w) = Some s /\ s_main s = MUB what).
Proof.
  split.
  - intros s what Hr Hm. destruct (reachable_inv w s Hr) as [_ Hinv]. unfold main_inv in Hinv.
    rewrite Hm in Hinv. tauto.
  - intros r Hwf. destruct (printResults_ub r w Hwf) as (what & w' & Hp).
    cbn [run exec s_stream init empty_stream st_ended]. unfold main_step.
    cbn [s_main with_stream s_stream st_outbox srv_send init app s_world empty_stream].
    rewrite Hp. do 2 eexists. split; reflexivity.
Qed.

(** C15. An exception of the SDK inside the threads is never reported:
    when [receiveResults], [pushAudio] or [audioFinished] throws, the
    process ends through [std::terminate] in a state where "Done." has
    not been printed and the stream has not been closed, and where,
    unless the transcript loop had undefined behaviour, the console
    holds, after what it held when the threads started, a prefix of the
    transcripts of the responses received: the lines of the response
    being printed may stop short, and no "Cubic error:" line follows. *)
Theorem streaming_sdk_error_aborts (w : CWorld Srv) s :
  areachable w (Aborted s) ->
  s_main s <> MDone /\ st_closed (s_stream s) = false /\
  match s_main s with
  | MUB _ => True
  | _ => prefix (c_log (s_world s)) (c_log w ++ transcripts_of (st_read (s_stream s)))
  end.
Proof.
  intros Ha. destruct (astar_aborted _ _ _ _ Ha) as [Hr Hc].
  destruct (reachable_inv w s Hr) as [_ Hm]. unfold main_inv, sdk_call, prefix in *.
  destruct (s_main s), (s_audio s); try discriminate; intuition (try congruence);
    first [exists []; rewrite app_nil_r; assumption | eexists; eassumption].
Qed.

End Proofs.

(** ** Runs against the scripted server *)

Lemma streaming_done_witness :
  reachable stream_w0 (state_after done_schedule) /\ s_main (state_after done_schedule) = MDone /\
  st_pushed (s_stream (state_after done_schedule)) = file_pushes stream_w0 /\
  st_finished (s_stream (state_after done_schedule)) = true /\
  st_closed (s_stream (state_after done_schedule)) = true /\
  st_outbox (s_stream (state_after done_schedule)) = [] /\
  c_log (s_world (state_after done_schedule)) =
    c_log stream_w0 ++ transcripts_of (st_read (s_stream (state_after done_schedule)))
      ++ close_output (st_status (s_stream (state_after done_schedule))).
Proof.
  assert (Hr : reachable stream_w0 (state_after done_schedule))
    by (apply (run_star done_schedule); vm_compute; reflexivity).
  assert (Hd : s_main (state_after done_schedule) = MDone) by (vm_compute; reflexivity).
  split; [exact Hr|]. split; [exact Hd|]. exact (streaming_done stream_w0 _ Hr Hd).
Defined.

Lemma streaming_file_roundtrip_witness :
  reachable stream_w0 (state_after done_schedule) /\ s_main (state_after done_schedule) = MDone /\
  concat (st_pushed (s_stream (state_after done_schedule))) =
    match c_files stream_w0 filename with Some d => d | None => [] end.
Proof.
  assert (Hr : reachable stream_w0 (state_after done_schedule))
    by (apply (run_star done_schedule); vm_compute; reflexivity).
  assert (Hd : s_main (state_after done_schedule) = MDone) by (vm_compute; reflexivity).
  split; [exact Hr|]. split; [exact Hd|]. exact (streaming_file_roundtrip stream_w0 _ Hr Hd).
Defined.

Lemma streaming_no_push_after_finish_witness :
  reachable stream_w0 (state_after [Audio; Audio]) /\
  step (state_after [Audio; Audio]) (state_after [Audio; Audio; Send hello_response]) /\
  st_finished (s_stream (state_after [Audio; Audio])) = true /\
  st_pushed (s_stream (state_after [Audio; Audio; Send hello_response])) =
    st_pushed (s_stream (state_after [Audio; Audio])) /\
  st_finished (s_stream (state_after [Audio; Audio; Send hello_response])) = true.
Proof.
  assert (Hr : reachable stream_w0 (state_after [Audio; Audio]))
    by (apply (run_star [Audio; Audio]); vm_compute; reflexivity).
  assert (Hs : step (state_after [Audio; Audio]) (state_after [Audio; Audio; Send hello_response]))
    by (apply StepSend; vm_compute; reflexivity).
  assert (Hf : st_finished (s_stream (state_after [Audio; Audio])) = true) by (vm_compute; reflexivity).
  split; [exact Hr|]. split; [exact Hs|]. split; [exact Hf|].
  exact (streaming_no_push_after_finish stream_w0 _ _ Hr Hs Hf).
Defined.

Lemma streaming_close_after_join_witness :
  reachable stream_w0 (state_after done_schedule) /\
  st_closed (s_stream (state_after done_schedule)) = true /\
  s_main (state_after done_schedule) = MDone /\ s_audio (state_after done_schedule) = ADone /\
  st_finished (s_stream (state_after done_schedule)) = true.
Proof.
  assert (Hr : reachable stream_w0 (state_after done_schedule))
    by (apply (run_star done_schedule); vm_compute; reflexivity).
  assert (Hc : st_closed (s_stream (state_after done_schedule)) = true) by (vm_compute; reflexivity).
  split; [exact Hr|]. split; [exact Hc|]. exact (streaming_close_after_join stream_w0 _ Hr Hc).
Defined.

Lemma streaming_terminates_witness :
  st_ended (s_stream (state_after [End None])) = true /\
  step (state_after [End None]) (state_after [End None; Audio]) /\
  measure (state_after [End None; Audio]) < measure (state_after [End None]).
Proof.
  assert (He : st_ended (s_stream (state_after [End None])) = true) by (vm_compute; reflexivity).
  assert (Hs : step (state_after [End None]) (state_after [End None; Audio]))
    by (apply StepAudio; vm_compute; reflexivity).
  split; [exact He|]. split; [exact Hs|]. exact (streaming_terminates _ _ He Hs).
Defined.

Lemma streaming_alternatives_ub_witness :
  well_formed broken_response = false /\
  exists s what, run [Send broken_response; Main] (init stream_w0) = Some s /\ s_main s = MUB what.
Proof.
  assert (Hb : well_formed broken_response = false) by reflexivity.
  split; [exact Hb|]. exact (proj2 (streaming_alternatives_ub stream_w0) broken_response Hb).
Defined.

Lemma streaming_sdk_error_aborts_witness :
  areachable stream_w0 (Aborted (state_after [Audio; Send hello_response; Main])) /\
  s_main (state_after [Audio; Send hello_response; Main]) <> MDone /\
  st_closed (s_stream (state_after [Audio; Send hello_response; Main])) = false /\
  match s_main (state_after [Audio; Send hello_response; Main]) with
  | MUB _ => True
  | _ => prefix (c_log (s_world (state_after [Audio; Send hello_response; Main])))
           (c_log stream_w0 ++ transcripts_of (st_read (s_stream (state_after [Audio; Send hello_response; Main]))))
  end.
Proof.
  assert (Ha : areachable stream_w0 (Aborted (state_after [Audio; Send hello_response; Main]))).
  { unfold areachable. apply (star_trans _ _ (Running (state_after [Audio; Send hello_response; Main]))).
    - apply astar_lift, (run_star [Audio; Send hello_response; Main]). vm_compute. reflexivity.
    - apply star_one, astep_abort. vm_compute. reflexivity. }
  split; [exact Ha | exact (streaming_sdk_error_aborts stream_w0 _ Ha)].
Defined.

End Streaming.
