(* ===== verification/SyncClient.v ===== *)
(** * The synchronous recognition client: src/cubic/synchronous_client.cpp

    Module [SyncClient] translates [main] (lines 35-83): the header, the
    model list, the configuration built from [models[0]], the whole of
    test.wav read through [std::istreambuf_iterator], one [recognize]
    call, and the transcript loop, all in the try block whose catch
    clauses print the error before "Done.".

    The theorems: a run against a server that answers gives exactly the
    expected console and calls, with the whole file in the request;
    an empty model list is undefined behaviour before any request is
    made; a server error ends the run with "Cubic error:" and "Done.". *)

From Stdlib Require Import String List.
From S2P Require Import Prelude Client Cubic CubicMock.
Import ListNotations.

Module SyncClient.

(** What [std::string data(std::istreambuf_iterator<char>(infile), ...)]
    holds. *)
Definition fileContents (files : string -> option (list Byte.byte)) : list Byte.byte :=
  match files filename with Some d => d | None => [] end.

Section Main.
Context {Srv : Type} `{CubicServer Srv}.

(** Line 51 (and line 52 of stream_client.cpp, 69 of mic_client.cpp). *)
Definition printModel (m : CubicModel) : M (CWorld Srv) unit :=
  cout [OStr "ID = "; OStr (id m); OStr ", Name = "; OStr (name m); endl].

(** Lines 48-52. *)
Definition printModels (models : list CubicModel) : M (CWorld Srv) unit :=
  cout [OStr "Available Models:"; endl] ;;
  for_each printModel models.

(** Lines 55-58: the configuration of the first model. *)
Definition configOf (model : CubicModel) : RecognitionConfig :=
  mkRecognitionConfig (id model) WAV [].

(** Lines 61-63: the bytes of the file; a file that does not open gives
    an empty string. *)
Definition readFile : M (CWorld Srv) (list Byte.byte) :=
  fun w => (Ok (fileContents (c_files w)), w).

(** The try block, lines 37-75. *)
Definition body : M (CWorld Srv) unit :=
  printHeader ;;
  models <- listModels ;;
  printModels models ;;
  model <- firstModel models ;;
  data <- readFile ;;
  resp <- recognize (configOf model) data ;;
  cout [OStr (String.append nl "Transcripts:"); endl] ;;
  printResults resp.

Definition main : M (CWorld Srv) unit := finish body.

End Main.

(** What a successful run prints, from the versions, the model list and
    the response. *)
Definition header_log (v sv : string) : list CEvent :=
  [COut [OStr "Cubic version: "]; CCall CallCubicVersion; COut [OStr v; endl];
   COut [OStr "Server version: "]; CCall CallServerVersion; COut [OStr sv; endl];
   COut [OStr "Connected to "; OStr serverAddress; endl]; COut [endl]].

Definition models_log (models : list CubicModel) : list CEvent :=
  COut [OStr "Available Models:"; endl] ::
  map (fun m => COut [OStr "ID = "; OStr (id m); OStr ", Name = "; OStr (name m); endl]) models.

Definition sync_w0 : CWorld CMock := cworld good_mock wav_files [].
Definition failing_mock : CMock := mkCMock [airport_model] hello_response (Some "unavailable"%string).
Definition empty_mock : CMock := mkCMock [] hello_response None.

Section Proofs.
Context {Srv : Type} `{CubicServer Srv}.

Lemma printHeader_run (w : CWorld Srv) s1 s2 v sv :
  cb_cubicVersion (c_srv w) = (s1, Ok v) -> cb_serverVersion s1 = (s2, Ok sv) ->
  printHeader w = (Ok tt, mkCWorld s2 (c_files w) (c_stdin w) (c_log w ++ header_log v sv)).
Proof.
  intros H1 H2. unfold printHeader, cubicVersion, serverVersion, rpc, bind, cout, log_event, modify.
  cbn [c_srv]. rewrite H1. cbn [c_srv]. rewrite H2. cbn. repeat rewrite <- app_assoc. reflexivity.
Qed.

Lemma for_each_printModel_run (w : CWorld Srv) models :
  for_each printModel models w =
  (Ok tt, log_append w (map (fun m => COut [OStr "ID = "; OStr (id m); OStr ", Name = "; OStr (name m); endl]) models)).
Proof.
  revert w. induction models as [|m ms IH]; intros w; cbn.
  - rewrite log_append_nil. reflexivity.
  - unfold bind. cbn. rewrite IH. unfold log_append. cbn. rewrite <- app_assoc. reflexivity.
Qed.

Lemma printModels_run (w : CWorld Srv) models :
  printModels models w = (Ok tt, log_append w (models_log models)).
Proof.
  unfold printModels, bind. cbn. rewrite for_each_printModel_run. unfold log_append. cbn.
  rewrite <- app_assoc. reflexivity.
Qed.

(** The catch clause of a [CubicException], then "Done.". *)
Lemma finish_client_error (body : M (CWorld Srv) unit) (w w1 : CWorld Srv) msg :
  body w = (Throw (ClientError msg), w1) ->
  finish body w = (Ok tt, log_append w1 [CErr [OStr "Cubic error: "; OStr msg; endl];
                                        COut [OStr (String.append nl "Done."); endl]]).
Proof.
  intros Hb. unfold finish, catch, bind. rewrite Hb. unfold log_append, cout, log_event, modify. cbn.
  rewrite <- app_assoc. reflexivity.
Qed.

Lemma listModels_run (w : CWorld Srv) s' o :
  cb_listModels (c_srv w) = (s', o) ->
  listModels w = (o, mkCWorld s' (c_files w) (c_stdin w) (c_log w ++ [CCall CallListModels])).
Proof. intros Hl. unfold listModels, rpc. rewrite Hl. reflexivity. Qed.

(** The try block up to [models[0]], on a server that answers. *)
Lemma body_models (w : CWorld Srv) s1 s2 s3 v sv models :
  cb_cubicVersion (c_srv w) = (s1, Ok v) -> cb_serverVersion s1 = (s2, Ok sv) ->
  cb_listModels s2 = (s3, Ok models) ->
  body w = (model <- firstModel models ;; data <- readFile ;;
            resp <- recognize (configOf model) data ;;
            cout [OStr (String.append nl "Transcripts:"); endl] ;; printResults resp)
             (mkCWorld s3 (c_files w) (c_stdin w)
                (c_log w ++ header_log v sv ++ [CCall CallListModels] ++ models_log models)).
Proof.
  intros H1 H2 H3. unfold body.
  rewrite (bind_ok _ _ _ _ _ (printHeader_run w s1 s2 v sv H1 H2)).
  rewrite (bind_ok _ _ _ _ _ (listModels_run (mkCWorld s2 (c_files w) (c_stdin w) (c_log w ++ header_log v sv)) s3 _ H3)).
  rewrite (bind_ok _ _ _ _ _ (printModels_run _ models)). unfold log_append. cbn [c_log c_srv c_files c_stdin].
  rewrite <- !app_assoc. reflexivity.
Qed.

(** The code the streaming mains share up to [models[0]], then any
    continuation, on a server that answers with at least one model. *)
Lemma listing_then {A} (k : CubicModel -> M (CWorld Srv) A) (w : CWorld Srv) s1 s2 s3 v sv m ms :
  cb_cubicVersion (c_srv w) = (s1, Ok v) -> cb_serverVersion s1 = (s2, Ok sv) ->
  cb_listModels s2 = (s3, Ok (m :: ms)) ->
  (printHeader ;; models <- listModels ;; printModels models ;; model <- firstModel models ;; k model) w =
  k m (mkCWorld s3 (c_files w) (c_stdin w)
         (c_log w ++ header_log v sv ++ [CCall CallListModels] ++ models_log (m :: ms))).
Proof.
  intros H1 H2 H3.
  rewrite (bind_ok _ _ _ _ _ (printHeader_run w s1 s2 v sv H1 H2)).
  rewrite (bind_ok _ _ _ _ _ (listModels_run (mkCWorld s2 (c_files w) (c_stdin w) (c_log w ++ header_log v sv)) s3 _ H3)).
  rewrite (bind_ok _ _ _ _ _ (printModels_run _ (m :: ms))). cbn [firstModel]. rewrite bind_ret_l.
  unfold log_append. cbn [c_log c_srv c_files c_stdin]. rewrite <- !app_assoc. reflexivity.
Qed.

(** The request, on a server that answers up to [listModels]. *)
Lemma body_recognize (w : CWorld Srv) s1 s2 s3 s4 v sv m ms o :
  cb_cubicVersion (c_srv w) = (s1, Ok v) -> cb_serverVersion s1 = (s2, Ok sv) ->
  cb_listModels s2 = (s3, Ok (m :: ms)) ->
  cb_recognize s3 (configOf m) (fileContents (c_files w)) = (s4, o) ->
  body w = let w4 := mkCWorld s4 (c_files w) (c_stdin w)
                (c_log w ++ header_log v sv ++ [CCall CallListModels] ++ models_log (m :: ms) ++
                 [CCall (CallRecognize (configOf m) (fileContents (c_files w)))]) in
           match o with
           | Ok resp => (cout [OStr (String.append nl "Transcripts:"); endl] ;; printResults resp) w4
           | Throw e => (Throw e, w4)
           end.
Proof.
  intros H1 H2 H3 H4. rewrite (body_models w s1 s2 s3 v sv _ H1 H2 H3). cbn [firstModel].
  rewrite bind_ret_l. unfold bind at 1, readFile. cbn [c_files].
  unfold bind at 1, recognize, rpc. cbn [c_srv c_files]. rewrite H4. unfold bind at 1.
  cbn [c_log c_stdin]. rewrite <- !app_assoc. destruct o; reflexivity.
Qed.

(** C25. A run against a server that answers: the console shows the
    header, the model list, the "Transcripts:" line, the first
    alternative of each final result in order, and "Done."; the one
    [recognize] request carries the first model's id, WAV encoding, no
    context, and the whole of test.wav. *)
Theorem sync_main_run (w : CWorld Srv) s1 s2 s3 s4 v sv m ms resp :
  cb_cubicVersion (c_srv w) = (s1, Ok v) -> cb_serverVersion s1 = (s2, Ok sv) ->
  cb_listModels s2 = (s3, Ok (m :: ms)) ->
  cb_recognize s3 (configOf m) (fileContents (c_files w)) = (s4, Ok resp) ->
  well_formed resp = true ->
  main w = (Ok tt, mkCWorld s4 (c_files w) (c_stdin w)
    (c_log w ++ header_log v sv ++ [CCall CallListModels] ++ models_log (m :: ms) ++
     [CCall (CallRecognize (configOf m) (fileContents (c_files w)));
      COut [OStr (String.append nl "Transcripts:"); endl]] ++ response_lines resp ++
     [COut [OStr (String.append nl "Done."); endl]])).
Proof.
  intros H1 H2 H3 H4 Hwf. unfold main, finish. erewrite bind_ok.
  2: { unfold catch. rewrite (body_recognize w s1 s2 s3 s4 v sv m ms _ H1 H2 H3 H4).
       cbv zeta. unfold bind at 1, cout, log_event, modify.
       rewrite (printResults_ok _ _ Hwf). reflexivity. }
  unfold cout, log_event, modify, log_append. cbn [fst snd c_log c_srv c_files c_stdin].
  rewrite <- !app_assoc. reflexivity.
Qed.

(** C33. An empty model list: [models[0]] is undefined behaviour,
    which no catch clause handles; it comes after the model listing and
    before any request or file read, and "Done." is never printed. *)
Theorem sync_empty_models_ub (w : CWorld Srv) s1 s2 s3 v sv :
  cb_cubicVersion (c_srv w) = (s1, Ok v) -> cb_serverVersion s1 = (s2, Ok sv) ->
  cb_listModels s2 = (s3, Ok []) ->
  exists what, main w = (Throw (UndefinedBehaviour what),
    mkCWorld s3 (c_files w) (c_stdin w)
      (c_log w ++ header_log v sv ++ [CCall CallListModels] ++ models_log [])).
Proof.
  intros H1 H2 H3. eexists. unfold main, finish. apply bind_err. unfold catch.
  rewrite (body_models w s1 s2 s3 v sv [] H1 H2 H3). reflexivity.
Qed.

(** C34. A server error on the request: the [CubicException] thrown by
    [recognize] is reported on standard error as "Cubic error: " and
    its message, no transcript is printed, and "Done." follows. *)
Theorem sync_recognize_error (w : CWorld Srv) s1 s2 s3 s4 v sv m ms msg :
  cb_cubicVersion (c_srv w) = (s1, Ok v) -> cb_serverVersion s1 = (s2, Ok sv) ->
  cb_listModels s2 = (s3, Ok (m :: ms)) ->
  cb_recognize s3 (configOf m) (fileContents (c_files w)) = (s4, Throw (ClientError msg)) ->
  main w = (Ok tt, mkCWorld s4 (c_files w) (c_stdin w)
    (c_log w ++ header_log v sv ++ [CCall CallListModels] ++ models_log (m :: ms) ++
     [CCall (CallRecognize (configOf m) (fileContents (c_files w)));
      CErr [OStr "Cubic error: "; OStr msg; endl];
      COut [OStr (String.append nl "Done."); endl]])).
Proof.
  intros H1 H2 H3 H4. unfold main.
  rewrite (finish_client_error _ _ _ _ (body_recognize w s1 s2 s3 s4 v sv m ms _ H1 H2 H3 H4)).
  unfold log_append. cbn [c_log c_srv c_files c_stdin]. rewrite <- !app_assoc. reflexivity.
Qed.

End Proofs.

(** ** Runs against the scripted server *)

Local Open Scope string_scope.

Lemma sync_main_run_witness :
  main sync_w0 = (Ok tt, mkCWorld good_mock wav_files []
    ([] ++ header_log "1.0" "2.0" ++ [CCall CallListModels] ++ models_log [airport_model] ++
     [CCall (CallRecognize (configOf airport_model) wav_bytes);
      COut [OStr (String.append nl "Transcripts:"); endl]] ++ response_lines hello_response ++
     [COut [OStr (String.append nl "Done."); endl]])).
Proof.
  exact (sync_main_run sync_w0 good_mock good_mock good_mock good_mock "1.0" "2.0" airport_model []
           hello_response eq_refl eq_refl eq_refl eq_refl eq_refl).
Defined.

Lemma sync_empty_models_ub_witness :
  exists what, main (cworld empty_mock wav_files []) = (Throw (UndefinedBehaviour what),
    mkCWorld empty_mock wav_files [] ([] ++ header_log "1.0" "2.0" ++ [CCall CallListModels] ++ models_log [])).
Proof.
  exact (sync_empty_models_ub (cworld empty_mock wav_files []) empty_mock empty_mock empty_mock
           "1.0" "2.0" eq_refl eq_refl eq_refl).
Defined.

Lemma sync_recognize_error_witness :
  main (cworld failing_mock wav_files []) = (Ok tt, mkCWorld failing_mock wav_files []
    ([] ++ header_log "1.0" "2.0" ++ [CCall CallListModels] ++ models_log [airport_model] ++
     [CCall (CallRecognize (configOf airport_model) wav_bytes);
      CErr [OStr "Cubic error: "; OStr "unavailable"; endl];
      COut [OStr (String.append nl "Done."); endl]])).
Proof.
  exact (sync_recognize_error (cworld failing_mock wav_files []) failing_mock failing_mock failing_mock
           failing_mock "1.0" "2.0" airport_model [] "unavailable" eq_refl eq_refl eq_refl eq_refl).
Defined.

End SyncClient.
