(* ===== verification/StreamClient.v ===== *)
(** * The streaming recognition client: src/cubic/stream_client.cpp

    Module [StreamClient] translates [main] (lines 36-103) as the
    composition of two parts:
    - [preamble]: the sequential code of the try block up to the
      threads (lines 40-62, and the header of line 81): the version
      header, the model list, the configuration of [models[0]] and
      [client.streamingRecognize(cfg)];
    - the two threads of lines 65-94, [Streaming.step] from
      [Streaming.init].
    [runs pre w o w'] relates a world before [main] to the outcome and
    the world after it, for a preamble [pre]; context_client.cpp uses it
    with its own preamble.  An exception of the preamble is handled by
    the catch clauses before "Done."; the threads end with "Done."
    themselves ([Streaming.main_step] at [MClose]), or with undefined
    behaviour. *)

From Stdlib Require Import String List.
From S2P Require Import Prelude Client Cubic CubicMock FileStream Streaming SyncClient.
Import ListNotations.

Module StreamClient.

Section Main.
Context {Srv : Type} `{CubicServer Srv}.

(** Lines 40-62 and 81. *)
Definition preamble : M (CWorld Srv) unit :=
  printHeader ;;
  models <- listModels ;;
  SyncClient.printModels models ;;
  model <- firstModel models ;;
  streamingRecognize (SyncClient.configOf model) ;;
  cout [OStr (String.append nl "Transcripts:"); endl].

(** [main], for a preamble [pre]: its outcome and final world. *)
Inductive runs (pre : M (CWorld Srv) unit) (w : CWorld Srv) : outcome unit -> CWorld Srv -> Prop :=
| runs_error e w1 :
    pre w = (Throw e, w1) -> runs pre w (fst (finish (throw e) w1)) (snd (finish (throw e) w1))
| runs_done w1 s :
    pre w = (Ok tt, w1) -> Streaming.reachable w1 s -> Streaming.s_main s = Streaming.MDone ->
    runs pre w (Ok tt) (Streaming.s_world s)
| runs_ub w1 s what :
    pre w = (Ok tt, w1) -> Streaming.reachable w1 s -> Streaming.s_main s = Streaming.MUB what ->
    runs pre w (Throw (UndefinedBehaviour what)) (Streaming.s_world s).

End Main.

(** The console and calls of a preamble that reaches the threads. *)
Definition preamble_log (v sv : string) (models : list CubicModel) (cfg : RecognitionConfig) : list CEvent :=
  SyncClient.header_log v sv ++ [CCall CallListModels] ++ SyncClient.models_log models ++
  [CCall (CallStreamingRecognize cfg); COut [OStr (String.append nl "Transcripts:"); endl]].

Definition main_w0 : CWorld CMock := cworld good_mock wav_files [].
Definition main_w1 : CWorld CMock := snd (preamble main_w0).
Definition main_end : @Streaming.state CMock :=
  match Streaming.run Streaming.done_schedule (Streaming.init main_w1) with
  | Some s => s
  | None => Streaming.init main_w1
  end.

Section Proofs.
Context {Srv : Type} `{CubicServer Srv}.

(** A run of [main] that ends normally after a preamble that returned:
    the threads ran from the world the preamble left to a state that
    printed "Done." in the final world of the run. *)
Lemma runs_ok (pre : M (CWorld Srv) unit) w w1 w' :
  pre w = (Ok tt, w1) -> runs pre w (Ok tt) w' ->
  exists s : @Streaming.state Srv,
    Streaming.reachable w1 s /\ Streaming.s_main s = Streaming.MDone /\ Streaming.s_world s = w' /\
    Streaming.st_pushed (Streaming.s_stream s) = Streaming.file_pushes w1 /\
    Streaming.st_outbox (Streaming.s_stream s) = [] /\
    c_log w' = c_log w1 ++ Streaming.transcripts_of (Streaming.st_read (Streaming.s_stream s)) ++
               Streaming.close_output (Streaming.st_status (Streaming.s_stream s)).
Proof.
  intros Hp Hr. inversion Hr as [e w2 He Ho Hw|w2 s He Hreach Hd Ho Hw|]; subst; rewrite Hp in He;
    try discriminate.
  injection He as <-. exists s. destruct (Streaming.done_pushed_log _ s Hreach Hd) as (Hpush & Hout & Hlog).
  repeat split; assumption.
Qed.

Lemma preamble_run (w : CWorld Srv) s1 s2 s3 s4 v sv m ms :
  cb_cubicVersion (c_srv w) = (s1, Ok v) -> cb_serverVersion s1 = (s2, Ok sv) ->
  cb_listModels s2 = (s3, Ok (m :: ms)) ->
  cb_streamingRecognize s3 (SyncClient.configOf m) = (s4, Ok tt) ->
  preamble w = (Ok tt, mkCWorld s4 (c_files w) (c_stdin w)
                  (c_log w ++ preamble_log v sv (m :: ms) (SyncClient.configOf m))).
Proof.
  intros H1 H2 H3 H4. unfold preamble.
  rewrite (SyncClient.listing_then
             (fun model => streamingRecognize (SyncClient.configOf model) ;;
                           cout [OStr (String.append nl "Transcripts:"); endl]) w s1 s2 s3 v sv m ms H1 H2 H3).
  unfold bind, streamingRecognize, rpc, cout, log_event, modify, log_append, preamble_log.
  cbn [c_srv c_log c_files c_stdin]. rewrite H4. cbn [fst snd c_log c_srv c_files c_stdin].
  rewrite <- !app_assoc. reflexivity.
Qed.

(** C4. End to end for stream_client.cpp: on a server that answers the
    preamble, a run of [main] that ends normally went through the
    threads, from the world the preamble left, to a state that printed
    "Done." in the run's final world; there the audio thread had sent
    the file's buffers after [streamingRecognize] with the first model's
    WAV configuration, every response the server sent had been
    received, and the console held the header, the model list,
    "Transcripts:", the transcripts of those responses in order, the
    close error if any, and "Done.". *)
Theorem stream_main_done (w w' : CWorld Srv) s1 s2 s3 s4 v sv m ms :
  cb_cubicVersion (c_srv w) = (s1, Ok v) -> cb_serverVersion s1 = (s2, Ok sv) ->
  cb_listModels s2 = (s3, Ok (m :: ms)) ->
  cb_streamingRecognize s3 (SyncClient.configOf m) = (s4, Ok tt) ->
  runs preamble w (Ok tt) w' ->
  exists s : @Streaming.state Srv,
    Streaming.reachable (snd (preamble w)) s /\ Streaming.s_main s = Streaming.MDone /\
    Streaming.s_world s = w' /\
    Streaming.st_pushed (Streaming.s_stream s) = Streaming.file_pushes w /\
    Streaming.st_outbox (Streaming.s_stream s) = [] /\
    c_log w' = c_log w ++ preamble_log v sv (m :: ms) (SyncClient.configOf m) ++
               Streaming.transcripts_of (Streaming.st_read (Streaming.s_stream s)) ++
               Streaming.close_output (Streaming.st_status (Streaming.s_stream s)).
Proof.
  intros H1 H2 H3 H4 Hr. pose proof (preamble_run w s1 s2 s3 s4 v sv m ms H1 H2 H3 H4) as Hp.
  destruct (runs_ok _ w _ w' Hp Hr) as (s & Hreach & Hd & Hw & Hpush & Hout & Hlog).
  exists s. rewrite Hp. repeat split; try assumption.
  rewrite Hlog. cbn [c_log]. rewrite <- !app_assoc. reflexivity.
Qed.

End Proofs.

(** ** A run against the scripted server *)

Lemma stream_main_done_witness :
  runs preamble main_w0 (Ok tt) (Streaming.s_world main_end) /\
  exists s : @Streaming.state CMock,
    Streaming.reachable (snd (preamble main_w0)) s /\ Streaming.s_main s = Streaming.MDone /\
    Streaming.s_world s = Streaming.s_world main_end /\
    Streaming.st_pushed (Streaming.s_stream s) = Streaming.file_pushes main_w0 /\
    Streaming.st_outbox (Streaming.s_stream s) = [] /\
    c_log (Streaming.s_world main_end) =
      c_log main_w0 ++ preamble_log "1.0"%string "2.0"%string [airport_model] (SyncClient.configOf airport_model) ++
      Streaming.transcripts_of (Streaming.st_read (Streaming.s_stream s)) ++
      Streaming.close_output (Streaming.st_status (Streaming.s_stream s)).
Proof.
  assert (Hr : runs preamble main_w0 (Ok tt) (Streaming.s_world main_end)).
  { apply (runs_done _ _ main_w1); [vm_compute; reflexivity | | vm_compute; reflexivity].
    apply (Streaming.run_star Streaming.done_schedule). vm_compute. reflexivity. }
  split; [exact Hr|].
  exact (stream_main_done main_w0 _ good_mock good_mock good_mock good_mock "1.0"%string "2.0"%string
           airport_model [] eq_refl eq_refl eq_refl eq_refl Hr).
Defined.

End StreamClient.
