(* ===== verification/ContextClient.v ===== *)
(** * The compiled-context client: src/cubic/context_client.cpp

    Module [ContextClient] translates the preamble of [main] (lines
    42-108 and 127): the header, a model listing that shows each
    model's context support and, for a model that has it, its allowed
    context tokens joined with ", " (lines 58-67); the first model's
    first context token (line 88); [compileContext] of the four airport
    phrases; and the recognition configuration that carries the compiled
    context to [streamingRecognize].  The threads after it (lines
    111-140) are the code of stream_client.cpp lines 65-94: [runs] is
    [StreamClient.runs] with this preamble.

    The theorems: the token string of lines 60-64 is the tokens joined
    with ", " (an equivalence with [String.concat]); an empty token list
    is undefined behaviour at [erase(end() - 2, end())]; a first model
    without a context token is undefined behaviour before any context is
    compiled; on a server that answers, the compiled context is what the
    configuration sends; and a run of [main] ([runs]) that ends
    normally has pushed test.wav and printed the listing, the
    transcripts, the close error if any and "Done.". *)

From Stdlib Require Import String List Lia PeanoNat NArith.
From S2P Require Import Prelude Client Cubic CubicMock Streaming StreamClient SyncClient.
Import ListNotations.

Module ContextClient.

Local Open Scope string_scope.

(** The separator of line 62. *)
Definition sep : string := ", ".

(** Lines 60-63: [tokString += tok + ", "] for each token. *)
Definition tokString (toks : list string) : string :=
  fold_left (fun acc tok => String.append acc (String.append tok sep)) toks EmptyString.

(** The phrases of lines 81-86. *)
Definition phrases : list string :=
  ["NARITA"; "KUALA LUMPUR INTERNATIONAL"; "ISTANBUL ATATURK"; "LAGUARDIA"].

Section Main.
Context {Srv : Type} `{CubicServer Srv}.

(** Line 64: [tokString.erase(tokString.end() - 2, tokString.end())];
    [end() - 2] is before [begin()] on a string shorter than two. *)
Definition eraseLast2 (s : string) : M (CWorld Srv) string :=
  if Nat.ltb (String.length s) 2
  then throw (UndefinedBehaviour "erase(end() - 2, end()) on a string shorter than 2")
  else ret (substring 0 (String.length s - 2) s).

Definition joinTokens (toks : list string) : M (CWorld Srv) string := eraseLast2 (tokString toks).

(** Lines 54-69, the body of the listing loop for one model; a [bool]
    is printed as 1 or 0. *)
Definition printModel (m : CubicModel) : M (CWorld Srv) unit :=
  cout [OStr "  ID = "; OStr (id m); endl; OStr "  Name = "; OStr (name m);
        OStr "  Supports Context = "; ONum (if supportsContext m then 1%N else 0%N); endl] ;;
  (if supportsContext m
   then tok <- joinTokens (allowedContextTokens m) ;;
        cout [OStr "  Allowed Context Tokens = "; OStr tok; endl]
   else ret tt) ;;
  cout [endl].

(** Line 88: [model.allowedContextTokens()[0]]. *)
Definition firstToken (toks : list string) : M (CWorld Srv) string :=
  match toks with
  | [] => throw (UndefinedBehaviour "allowedContextTokens()[0] on an empty vector")
  | t :: _ => ret t
  end.

(** Lines 100-103. *)
Definition configOf (model : CubicModel) (compiled : CompiledContext) : RecognitionConfig :=
  mkRecognitionConfig (id model) WAV [compiled].

(** Lines 42-108 and 127. *)
Definition preamble : M (CWorld Srv) unit :=
  printHeader ;;
  models <- listModels ;;
  cout [OStr "Available Models:"; endl] ;;
  for_each printModel models ;;
  model <- firstModel models ;;
  contextToken <- firstToken (allowedContextTokens model) ;;
  compiled <- compileContext (id model) contextToken phrases ;;
  streamingRecognize (configOf model compiled) ;;
  cout [OStr (String.append nl "Transcripts:"); endl].

(** Lines 37-149, [main]: the preamble, then the two threads of lines
    111-140, which are the code of stream_client.cpp lines 65-94
    ([Streaming.step] from [Streaming.init]), then the catch clauses of
    lines 142-146 and "Done." (line 148). *)
Definition runs : CWorld Srv -> outcome unit -> CWorld Srv -> Prop := StreamClient.runs preamble.

End Main.

(** What the listing prints for a model whose tokens can be joined. *)
Definition model_lines (m : CubicModel) : list CEvent :=
  [COut [OStr "  ID = "; OStr (id m); endl; OStr "  Name = "; OStr (name m);
         OStr "  Supports Context = "; ONum (if supportsContext m then 1%N else 0%N); endl]] ++
  (if supportsContext m
   then [COut [OStr "  Allowed Context Tokens = "; OStr (String.concat sep (allowedContextTokens m)); endl]]
   else []) ++
  [COut [endl]].

(** A model the listing prints without undefined behaviour: it does not
    support context, or it has a context token. *)
Definition listable (m : CubicModel) : bool :=
  negb (supportsContext m) || match allowedContextTokens m with [] => false | _ :: _ => true end.

(** The console and calls of a preamble that opens the stream with the
    context compiled for [tok]. *)
Definition preamble_log (v sv : string) (m : CubicModel) (ms : list CubicModel) (tok : string)
    (c : CompiledContext) : list CEvent :=
  SyncClient.header_log v sv ++ [CCall CallListModels] ++
  [COut [OStr "Available Models:"; endl]] ++ flat_map model_lines (m :: ms) ++
  [CCall (CallCompileContext (id m) tok phrases);
   CCall (CallStreamingRecognize (mkRecognitionConfig (id m) WAV [c]));
   COut [OStr (String.append nl "Transcripts:"); endl]].

Definition ctx_w0 : CWorld CMock := cworld good_mock wav_files [].
Definition tokenless_mock : CMock := mkCMock [tokenless_model; airport_model] hello_response None.
Definition ctx_w1 : CWorld CMock := snd (preamble ctx_w0).
Definition ctx_end : @Streaming.state CMock :=
  match Streaming.run Streaming.done_schedule (Streaming.init ctx_w1) with
  | Some s => s
  | None => Streaming.init ctx_w1
  end.

(** ** Strings *)

Lemma str_app_assoc (a b c : string) :
  String.append a (String.append b c) = String.append (String.append a b) c.
Proof. induction a as [|x a IH]; cbn; [reflexivity | now rewrite IH]. Qed.

Lemma str_app_empty (a : string) : String.append a EmptyString = a.
Proof. induction a as [|x a IH]; cbn; [reflexivity | now rewrite IH]. Qed.

Lemma str_length_app (a b : string) : String.length (String.append a b) = String.length a + String.length b.
Proof. induction a as [|x a IH]; cbn; [reflexivity | now rewrite IH]. Qed.

Lemma substring_prefix (a b : string) : substring 0 (String.length a) (String.append a b) = a.
Proof. induction a as [|x a IH]; cbn; [destruct b; reflexivity | now rewrite IH]. Qed.

(** The loop, from any accumulated string, on a non-empty list. *)
Lemma tokString_fold (toks : list string) acc :
  toks <> [] ->
  fold_left (fun acc tok => String.append acc (String.append tok sep)) toks acc =
  String.append acc (String.append (String.concat sep toks) sep).
Proof.
  revert acc. induction toks as [|t [|t' rest] IH]; intros acc Hne; [congruence| |].
  - reflexivity.
  - cbn [fold_left]. cbn [fold_left] in IH. rewrite IH by discriminate.
    change (String.concat sep (t :: t' :: rest)) with (String.append t (String.append sep (String.concat sep (t' :: rest)))).
    rewrite <- !str_app_assoc. reflexivity.
Qed.

Section Proofs.
Context {Srv : Type} `{CubicServer Srv}.

Lemma tokString_nonempty t ts :
  tokString (t :: ts) = String.append (String.concat sep (t :: ts)) sep.
Proof. unfold tokString. rewrite tokString_fold by discriminate. reflexivity. Qed.

(** A non-empty token list: the loop's string minus its last ", ". *)
Lemma joinTokens_cons t ts (w : CWorld Srv) :
  joinTokens (t :: ts) w = (Ok (String.concat sep (t :: ts)), w).
Proof.
  unfold joinTokens, eraseLast2. rewrite tokString_nonempty, str_length_app.
  replace (Nat.ltb (String.length (String.concat sep (t :: ts)) + String.length sep) 2) with false
    by (symmetry; apply Nat.ltb_ge; cbn [String.length sep]; lia).
  cbn [String.length sep]. rewrite Nat.add_sub, substring_prefix. reflexivity.
Qed.

(** C26. Equivalence of the token loop with [String.concat]: the
    string of lines 60-64 is the allowed tokens separated by ", "; an
    empty token list leaves the string empty and [erase(end() - 2,
    end())] is undefined behaviour. *)
Theorem ctx_joinTokens_concat (toks : list string) (w : CWorld Srv) :
  joinTokens toks w =
  match toks with
  | [] => (Throw (UndefinedBehaviour "erase(end() - 2, end()) on a string shorter than 2"), w)
  | _ :: _ => (Ok (String.concat sep toks), w)
  end.
Proof. destruct toks as [|t ts]; [reflexivity | apply joinTokens_cons]. Qed.

Lemma printModel_run (m : CubicModel) (w : CWorld Srv) :
  listable m = true -> printModel m w = (Ok tt, log_append w (model_lines m)).
Proof.
  intros Hl. unfold printModel, model_lines, listable in *.
  unfold bind at 1, cout at 1, log_event, modify. cbn [fst snd].
  destruct (supportsContext m); cbn [negb orb] in Hl.
  - destruct (allowedContextTokens m) as [|t ts] eqn:Ht; [discriminate|].
    unfold bind at 1. unfold bind at 1. rewrite joinTokens_cons.
    unfold cout, log_event, modify, log_append. cbn. rewrite <- !app_assoc. reflexivity.
  - unfold bind at 1, ret, cout, log_event, modify, log_append. cbn. rewrite <- !app_assoc. reflexivity.
Qed.

Lemma listing_run (models : list CubicModel) (w : CWorld Srv) :
  forallb listable models = true ->
  for_each printModel models w = (Ok tt, log_append w (flat_map model_lines models)).
Proof.
  revert w. induction models as [|m ms IH]; intros w Hl; cbn in Hl |- *.
  - rewrite log_append_nil. reflexivity.
  - apply andb_prop in Hl as [Hm Hms]. rewrite (bind_ok _ _ _ _ _ (printModel_run m w Hm)).
    rewrite IH, log_append_app by exact Hms. reflexivity.
Qed.

(** A model that supports context and has no token stops the listing
    with undefined behaviour; nothing but the console has changed. *)
Lemma listing_ub (models : list CubicModel) (w : CWorld Srv) :
  forallb listable models = false ->
  exists what w', for_each printModel models w = (Throw (UndefinedBehaviour what), w') /\
                  c_srv w' = c_srv w.
Proof.
  revert w. induction models as [|m ms IH]; intros w Hl; cbn in Hl |- *; [discriminate|].
  destruct (listable m) eqn:Hm; cbn in Hl.
  - rewrite (bind_ok _ _ _ _ _ (printModel_run m w Hm)).
    destruct (IH (log_append w (model_lines m)) Hl) as (what & w' & Hw & Hs).
    exists what, w'. split; [exact Hw | exact Hs].
  - unfold listable in Hm. unfold printModel.
    destruct (supportsContext m); [|discriminate]. destruct (allowedContextTokens m) eqn:Ht; [|discriminate].
    unfold bind, cout, log_event, modify. cbn. eauto.
Qed.

Lemma preamble_models (w : CWorld Srv) s1 s2 s3 v sv models :
  cb_cubicVersion (c_srv w) = (s1, Ok v) -> cb_serverVersion s1 = (s2, Ok sv) ->
  cb_listModels s2 = (s3, Ok models) ->
  preamble w = (cout [OStr "Available Models:"; endl] ;; for_each printModel models ;;
                model <- firstModel models ;;
                contextToken <- firstToken (allowedContextTokens model) ;;
                compiled <- compileContext (id model) contextToken phrases ;;
                streamingRecognize (configOf model compiled) ;;
                cout [OStr (String.append nl "Transcripts:"); endl])
               (mkCWorld s3 (c_files w) (c_stdin w)
                  (c_log w ++ SyncClient.header_log v sv ++ [CCall CallListModels])).
Proof.
  intros H1 H2 H3. unfold preamble.
  rewrite (bind_ok _ _ _ _ _ (SyncClient.printHeader_run w s1 s2 v sv H1 H2)).
  rewrite (bind_ok _ _ _ _ _ (SyncClient.listModels_run
             (mkCWorld s2 (c_files w) (c_stdin w) (c_log w ++ SyncClient.header_log v sv)) s3 _ H3)).
  cbn [c_log]. rewrite <- app_assoc. reflexivity.
Qed.

(** C35. A first model without a context token ("Assuming the first
    model supports context", line 72): the run has undefined behaviour,
    at [erase] in the listing or at [allowedContextTokens()[0]], and the
    server receives no request after [listModels]: no context is
    compiled and no stream is opened. *)
Theorem ctx_tokenless_model_ub (w : CWorld Srv) s1 s2 s3 v sv m ms :
  cb_cubicVersion (c_srv w) = (s1, Ok v) -> cb_serverVersion s1 = (s2, Ok sv) ->
  cb_listModels s2 = (s3, Ok (m :: ms)) -> allowedContextTokens m = [] ->
  exists what w', preamble w = (Throw (UndefinedBehaviour what), w') /\ c_srv w' = s3.
Proof.
  intros H1 H2 H3 Ht. rewrite (preamble_models w s1 s2 s3 v sv _ H1 H2 H3).
  unfold bind at 1, cout at 1, log_event, modify. cbn [fst snd].
  destruct (forallb listable (m :: ms)) eqn:Hl.
  - rewrite (bind_ok _ _ _ _ _ (listing_run _ _ Hl)). cbn [firstModel]. rewrite bind_ret_l.
    rewrite Ht. cbn [firstToken]. eexists. eexists. split; [apply bind_err; reflexivity | reflexivity].
  - destruct (listing_ub _ (mkCWorld s3 (c_files w) (c_stdin w)
      ((c_log w ++ SyncClient.header_log v sv ++ [CCall CallListModels]) ++
       [COut [OStr "Available Models:"; endl]])) Hl) as (what & w' & Hw & Hs).
    exists what, w'. split; [apply bind_err; exact Hw | exact Hs].
Qed.

(** On a server that answers, with a listable model list whose
    first model has the token [tok] first: the listing shows every
    model with its joined tokens, the four phrases are compiled for
    [tok] and the first model, and the stream is opened with the first
    model's id, WAV encoding and exactly the compiled context. *)
Lemma ctx_preamble_config (w : CWorld Srv) s1 s2 s3 s4 s5 v sv m ms tok toks c :
  cb_cubicVersion (c_srv w) = (s1, Ok v) -> cb_serverVersion s1 = (s2, Ok sv) ->
  cb_listModels s2 = (s3, Ok (m :: ms)) -> forallb listable (m :: ms) = true ->
  allowedContextTokens m = tok :: toks ->
  cb_compileContext s3 (id m) tok phrases = (s4, Ok c) ->
  cb_streamingRecognize s4 (mkRecognitionConfig (id m) WAV [c]) = (s5, Ok tt) ->
  preamble w = (Ok tt, mkCWorld s5 (c_files w) (c_stdin w) (c_log w ++ preamble_log v sv m ms tok c)).
Proof.
  intros H1 H2 H3 Hl Ht H4 H5. rewrite (preamble_models w s1 s2 s3 v sv _ H1 H2 H3).
  unfold bind at 1, cout at 1, log_event, modify. cbn [fst snd].
  rewrite (bind_ok _ _ _ _ _ (listing_run _ _ Hl)). cbn [firstModel]. rewrite bind_ret_l.
  rewrite Ht. cbn [firstToken]. rewrite bind_ret_l.
  unfold bind, compileContext, streamingRecognize, rpc, cout, log_event, modify, log_append, configOf.
  cbn [c_srv c_log c_files c_stdin]. rewrite H4. cbn [c_srv c_log c_files c_stdin]. rewrite H5.
  cbn [fst snd c_log c_srv c_files c_stdin]. unfold preamble_log. rewrite <- !app_assoc. reflexivity.
Qed.

(** C5. End to end for context_client.cpp: on a server that answers
    the preamble, a run of [main] that ends normally has listed the
    models with their tokens, compiled the four phrases for the first
    model's first token, and opened the stream with that context; then
    the threads ran, from the world the preamble left, to a state that
    printed "Done." in the run's final world, having pushed the buffers
    of test.wav, received every response the server sent, and printed
    their transcripts, the close error if any, and "Done.". *)
Theorem ctx_main_done (w w' : CWorld Srv) s1 s2 s3 s4 s5 v sv m ms tok toks c :
  cb_cubicVersion (c_srv w) = (s1, Ok v) -> cb_serverVersion s1 = (s2, Ok sv) ->
  cb_listModels s2 = (s3, Ok (m :: ms)) -> forallb listable (m :: ms) = true ->
  allowedContextTokens m = tok :: toks ->
  cb_compileContext s3 (id m) tok phrases = (s4, Ok c) ->
  cb_streamingRecognize s4 (mkRecognitionConfig (id m) WAV [c]) = (s5, Ok tt) ->
  runs w (Ok tt) w' ->
  exists s : @Streaming.state Srv,
    Streaming.reachable (snd (preamble w)) s /\ Streaming.s_main s = Streaming.MDone /\
    Streaming.s_world s = w' /\
    Streaming.st_pushed (Streaming.s_stream s) = Streaming.file_pushes w /\
    Streaming.st_outbox (Streaming.s_stream s) = [] /\
    c_log w' = (c_log w ++ preamble_log v sv m ms tok c ++
                Streaming.transcripts_of (Streaming.st_read (Streaming.s_stream s)) ++
                Streaming.close_output (Streaming.st_status (Streaming.s_stream s)))%list.
Proof.
  intros H1 H2 H3 Hl Ht H4 H5 Hr.
  pose proof (ctx_preamble_config w s1 s2 s3 s4 s5 v sv m ms tok toks c H1 H2 H3 Hl Ht H4 H5) as Hp.
  destruct (StreamClient.runs_ok _ w _ w' Hp Hr) as (s & Hreach & Hd & Hw & Hpush & Hout & Hlog).
  exists s. rewrite Hp. repeat split; try assumption.
  rewrite Hlog. cbn [c_log]. rewrite <- !app_assoc. reflexivity.
Qed.

End Proofs.

(** ** Runs against the scripted server *)

Lemma ctx_tokenless_model_ub_witness :
  exists what w', preamble (cworld tokenless_mock wav_files []) = (Throw (UndefinedBehaviour what), w') /\
                  c_srv w' = tokenless_mock.
Proof.
  exact (ctx_tokenless_model_ub (cworld tokenless_mock wav_files []) tokenless_mock tokenless_mock
           tokenless_mock "1.0" "2.0" tokenless_model [airport_model] eq_refl eq_refl eq_refl eq_refl).
Defined.

Lemma ctx_preamble_config_witness :
  preamble ctx_w0 = (Ok tt, mkCWorld good_mock wav_files []
    ([] ++ preamble_log "1.0" "2.0" airport_model [] "airport_names" (mkCompiledContext [Byte.x2a]))).
Proof.
  exact (ctx_preamble_config ctx_w0 good_mock good_mock good_mock good_mock good_mock "1.0" "2.0"
           airport_model [] "airport_names" [] (mkCompiledContext [Byte.x2a])
           eq_refl eq_refl eq_refl eq_refl eq_refl eq_refl eq_refl).
Defined.

Lemma ctx_main_done_witness :
  runs ctx_w0 (Ok tt) (Streaming.s_world ctx_end) /\
  exists s : @Streaming.state CMock,
    Streaming.reachable (snd (preamble ctx_w0)) s /\ Streaming.s_main s = Streaming.MDone /\
    Streaming.s_world s = Streaming.s_world ctx_end /\
    Streaming.st_pushed (Streaming.s_stream s) = Streaming.file_pushes ctx_w0 /\
    Streaming.st_outbox (Streaming.s_stream s) = [] /\
    c_log (Streaming.s_world ctx_end) =
      (c_log ctx_w0 ++ preamble_log "1.0" "2.0" airport_model [] "airport_names" (mkCompiledContext [Byte.x2a]) ++
       Streaming.transcripts_of (Streaming.st_read (Streaming.s_stream s)) ++
       Streaming.close_output (Streaming.st_status (Streaming.s_stream s)))%list.
Proof.
  assert (Hr : runs ctx_w0 (Ok tt) (Streaming.s_world ctx_end)).
  { apply (StreamClient.runs_done _ _ ctx_w1); [vm_compute; reflexivity | | vm_compute; reflexivity].
    apply (Streaming.run_star Streaming.done_schedule). vm_compute. reflexivity. }
  split; [exact Hr|].
  exact (ctx_main_done ctx_w0 _ good_mock good_mock good_mock good_mock good_mock "1.0" "2.0"
           airport_model [] "airport_names" [] (mkCompiledContext [Byte.x2a])
           eq_refl eq_refl eq_refl eq_refl eq_refl eq_refl eq_refl Hr).
Defined.

End ContextClient.
