(* ===== verification/MicClient.v ===== *)
(** * The microphone client: src/cubic/mic_client.cpp

    Module [MicClient] translates [main] (lines 53-129).  Its preamble
    (lines 57-79) is that of the streaming client with the RAW_LINEAR16
    encoding.  Then three threads share the stream and the flag
    [std::atomic_bool isRecording]:
    - the audio thread (lines 83-97) starts a recorder, and while
      [isRecording] reads a buffer from it and pushes it; then it stops
      the recorder and calls [audioFinished];
    - the results thread (lines 100-110) prints the final results of
      every response until [receiveResults] returns false;
    - the main thread (lines 113-120) prints the banner, waits for Enter,
      clears [isRecording], joins the audio thread, then the results
      thread, and closes the stream.

    The state holds each thread's program point, the flag, whether the
    recorder's process runs, the audio the microphone has produced and
    not yet delivered, the stream and the world (the console).  The
    environment is the microphone (it produces buffers), the user (who
    presses Enter whenever the main thread waits) and the server (as in
    [Streaming]).  The recorder class of this client is not part of the
    repository; its [readAudio] is modelled as what the code relies on:
    it blocks until the microphone has produced a buffer and returns it.
    [late] is ghost state: the number of buffers pushed after
    [isRecording] was cleared.

    Two threads write to [std::cout]: the results thread, a transcript
    and [std::endl] for each final result, and the main thread, the
    three items of the banner.  Each [<<] is a step of its thread and
    an event of the console of its own ([pieces] splits a [COut] into
    them), so that the console of a run is a merge ([interleave]) of
    the two threads' writes.

    The theorems: at most one buffer is pushed after Enter; the
    recorder is stopped, and the flag cleared, before [audioFinished],
    after which nothing is pushed; [close()] comes after both joins; the
    run can always finish; a transcript can reach the console before
    the banner that announces the transcripts; the microphone's buffers
    reach the stream in order, none lost or sent twice; a run of [main]
    that ends normally prints the preamble, then a merge of the banner
    with the transcripts of every response, then the close error if any
    and "Done."; an exception of the SDK inside a thread ends the
    process through [std::terminate] before the close and "Done.", with
    a merge of prefixes of those writes on the console. *)

From Stdlib Require Import String List Lia PeanoNat.
From S2P Require Import Prelude Client Cubic CubicMock Streaming SyncClient.
Import ListNotations.

Module MicClient.

(** The audio thread. *)
Inductive apc : Type :=
| AStart                              (** before [rec.start()] *)
| ACheck                              (** at [while (isRecording)] *)
| ARead                               (** in [rec.readAudio()] *)
| APush (audio : list Byte.byte)      (** at [stream.pushAudio] *)
| AStop                               (** at [rec.stop()] *)
| AFinish                             (** at [stream.audioFinished()] *)
| ADone.

(** The results thread; [RPrint rest] is at the test of the [for] loop
    of lines 103-108 with the results [resp.results(i..)] left, [REndl
    rest] between [<< transcript()] and [<< std::endl]. *)
Inductive rpc_thread : Type :=
| RRecv
| RPrint (rest : list RecognitionResult)
| REndl (rest : list RecognitionResult)
| RDone
| RUB (what : string).

(** The main thread from line 113 on; [MBanner rest] is in the chain of
    [<<] of lines 113-114 with the items [rest] left. *)
Inductive mpc : Type :=
| MBanner (rest : list out_item)
| MWait
| MClear
| MJoinAudio
| MJoinResults
| MClose
| MDone.

(** Lines 113-114: three [<<], each one write to [std::cout]. *)
Definition banner_items : list out_item :=
  [OStr (String.append nl (String.append nl "Recording. Press Enter to stop."));
   OStr (String.append nl (String.append nl "Transcripts:")); endl].

Definition banner : CEvent := COut banner_items.

(** The console as the threads write it, one [<<] at a time: each item
    of a [COut] is a write of its own. *)
Definition pieces (l : list CEvent) : list CEvent :=
  flat_map (fun e => match e with COut items => map (fun i => COut [i]) items | _ => [e] end) l.

Section Threads.
Context {Srv : Type} `{CubicServer Srv}.

(** Lines 72-79: the configuration of the first model. *)
Definition configOf (model : CubicModel) : RecognitionConfig :=
  mkRecognitionConfig (id model) RAW_LINEAR16 [].

(** Lines 57-79. *)
Definition preamble : M (CWorld Srv) unit :=
  printHeader ;;
  models <- listModels ;;
  SyncClient.printModels models ;;
  model <- firstModel models ;;
  streamingRecognize (configOf model).

Record state : Type := mkState {
  s_audio : apc;
  s_results : rpc_thread;
  s_main : mpc;
  isRecording : bool;
  rec_running : bool;
  s_mic : list (list Byte.byte);
  late : nat;
  s_stream : Streaming.stream;
  s_world : CWorld Srv
}.

Definition set_audio (s : state) (a : apc) : state :=
  mkState a (s_results s) (s_main s) (isRecording s) (rec_running s) (s_mic s) (late s) (s_stream s) (s_world s).

(** One step of the audio thread; [None] when it is blocked or done. *)
Definition audio_step (s : state) : option state :=
  match s_audio s with
  | AStart =>
      Some (mkState ACheck (s_results s) (s_main s) (isRecording s) true (s_mic s) (late s) (s_stream s) (s_world s))
  | ACheck => Some (set_audio s (if isRecording s then ARead else AStop))
  | ARead =>
      match s_mic s with
      | audio :: rest =>
          Some (mkState (APush audio) (s_results s) (s_main s) (isRecording s) (rec_running s) rest
                  (late s) (s_stream s) (s_world s))
      | [] => None
      end
  | APush audio =>
      Some (mkState ACheck (s_results s) (s_main s) (isRecording s) (rec_running s) (s_mic s)
              (if isRecording s then late s else S (late s))
              (Streaming.pushAudio audio (s_stream s)) (s_world s))
  | AStop =>
      Some (mkState AFinish (s_results s) (s_main s) (isRecording s) false (s_mic s) (late s) (s_stream s) (s_world s))
  | AFinish =>
      Some (mkState ADone (s_results s) (s_main s) (isRecording s) (rec_running s) (s_mic s) (late s)
              (Streaming.audioFinished (s_stream s)) (s_world s))
  | ADone => None
  end.

Definition set_results (s : state) (r : rpc_thread) (st : Streaming.stream) (w : CWorld Srv) : state :=
  mkState (s_audio s) r (s_main s) (isRecording s) (rec_running s) (s_mic s) (late s) st w.

(** One step of the results loop (lines 102-109): [receiveResults]
    takes the first response waiting, then each result and each [<<] of
    its line is a step, so that the banner's writes can come between
    them.  As in [Streaming.main_step], a response on which the loop
    reads [alternatives(0)] out of range makes the execution undefined
    from its receipt on. *)
Definition results_step (s : state) : option state :=
  match s_results s with
  | RRecv =>
      match Streaming.st_outbox (s_stream s) with
      | r :: _ =>
          match printResults r (s_world s) with
          | (Ok _, _) => Some (set_results s (RPrint (results r)) (Streaming.take_response (s_stream s)) (s_world s))
          | (Throw (UndefinedBehaviour what), w') =>
              Some (set_results s (RUB what) (Streaming.take_response (s_stream s)) w')
          | (Throw _, _) => None
          end
      | [] => if Streaming.st_ended (s_stream s) then Some (set_results s RDone (s_stream s) (s_world s))
              else None
      end
  | RPrint [] => Some (set_results s RRecv (s_stream s) (s_world s))
  | RPrint (result :: rest) =>
      if is_partial result then Some (set_results s (RPrint rest) (s_stream s) (s_world s))
      else match alternatives result with
           | [] => Some (set_results s (RUB "alternatives(0) on an empty field") (s_stream s) (s_world s))
           | a :: _ => Some (set_results s (REndl rest) (s_stream s)
                               (log_append (s_world s) [COut [OStr (transcript a)]]))
           end
  | REndl rest => Some (set_results s (RPrint rest) (s_stream s) (log_append (s_world s) [COut [endl]]))
  | RDone | RUB _ => None
  end.

Definition set_main (s : state) (m : mpc) (rec : bool) (st : Streaming.stream) (w : CWorld Srv) : state :=
  mkState (s_audio s) (s_results s) m rec (rec_running s) (s_mic s) (late s) st w.

(** [waitForEnter] (lines 41-46): [std::getline] consumes a line of
    standard input; the line is dropped.  It returns when the user
    presses Enter, which the interleaving leaves free. *)
Definition waitForEnter (w : CWorld Srv) : CWorld Srv :=
  mkCWorld (c_srv w) (c_files w) (tl (c_stdin w)) (c_log w).

(** One step of the main thread. *)
Definition main_step (s : state) : option state :=
  match s_main s with
  | MBanner [] => Some (set_main s MWait (isRecording s) (s_stream s) (s_world s))
  | MBanner (item :: rest) =>
      Some (set_main s (MBanner rest) (isRecording s) (s_stream s) (log_append (s_world s) [COut [item]]))
  | MWait =>
      Some (set_main s MClear (isRecording s) (s_stream s) (waitForEnter (s_world s)))
  | MClear => Some (set_main s MJoinAudio false (s_stream s) (s_world s))
  | MJoinAudio =>
      match s_audio s with
      | ADone => Some (set_main s MJoinResults (isRecording s) (s_stream s) (s_world s))
      | _ => None
      end
  | MJoinResults =>
      match s_results s with
      | RDone => Some (set_main s MClose (isRecording s) (s_stream s) (s_world s))
      | _ => None
      end
  | MClose =>
      Some (set_main s MDone (isRecording s) (Streaming.close (s_stream s))
              (snd (finish (Streaming.close_status (s_stream s)) (s_world s))))
  | MDone => None
  end.

(** The microphone produces a buffer. *)
Definition mic_produce (audio : list Byte.byte) (s : state) : state :=
  mkState (s_audio s) (s_results s) (s_main s) (isRecording s) (rec_running s) (s_mic s ++ [audio])
    (late s) (s_stream s) (s_world s).

Definition with_stream (s : state) (st : Streaming.stream) : state :=
  mkState (s_audio s) (s_results s) (s_main s) (isRecording s) (rec_running s) (s_mic s) (late s) st (s_world s).

Inductive step : state -> state -> Prop :=
| StepAudio s s' : audio_step s = Some s' -> step s s'
| StepResults s s' : results_step s = Some s' -> step s s'
| StepMain s s' : main_step s = Some s' -> step s s'
| StepMic s audio : step s (mic_produce audio s)
| StepSend s r : Streaming.st_ended (s_stream s) = false ->
    step s (with_stream s (Streaming.srv_send r (s_stream s)))
| StepEnd s status : Streaming.st_ended (s_stream s) = false ->
    step s (with_stream s (Streaming.srv_end status (s_stream s))).

(** The state when both threads have been created (line 110). *)
Definition init (w : CWorld Srv) : state :=
  mkState AStart RRecv (MBanner banner_items) true false [] 0 Streaming.empty_stream w.

Definition reachable (w : CWorld Srv) (s : state) : Prop := star step (init w) s.

(** The SDK calls that may throw where no handler will run: every one
    of them is inside a thread's function, so its exception calls
    [std::terminate]: [receiveResults] of the results thread (line
    102), [pushAudio] and [audioFinished] of the audio thread (lines 91
    and 96).  [close()] (line 120) comes after both joins and its
    exception is caught. *)
Definition sdk_call (s : state) : bool :=
  match s_results s, s_audio s with
  | RRecv, _ => true
  | _, APush _ => true
  | _, AFinish => true
  | _, _ => false
  end.

Definition areachable (w : CWorld Srv) (x : run_state state) : Prop :=
  star (astep step (fun s => sdk_call s = true)) (Running (init w)) x.

(** A schedule: who moves next. *)
Inductive sched : Type :=
| Audio
| Results
| Main
| Mic (audio : list Byte.byte)
| Send (r : RecognitionResponse)
| End (status : option string).

Definition exec (c : sched) (s : state) : option state :=
  match c with
  | Audio => audio_step s
  | Results => results_step s
  | Main => main_step s
  | Mic audio => Some (mic_produce audio s)
  | Send r => if Streaming.st_ended (s_stream s) then None
              else Some (with_stream s (Streaming.srv_send r (s_stream s)))
  | End st => if Streaming.st_ended (s_stream s) then None
              else Some (with_stream s (Streaming.srv_end st (s_stream s)))
  end.

Fixpoint run (cs : list sched) (s : state) : option state :=
  match cs with
  | [] => Some s
  | c :: cs' => match exec c s with Some s' => run cs' s' | None => None end
  end.

(** [main]: the preamble, then the threads from [init], with the world
    the preamble leaves. *)
Inductive runs (w : CWorld Srv) : outcome unit -> CWorld Srv -> Prop :=
| runs_error e w1 :
    preamble w = (Throw e, w1) -> runs w (fst (finish (throw e) w1)) (snd (finish (throw e) w1))
| runs_done w1 s :
    preamble w = (Ok tt, w1) -> reachable w1 s -> s_main s = MDone -> runs w (Ok tt) (s_world s)
| runs_ub w1 s what :
    preamble w = (Ok tt, w1) -> reachable w1 s -> s_results s = RUB what ->
    runs w (Throw (UndefinedBehaviour what)) (s_world s).

End Threads.

(** The console and calls of a preamble that opens the stream. *)
Definition preamble_log (v sv : string) (models : list CubicModel) (cfg : RecognitionConfig) : list CEvent :=
  SyncClient.header_log v sv ++ [CCall CallListModels] ++ SyncClient.models_log models ++
  [CCall (CallStreamingRecognize cfg)].

(** ** Invariants *)

(** The recorder runs from [rec.start()] to [rec.stop()]; the loop is
    left only once [isRecording] is false; [audioFinished] comes last;
    a buffer is pushed after [isRecording] was cleared only if its read
    began before, so there is at most one. *)
Definition audio_inv {T} (s : @state T) : Prop :=
  let fin := Streaming.st_finished (s_stream s) in
  match s_audio s with
  | AStart => rec_running s = false /\ fin = false
  | ACheck | ARead | APush _ => rec_running s = true /\ fin = false
  | AStop => rec_running s = true /\ isRecording s = false /\ fin = false
  | AFinish => rec_running s = false /\ isRecording s = false /\ fin = false
  | ADone => rec_running s = false /\ isRecording s = false /\ fin = true
  end /\
  (isRecording s = true -> late s = 0) /\
  match s_audio s with ARead | APush _ => late s = 0 | _ => late s <= 1 end.

(** The flag is cleared once the main thread is past line 117; each join
    waits for its thread; the stream is closed only at the end; the
    results thread stops only when the server has ended and every
    response is read. *)
Definition main_inv {T} (s : @state T) : Prop :=
  match s_main s with MBanner _ | MWait | MClear => True | _ => isRecording s = false end /\
  match s_main s with MJoinResults | MClose | MDone => s_audio s = ADone | _ => True end /\
  match s_main s with MClose | MDone => s_results s = RDone | _ => True end /\
  (Streaming.st_closed (s_stream s) = true <-> s_main s = MDone) /\
  (s_results s = RDone -> Streaming.st_ended (s_stream s) = true /\ Streaming.st_outbox (s_stream s) = []).

(** The run is over: "Done." is printed, or the results thread had
    undefined behaviour. *)
Definition final {T} (s : @state T) : Prop :=
  s_main s = MDone \/ exists what, s_results s = RUB what.

(** The work left once [isRecording] is cleared: the audio thread's
    steps to its end (a read waits for the microphone), the responses
    to print and the server's end, the main thread's steps. *)
Definition audio_rank {T} (s : @state T) : nat :=
  match s_audio s with
  | AStart => 4
  | ACheck => 3
  | ARead => match s_mic s with [] => 7 | _ :: _ => 6 end
  | APush _ => 5
  | AStop => 2
  | AFinish => 1
  | ADone => 0
  end.

(** A response waiting weighs its receipt, two steps per result and the
    return to [receiveResults]. *)
Definition mic_outbox_weight (rs : list RecognitionResponse) : nat :=
  fold_right (fun r n => 3 + 2 * length (results r) + n) 0 rs.
Arguments mic_outbox_weight : simpl never.

Definition results_rank {T} (s : @state T) : nat :=
  let left := mic_outbox_weight (Streaming.st_outbox (s_stream s)) +
              if Streaming.st_ended (s_stream s) then 0 else 1 in
  match s_results s with
  | RRecv => S left
  | RPrint rs => 2 + 2 * length rs + left
  | REndl rs => 3 + 2 * length rs + left
  | RDone | RUB _ => 0
  end.

Definition main_rank {T} (s : @state T) : nat :=
  match s_main s with
  | MBanner rest => 6 + length rest | MWait => 5 | MClear => 4 | MJoinAudio => 3 | MJoinResults => 2 | MClose => 1 | MDone => 0
  end.

Definition measure {T} (s : @state T) : nat := audio_rank s + results_rank s + main_rank s.

(** The microphone's audio on its way to the server: the buffers
    pushed, the one the audio thread holds between [rec.readAudio()] and
    [stream.pushAudio], and those produced and not yet read. *)
Definition inflight {T} (s : @state T) : list (list Byte.byte) :=
  match s_audio s with APush audio => [audio] | _ => [] end.

Definition audio_seq {T} (s : @state T) : list (list Byte.byte) :=
  Streaming.st_pushed (s_stream s) ++ inflight s ++ s_mic s.

(** What the microphone produced along a schedule, in order. *)
Fixpoint mic_output (cs : list sched) : list (list Byte.byte) :=
  match cs with
  | [] => []
  | Mic audio :: cs' => audio :: mic_output cs'
  | _ :: cs' => mic_output cs'
  end.

(** The writes each thread has still to make: the banner's items left,
    and the pieces of the lines of the results left. *)
Definition banner_left {T} (s : @state T) : list CEvent :=
  match s_main s with MBanner rest => pieces [COut rest] | _ => [] end.

Definition results_left {T} (s : @state T) : list CEvent :=
  match s_results s with
  | RPrint rs => pieces (flat_map result_line rs)
  | REndl rs => COut [endl] :: pieces (flat_map result_line rs)
  | _ => []
  end.

(** The console of the threads, from the world [w] they started in: a
    merge of what the main thread has written of the banner and what
    the results thread has written of the transcripts of the responses
    it received, each in its order; after [close()], the close error
    and "Done.".  Nothing is said once the results thread has hit
    undefined behaviour. *)
Definition console_inv {T} (w : CWorld T) (s : @state T) : Prop :=
  match s_results s with
  | RUB _ => True
  | _ =>
      exists bp rp out,
        bp ++ banner_left s = pieces [banner] /\
        rp ++ results_left s = pieces (Streaming.transcripts_of (Streaming.st_read (s_stream s))) /\
        interleave bp rp out /\
        c_log (s_world s) = c_log w ++ out ++
          match s_main s with MDone => Streaming.close_output (Streaming.st_status (s_stream s)) | _ => [] end
  end.

Definition mic_w0 : CWorld CMock := cworld good_mock no_files [EmptyString].

(** The user presses Enter while a read is under way: that buffer is
    pushed after the flag is cleared; then the thread stops, the server
    answers and ends, and the main thread joins and closes. *)
Definition close_schedule : list sched :=
  [Audio; Main; Main; Main; Main; Mic [Byte.x01]; Audio; Audio; Main; Main; Audio; Audio; Audio; Audio;
   Send hello_response; End None; Results; Results; Results; Results; Results; Results; Main; Main; Main].

Definition mic_after (cs : list sched) : @state CMock :=
  match run cs (init mic_w0) with Some s => s | None => init mic_w0 end.

(** The audio thread holds a buffer to push while the results thread is
    between the two writes of a transcript's line and the main thread
    has written the first item of the banner. *)
Definition abort_schedule : list sched :=
  [Audio; Audio; Mic [Byte.x01]; Audio; Send hello_response; Results; Results; Results; Main].

Definition mic_main_w1 : CWorld CMock := snd (preamble mic_w0).
Definition mic_main_end : @state CMock :=
  match run close_schedule (init mic_main_w1) with Some s => s | None => init mic_main_w1 end.

Section Proofs.
Context {Srv : Type} `{CubicServer Srv}.

Lemma mic_audio_inv_step (s s' : @state Srv) : audio_inv s -> step s s' -> audio_inv s'.
Proof.
  unfold audio_inv. intros Hinv Hs.
  destruct Hs as [s s' Ha|s s' Hr|s s' Hm|s audio|s r He|s st He].
  - unfold audio_step in Ha. destruct (s_audio s) eqn:HA; try discriminate.
    all: repeat (split_match_in Ha; try discriminate); injection Ha as <-; cbn in *; rewrite ?HA in Hinv.
    all: try destruct (isRecording s) eqn:Hrec; cbn; intuition (try congruence; try lia).
  - unfold results_step in Hr. repeat (split_match_in Hr; try discriminate); injection Hr as <-; exact Hinv.
  - unfold main_step in Hm. repeat (split_match_in Hm; try discriminate); injection Hm as <-; cbn;
      destruct (s_audio s); intuition (try congruence; try lia).
  - exact Hinv.
  - exact Hinv.
  - exact Hinv.
Qed.

Lemma mic_main_inv_step (s s' : @state Srv) : main_inv s -> step s s' -> main_inv s'.
Proof.
  unfold main_inv. intros Hinv Hs.
  destruct Hs as [s s' Ha|s s' Hr|s s' Hm|s audio|s r He|s st He].
  - unfold audio_step in Ha. repeat (split_match_in Ha; try discriminate); injection Ha as <-;
      cbn in *; destruct (s_main s); intuition congruence.
  - unfold results_step in Hr. repeat (split_match_in Hr; try discriminate); injection Hr as <-;
      cbn in *; destruct (s_main s); intuition congruence.
  - unfold main_step in Hm. repeat (split_match_in Hm; try discriminate); injection Hm as <-;
      cbn in *; intuition congruence.
  - exact Hinv.
  - cbn. destruct (s_main s); intuition congruence.
  - cbn. destruct (s_main s); intuition congruence.
Qed.

Lemma mic_reachable_inv (w : CWorld Srv) s : reachable w s -> audio_inv s /\ main_inv s.
Proof.
  intros Hr. apply (star_invariant step (fun s => audio_inv s /\ main_inv s)) with (init w).
  - intros a b [Ha Hm] Hs. split; [exact (mic_audio_inv_step a b Ha Hs) | exact (mic_main_inv_step a b Hm Hs)].
  - exact Hr.
  - unfold audio_inv, main_inv. cbn. intuition (try discriminate; try lia).
Qed.

Lemma pieces_app l1 l2 : pieces (l1 ++ l2) = pieces l1 ++ pieces l2.
Proof. apply flat_map_app. Qed.

Lemma pieces_cout_nil : pieces [COut []] = [].
Proof. reflexivity. Qed.

Lemma pieces_cout_cons item items : pieces [COut (item :: items)] = COut [item] :: pieces [COut items].
Proof. reflexivity. Qed.

(** A result's line, written one [<<] at a time. *)
Lemma pieces_result_line result rs :
  pieces (flat_map result_line (result :: rs)) =
  pieces (result_line result) ++ pieces (flat_map result_line rs).
Proof. apply pieces_app. Qed.

(** A write of the main thread, or of the results thread, extends the
    merge on its side. *)
Lemma write_left (w w0 : CWorld Srv) bp rp out e rest B :
  bp ++ e :: rest = B -> interleave bp rp out -> c_log w0 = c_log w ++ out ->
  (bp ++ [e]) ++ rest = B /\ interleave (bp ++ [e]) rp (out ++ [e]) /\
  c_log (log_append w0 [e]) = c_log w ++ out ++ [e].
Proof.
  intros Hb Hil Hl. rewrite <- app_assoc. split; [exact Hb|]. split; [apply il_snoc_l, Hil|].
  cbn. rewrite Hl, app_assoc. reflexivity.
Qed.

Lemma write_right (w w0 : CWorld Srv) bp rp out e rest T :
  rp ++ e :: rest = T -> interleave bp rp out -> c_log w0 = c_log w ++ out ->
  (rp ++ [e]) ++ rest = T /\ interleave bp (rp ++ [e]) (out ++ [e]) /\
  c_log (log_append w0 [e]) = c_log w ++ out ++ [e].
Proof.
  intros Hr Hil Hl. rewrite <- app_assoc. split; [exact Hr|]. split; [apply il_snoc_r, Hil|].
  cbn. rewrite Hl, app_assoc. reflexivity.
Qed.

(** While the results thread runs, the main thread has not closed. *)
Lemma close_part_nil (s : @state Srv) (l : list CEvent) :
  main_inv s -> s_results s <> RDone -> match s_main s with MDone => l | _ => [] end = [].
Proof.
  intros (_ & _ & HR & _) Hn. destruct (s_main s); try reflexivity. contradiction.
Qed.

Lemma results_console (w : CWorld Srv) s s' :
  main_inv s -> console_inv w s -> results_step s = Some s' -> console_inv w s'.
Proof.
  intros Hmi Hinv Hr.
  assert (Hc : forall l : list CEvent, match s_main s with MDone => l | _ => [] end = []).
  { intros l. apply (close_part_nil s l Hmi). intros HR. unfold results_step in Hr. rewrite HR in Hr. discriminate. }
  unfold results_step in Hr. unfold console_inv, results_left in *.
  destruct (s_results s) as [|rs|rs| |what]; try discriminate.
  - destruct (Streaming.st_outbox (s_stream s)) as [|r rest] eqn:Ho.
    + destruct (Streaming.st_ended (s_stream s)); [|discriminate]. injection Hr as <-. exact Hinv.
    + destruct (printResults r (s_world s)) as [[u|e] w1].
      * injection Hr as <-. destruct Hinv as (bp & rp & out & Hb & Hrp & Hil & Hl).
        exists bp, rp, out. cbn. split; [exact Hb|]. split; [|split; [exact Hil | exact Hl]].
        rewrite Ho. cbn [firstn]. rewrite Streaming.transcripts_of_snoc, pieces_app, <- Hrp, app_nil_r.
        reflexivity.
      * destruct e; try discriminate. injection Hr as <-. exact I.
  - destruct Hinv as (bp & rp & out & Hb & Hrp & Hil & Hl). rewrite Hc, app_nil_r in Hl.
    destruct rs as [|x rs]; [injection Hr as <-; exists bp, rp, out; cbn in Hrp |- *; rewrite Hc; rewrite ?app_nil_r in *; repeat split; assumption|].
    rewrite pieces_result_line in Hrp. unfold result_line in Hrp.
    destruct (is_partial x); [injection Hr as <-; exists bp, rp, out; cbn in Hrp |- *; rewrite Hc; rewrite ?app_nil_r in *; repeat split; assumption|].
    destruct (alternatives x) as [|a alts]; injection Hr as <-; [exact I|].
    destruct (write_right w (s_world s) bp rp out (COut [OStr (transcript a)]) _ _ Hrp Hil Hl)
      as (Hrp' & Hil' & Hl').
    exists bp, (rp ++ [COut [OStr (transcript a)]]), (out ++ [COut [OStr (transcript a)]]).
    cbn. rewrite Hc, app_nil_r. repeat split; assumption.
  - destruct Hinv as (bp & rp & out & Hb & Hrp & Hil & Hl). rewrite Hc, app_nil_r in Hl.
    injection Hr as <-. destruct (write_right w (s_world s) bp rp out (COut [endl]) _ _ Hrp Hil Hl)
      as (Hrp' & Hil' & Hl').
    exists bp, (rp ++ [COut [endl]]), (out ++ [COut [endl]]). cbn. rewrite Hc, app_nil_r. repeat split; assumption.
Qed.

Lemma main_console (w : CWorld Srv) s s' :
  console_inv w s -> main_step s = Some s' -> console_inv w s'.
Proof.
  intros Hinv Hm. unfold main_step in Hm. unfold console_inv, banner_left, results_left in *.
  destruct (s_main s) as [[|item rest]| | | | | |] eqn:HM;
    repeat (split_match_in Hm; try discriminate); try discriminate; injection Hm as <-;
    cbn [set_main s_results s_main s_world s_stream];
    destruct (s_results s) eqn:HR; try exact I; try discriminate;
    destruct Hinv as (bp & rp & out & Hb & Hrp & Hil & Hl);
    rewrite ?app_nil_r in Hl.
  all: try (rewrite ?pieces_cout_nil in Hb; exists bp, rp, out; cbn [c_log waitForEnter];
            rewrite ?app_nil_r in *; repeat split; assumption).
  all: try (rewrite Streaming.finish_close_status; exists bp, rp, out; cbn;
            rewrite Hl, <- app_assoc; repeat split; assumption).
  all: rewrite pieces_cout_cons in Hb;
    destruct (write_left w (s_world s) bp rp out (COut [item]) _ _ Hb Hil Hl) as (Hb' & Hil' & Hl');
    exists (bp ++ [COut [item]]), rp, (out ++ [COut [item]]); rewrite ?app_nil_r in *; repeat split; assumption.
Qed.

Lemma console_inv_step (w : CWorld Srv) (s s' : @state Srv) :
  main_inv s -> console_inv w s -> step s s' -> console_inv w s'.
Proof.
  intros Hmi Hinv Hs.
  destruct Hs as [s s' Ha|s s' Hr|s s' Hm|s audio|s r He|s st He].
  - unfold audio_step in Ha. repeat (split_match_in Ha; try discriminate); try discriminate;
      injection Ha as <-; exact Hinv.
  - exact (results_console w s s' Hmi Hinv Hr).
  - exact (main_console w s s' Hinv Hm).
  - exact Hinv.
  - exact Hinv.
  - unfold console_inv in *. cbn. destruct (s_main s) eqn:HM; try exact Hinv.
    destruct Hmi as (_ & _ & HR & _ & Hend). rewrite HM in HR. destruct (Hend HR) as [Hended _]. congruence.
Qed.

Lemma mic_reachable_console (w : CWorld Srv) s : reachable w s -> main_inv s /\ console_inv w s.
Proof.
  intros Hr. refine (star_invariant step (fun s => main_inv s /\ console_inv w s) _ _ _ Hr _).
  - intros a b [Hm Hc] Hs. split; [exact (mic_main_inv_step a b Hm Hs) | exact (console_inv_step w a b Hm Hc Hs)].
  - split; [unfold main_inv; cbn; intuition (try discriminate)|].
    unfold console_inv. cbn. exists [], [], []. cbn. rewrite app_nil_r. auto with cpp.
Qed.

(** The results thread alone prints the results of a response that all
    have their line: two writes for each final one. *)
Lemma results_prints (s : @state Srv) rs :
  s_results s = RPrint rs -> forallb result_ok rs = true ->
  star step s (set_results s (RPrint []) (s_stream s) (log_append (s_world s) (pieces (flat_map result_line rs)))).
Proof.
  revert s. induction rs as [|x rs IH]; intros s HR Hok.
  - destruct s. cbn in HR. subst. cbn [flat_map]. change (pieces []) with (@nil CEvent).
    rewrite log_append_nil. apply star_refl.
  - cbn in Hok. apply andb_prop in Hok as [Hx Hok]. rewrite pieces_result_line. unfold result_ok in Hx.
    change (result_line x) with
      (if is_partial x then [] else match alternatives x with [] => [] | a :: _ => [COut [OStr (transcript a); endl]] end).
    destruct (is_partial x) eqn:Hp.
    + apply (star_step _ _ (set_results s (RPrint rs) (s_stream s) (s_world s)));
        [apply StepResults; unfold results_step; rewrite HR, Hp; reflexivity
        | exact (IH (set_results s (RPrint rs) (s_stream s) (s_world s)) eq_refl Hok)].
    + destruct (alternatives x) as [|a alts] eqn:Ha; [discriminate|].
      set (s1 := set_results s (REndl rs) (s_stream s) (log_append (s_world s) [COut [OStr (transcript a)]])).
      set (s2 := set_results s1 (RPrint rs) (s_stream s) (log_append (s_world s1) [COut [endl]])).
      apply (star_step _ _ s1); [apply StepResults; unfold results_step; rewrite HR, Hp, Ha; reflexivity|].
      apply (star_step _ _ s2); [apply StepResults; reflexivity|].
      pose proof (IH s2 eq_refl Hok) as H2. cbn in H2. rewrite !log_append_app in H2. exact H2.
Qed.

(** The main thread alone writes the items of the banner left. *)
Lemma banner_prints (s : @state Srv) items :
  s_main s = MBanner items ->
  star step s (set_main s (MBanner []) (isRecording s) (s_stream s) (log_append (s_world s) (pieces [COut items]))).
Proof.
  revert s. induction items as [|item items IH]; intros s HM.
  - destruct s. cbn in HM. subst. rewrite pieces_cout_nil, log_append_nil. apply star_refl.
  - set (s1 := set_main s (MBanner items) (isRecording s) (s_stream s) (log_append (s_world s) [COut [item]])).
    apply (star_step _ _ s1); [apply StepMain; unfold main_step; rewrite HM; reflexivity|].
    pose proof (IH s1 eq_refl) as H1. cbn in H1. rewrite log_append_app in H1. exact H1.
Qed.

Lemma mic_preamble_run (w : CWorld Srv) s1 s2 s3 s4 v sv m ms :
  cb_cubicVersion (c_srv w) = (s1, Ok v) -> cb_serverVersion s1 = (s2, Ok sv) ->
  cb_listModels s2 = (s3, Ok (m :: ms)) ->
  cb_streamingRecognize s3 (configOf m) = (s4, Ok tt) ->
  preamble w = (Ok tt, mkCWorld s4 (c_files w) (c_stdin w) (c_log w ++ preamble_log v sv (m :: ms) (configOf m))).
Proof.
  intros H1 H2 H3 H4. unfold preamble.
  rewrite (SyncClient.listing_then (fun model => streamingRecognize (configOf model)) w s1 s2 s3 v sv m ms H1 H2 H3).
  unfold streamingRecognize, rpc, preamble_log. cbn [c_srv]. rewrite H4. cbn [c_log c_files c_stdin].
  rewrite <- !app_assoc. reflexivity.
Qed.

Lemma mic_classic_final (s : @state Srv) : final s \/ ~ final s.
Proof.
  unfold final. destruct (s_main s) eqn:HM; try (left; left; reflexivity).
  all: destruct (s_results s) eqn:HR; try (left; right; eauto; fail); right; intros [H1 | [? H1]]; congruence.
Qed.

Lemma main_early (s : @state Srv) :
  (exists rest, s_main s = MBanner rest) \/ s_main s = MWait \/ s_main s = MClear ->
  exists s', step s s' /\ measure s' < measure s.
Proof.
  intros HM. destruct (main_step s) as [s'|] eqn:Hm.
  - exists s'. split; [apply StepMain, Hm|]. unfold main_step in Hm.
    destruct HM as [[[|item rest] HM]|[HM|HM]]; rewrite HM in Hm; injection Hm as <-;
      unfold measure, audio_rank, results_rank, main_rank; cbn; rewrite HM; cbn; lia.
  - unfold main_step in Hm. destruct HM as [[[|item rest] HM]|[HM|HM]]; rewrite HM in Hm; discriminate.
Qed.

Lemma audio_progress (s : @state Srv) :
  isRecording s = false -> s_audio s <> ADone -> exists s', step s s' /\ measure s' < measure s.
Proof.
  intros Hrec HA. destruct (s_audio s) eqn:Ha; try congruence.
  3: destruct (s_mic s) as [|audio rest] eqn:Hmic.
  3: { exists (mic_produce [Byte.x00] s). split; [apply StepMic|].
       unfold measure, audio_rank, results_rank, main_rank; cbn; rewrite Ha, Hmic; cbn; lia. }
  all: eexists; split; [apply StepAudio; unfold audio_step; rewrite Ha; rewrite ?Hmic, ?Hrec; reflexivity|].
  all: unfold measure, audio_rank, results_rank, main_rank; cbn; rewrite ?Ha, ?Hmic, ?Hrec; cbn; lia.
Qed.

Lemma mic_outbox_weight_cons r rs :
  mic_outbox_weight (r :: rs) = 3 + 2 * length (results r) + mic_outbox_weight rs.
Proof. reflexivity. Qed.

Lemma results_progress (s : @state Srv) :
  s_results s = RRecv -> exists s', step s s' /\ measure s' < measure s.
Proof.
  intros HR. destruct (Streaming.st_outbox (s_stream s)) as [|r rest] eqn:Ho.
  - destruct (Streaming.st_ended (s_stream s)) eqn:He.
    + eexists. split; [apply StepResults; unfold results_step; rewrite HR, Ho, He; reflexivity|].
      unfold measure, audio_rank, results_rank, main_rank; cbn; rewrite HR, Ho, He; cbn; lia.
    + exists (with_stream s (Streaming.srv_end None (s_stream s))). split; [apply StepEnd, He|].
      unfold measure, audio_rank, results_rank, main_rank; cbn; rewrite HR, Ho, He; cbn; lia.
  - destruct (well_formed r) eqn:Hwf.
    + eexists. split.
      * apply StepResults. unfold results_step. rewrite HR, Ho, (printResults_ok _ _ Hwf). reflexivity.
      * unfold measure, audio_rank, results_rank, main_rank; cbn; rewrite HR, Ho, mic_outbox_weight_cons; cbn; lia.
    + destruct (printResults_ub r (s_world s) Hwf) as (what & w' & Hp). eexists. split.
      * apply StepResults. unfold results_step. rewrite HR, Ho, Hp. reflexivity.
      * unfold measure, audio_rank, results_rank, main_rank; cbn; rewrite HR; cbn; lia.
Qed.

(** Inside the loop over a response's results, the results thread
    moves on its own. *)
Lemma results_print_progress (s : @state Srv) rs :
  s_results s = RPrint rs \/ s_results s = REndl rs -> exists s', step s s' /\ measure s' < measure s.
Proof.
  intros HR. destruct (results_step s) as [s'|] eqn:Hr.
  - exists s'. split; [apply StepResults, Hr|]. unfold results_step in Hr.
    unfold measure, audio_rank, results_rank, main_rank.
    destruct HR as [HR|HR]; rewrite HR in Hr |- *;
      [destruct rs as [|x rs]; [|destruct (is_partial x); [|destruct (alternatives x)]]|];
      injection Hr as <-; cbn; lia.
  - unfold results_step in Hr. destruct HR as [HR|HR]; rewrite HR in Hr;
      [destruct rs as [|x rs]; [|destruct (is_partial x); [|destruct (alternatives x)]]|]; discriminate.
Qed.

Lemma main_late (s : @state Srv) :
  s_audio s = ADone -> s_results s = RDone -> s_main s <> MDone ->
  (forall rest, s_main s <> MBanner rest) -> s_main s <> MWait -> s_main s <> MClear ->
  exists s', step s s' /\ measure s' < measure s.
Proof.
  intros HA HR HD H1 H2 H3. destruct (s_main s) eqn:HM; try congruence; try (exfalso; eapply H1; reflexivity).
  all: eexists; split; [apply StepMain; unfold main_step; rewrite HM, ?HA, ?HR; reflexivity|].
  all: unfold measure, audio_rank, results_rank, main_rank; cbn; rewrite HM, ?HA, ?HR; cbn; lia.
Qed.

(** Every state of a run that is not over can move and decrease the
    measure, with the help of the environment where a thread waits for
    it. *)
Lemma progress (s : @state Srv) :
  audio_inv s -> main_inv s -> ~ final s -> exists s', step s s' /\ measure s' < measure s.
Proof.
  intros Ha Hm Hf. unfold main_inv in Hm. destruct Hm as (Hrec & _ & _ & _ & _).
  destruct (s_main s) eqn:HM;
    try (apply main_early; rewrite HM; eauto; fail).
  all: destruct (s_audio s) eqn:HA; try (apply audio_progress; [exact Hrec | congruence]).
  all: destruct (s_results s) eqn:HR; try (apply results_progress; exact HR);
       try (apply (results_print_progress s rest); auto; fail);
       try (exfalso; apply Hf; right; eauto; fail); try (exfalso; apply Hf; left; exact HM).
  all: apply main_late; try intros ?; congruence.
Qed.

Lemma step_pushed (s s' : @state Srv) :
  step s s' -> Streaming.st_pushed (s_stream s') = Streaming.st_pushed (s_stream s) \/
               exists audio, s_audio s = APush audio.
Proof.
  intros Hs. destruct Hs as [s s' Ha|s s' Hr|s s' Hm|s audio|s r He|s st He].
  - unfold audio_step in Ha. destruct (s_audio s) eqn:HA; [| | | eauto | | |];
      repeat (split_match_in Ha; try discriminate); try discriminate; injection Ha as <-; left; reflexivity.
  - unfold results_step in Hr. repeat (split_match_in Hr; try discriminate); injection Hr as <-; left; reflexivity.
  - unfold main_step in Hm. repeat (split_match_in Hm; try discriminate); injection Hm as <-; left; reflexivity.
  - left; reflexivity.
  - left; reflexivity.
  - left; reflexivity.
Qed.

(** C21. Stopping latency: after Enter clears [isRecording], the audio
    thread pushes at most one more buffer, the one whose read had
    already begun. *)
Theorem mic_one_late_push (w : CWorld Srv) s : reachable w s -> late s <= 1.
Proof.
  intros Hr. destruct (mic_reachable_inv w s Hr) as [(_ & _ & Hl) _].
  destruct (s_audio s); lia.
Qed.

(** C22. Ordering of the audio calls: [audioFinished] is called only
    after [isRecording] was cleared and the recorder's process was
    stopped, and no buffer is pushed after it. *)
Theorem mic_audio_order (w : CWorld Srv) s :
  reachable w s -> Streaming.st_finished (s_stream s) = true ->
  isRecording s = false /\ rec_running s = false /\
  forall s', step s s' -> Streaming.st_pushed (s_stream s') = Streaming.st_pushed (s_stream s).
Proof.
  intros Hr Hf. destruct (mic_reachable_inv w s Hr) as [(Ha & _) _].
  destruct (s_audio s) eqn:HA; cbn in Ha; try (destruct Ha as [_ Ha]; congruence);
    try (destruct Ha as (_ & _ & Ha); congruence).
  destruct Ha as (Hrun & Hrec & _). split; [exact Hrec|]. split; [exact Hrun|].
  intros s' Hs. destruct (step_pushed s s' Hs) as [Hp | [audio Hp]]; [exact Hp | congruence].
Qed.

(** C23. [close()] comes after both joins: when the stream is closed,
    the audio thread has finished (recorder stopped, [audioFinished]
    called) and the results thread has returned, after the server ended
    and every response was read. *)
Theorem mic_close_after_joins (w : CWorld Srv) s :
  reachable w s -> Streaming.st_closed (s_stream s) = true ->
  s_audio s = ADone /\ s_results s = RDone /\ Streaming.st_finished (s_stream s) = true /\
  rec_running s = false /\ Streaming.st_ended (s_stream s) = true /\ Streaming.st_outbox (s_stream s) = [].
Proof.
  intros Hr Hc. destruct (mic_reachable_inv w s Hr) as [(Ha & _) (_ & HA & HR & Hcl & Hend)].
  apply Hcl in Hc. rewrite Hc in HA, HR. rewrite HA in Ha. destruct Ha as (Hrun & _ & Hf).
  destruct (Hend HR) as [He Ho]. tauto.
Qed.

(** C24. Liveness: a run can always reach its end, "Done." or undefined
    behaviour in the results thread, once the microphone delivers, the
    user presses Enter and the server ends its side. *)
Theorem mic_can_finish (w : CWorld Srv) s : reachable w s -> exists s', star step s s' /\ final s'.
Proof.
  intros Hr. destruct (mic_reachable_inv w s Hr) as [Ha Hm]. clear Hr. revert Ha Hm.
  induction s as [s IH] using (measure_induction (@measure Srv)). intros Ha Hm.
  destruct (mic_classic_final s) as [Hf|Hf]; [exists s; split; [apply star_refl | exact Hf]|].
  destruct (progress s Ha Hm Hf) as (s' & Hs & Hlt).
  destruct (IH s' Hlt (mic_audio_inv_step s s' Ha Hs) (mic_main_inv_step s s' Hm Hs)) as (s'' & Hst & Hfin).
  exists s''. split; [apply (star_step _ s s' s''); [exact Hs | exact Hst] | exact Hfin].
Qed.

(** C36. The console race of lines 100-114: the results thread is
    started before the main thread prints the banner that ends with
    "Transcripts:", so the transcripts of a response the server sends
    at once can all be written before the banner. *)
Theorem mic_transcript_before_banner (w : CWorld Srv) r :
  well_formed r = true ->
  exists s, reachable w s /\ c_log (s_world s) = c_log w ++ pieces (response_lines r ++ [banner]).
Proof.
  intros Hwf. set (s1 := with_stream (init w) (Streaming.srv_send r (s_stream (init w)))).
  set (s2 := set_results s1 (RPrint (results r)) (Streaming.take_response (s_stream s1)) (s_world s1)).
  assert (H2 : results_step s1 = Some s2)
    by (unfold results_step; cbn; rewrite (printResults_ok _ _ Hwf); reflexivity).
  pose proof (results_prints s2 (results r) eq_refl Hwf) as H3.
  set (s3 := set_results s2 (RPrint []) (s_stream s2) (log_append (s_world s2) (pieces (response_lines r)))) in H3.
  pose proof (banner_prints s3 banner_items eq_refl) as H4.
  eexists. split.
  - apply (star_step _ _ s1); [apply StepSend; reflexivity|]. apply (star_step _ _ s2); [apply StepResults, H2|].
    exact (star_trans _ _ _ _ H3 H4).
  - cbn. rewrite pieces_app, app_assoc. reflexivity.
Qed.

Lemma exec_step c (s s' : @state Srv) : exec c s = Some s' -> step s s'.
Proof.
  destruct c as [| | |audio|r|st]; cbn; intros Hc;
    [apply StepAudio, Hc | apply StepResults, Hc | apply StepMain, Hc | injection Hc as <-; apply StepMic | |];
    destruct (Streaming.st_ended (s_stream s)) eqn:He; try discriminate; injection Hc as <-; constructor; exact He.
Qed.

Lemma mic_run_star cs (s s' : @state Srv) : run cs s = Some s' -> star step s s'.
Proof.
  revert s. induction cs as [|c cs IH]; intros s Hr; cbn in Hr; [injection Hr as <-; apply star_refl|].
  destruct (exec c s) as [s1|] eqn:Hc; [|discriminate].
  apply (star_step _ s s1 s'); [exact (exec_step c s s1 Hc) | exact (IH s1 Hr)].
Qed.

(** One move of a schedule: only the microphone adds audio, at the end;
    every other move keeps the sequence, pushing moves a buffer from the
    thread's hands to the stream, reading moves one from the microphone
    to the thread's hands. *)
Lemma exec_audio_seq c (s s' : @state Srv) :
  exec c s = Some s' -> audio_seq s' = audio_seq s ++ mic_output [c].
Proof.
  unfold audio_seq, inflight. destruct c as [| | |audio|r|st]; cbn [exec mic_output]; intros Hc.
  - unfold audio_step in Hc. destruct (s_audio s) eqn:HA; repeat (split_match_in Hc; try discriminate);
      try discriminate; injection Hc as <-; cbn; rewrite ?HA; try destruct (isRecording s); cbn;
      rewrite <- ?app_assoc, ?app_nil_r; reflexivity.
  - unfold results_step in Hc. repeat (split_match_in Hc; try discriminate);
      injection Hc as <-; cbn; destruct (s_audio s); try discriminate; cbn; rewrite ?app_nil_r; reflexivity.
  - unfold main_step in Hc. repeat (split_match_in Hc; try discriminate);
      injection Hc as <-; cbn; destruct (s_audio s); try discriminate; cbn; rewrite ?app_nil_r; reflexivity.
  - injection Hc as <-. cbn. rewrite <- !app_assoc. reflexivity.
  - destruct (Streaming.st_ended (s_stream s)); [discriminate|]. injection Hc as <-. cbn. rewrite app_nil_r. reflexivity.
  - destruct (Streaming.st_ended (s_stream s)); [discriminate|]. injection Hc as <-. cbn. rewrite app_nil_r. reflexivity.
Qed.

Lemma run_audio_seq cs (s s' : @state Srv) :
  run cs s = Some s' -> audio_seq s' = audio_seq s ++ mic_output cs.
Proof.
  revert s. induction cs as [|c cs IH]; intros s Hr; cbn in Hr; [injection Hr as <-; symmetry; apply app_nil_r|].
  destruct (exec c s) as [s1|] eqn:Hc; [|discriminate].
  rewrite (IH s1 Hr), (exec_audio_seq c s s1 Hc), <- app_assoc. destruct c; reflexivity.
Qed.

(** C13. End to end for mic_client.cpp: on a server that answers the
    preamble, a run of [main] that ends normally has printed the
    header, the model list and opened the stream with the first model's
    RAW_LINEAR16 configuration; then the threads ran, from the world
    the preamble left, to a state that printed "Done." in the run's
    final world, having received every response the server sent; the
    console holds, after the preamble, a merge of the three writes of
    the banner "Recording. Press Enter to stop. ... Transcripts:" with
    the writes of the transcripts of those responses, each in its
    order, then the close error if any, and "Done.". *)
Theorem mic_main_done (w w' : CWorld Srv) s1 s2 s3 s4 v sv m ms :
  cb_cubicVersion (c_srv w) = (s1, Ok v) -> cb_serverVersion s1 = (s2, Ok sv) ->
  cb_listModels s2 = (s3, Ok (m :: ms)) ->
  cb_streamingRecognize s3 (configOf m) = (s4, Ok tt) ->
  runs w (Ok tt) w' ->
  exists s : @state Srv,
    reachable (snd (preamble w)) s /\ s_main s = MDone /\ s_world s = w' /\
    Streaming.st_outbox (s_stream s) = [] /\
    exists out,
      interleave (pieces [banner]) (pieces (Streaming.transcripts_of (Streaming.st_read (s_stream s)))) out /\
      c_log w' = c_log w ++ preamble_log v sv (m :: ms) (configOf m) ++ out ++
                 Streaming.close_output (Streaming.st_status (s_stream s)).
Proof.
  intros H1 H2 H3 H4 Hr. pose proof (mic_preamble_run w s1 s2 s3 s4 v sv m ms H1 H2 H3 H4) as Hp.
  inversion Hr as [e w1 He Ho Hw|w1 s He Hreach Hd Ho Hw|]; subst; rewrite Hp in He; try discriminate.
  injection He as <-. destruct (mic_reachable_console _ s Hreach) as [Hm Hc].
  unfold console_inv, main_inv, banner_left, results_left in *. rewrite Hd in *.
  destruct Hm as (_ & _ & HR & _ & Hend). rewrite HR in Hc. destruct (Hend HR) as [_ Hout].
  destruct Hc as (bp & rp & out & Hb & Hrp & Hil & Hl). rewrite app_nil_r in Hb, Hrp. subst bp rp.
  exists s. rewrite Hp. split; [exact Hreach|]. split; [exact Hd|]. split; [reflexivity|]. split; [exact Hout|].
  exists out. split; [exact Hil|]. rewrite Hl. cbn [c_log]. rewrite <- !app_assoc. reflexivity.
Qed.

(** C16. An exception of the SDK inside the mic client's threads is
    never reported: when [receiveResults], [pushAudio] or
    [audioFinished] throws, the process ends through [std::terminate]
    before the stream is closed and before "Done." is printed; unless
    the results thread had undefined behaviour, the console then holds,
    after what it held when the threads started, only a merge of a
    prefix of the banner's writes with a prefix of the writes of the
    transcripts received, each in its order. *)
Theorem mic_sdk_error_aborts (w : CWorld Srv) s :
  areachable w (Aborted s) ->
  s_main s <> MDone /\ Streaming.st_closed (s_stream s) = false /\
  match s_results s with
  | RUB _ => True
  | _ => exists bp rp out,
           prefix bp (pieces [banner]) /\
           prefix rp (pieces (Streaming.transcripts_of (Streaming.st_read (s_stream s)))) /\
           interleave bp rp out /\ c_log (s_world s) = c_log w ++ out
  end.
Proof.
  intros Ha. destruct (astar_aborted _ _ _ _ Ha) as [Hr Hc].
  destruct (mic_reachable_console w s Hr) as [Hm Hcon]. unfold main_inv, console_inv, sdk_call in *.
  destruct Hm as (_ & HA & HR & [Hclosed _] & _).
  destruct (s_main s) eqn:HM; try (rewrite HR, HA in Hc; discriminate).
  all: split; [discriminate|]; split; [destruct (Streaming.st_closed (s_stream s)); [discriminate (Hclosed eq_refl) | reflexivity]|].
  all: destruct (s_results s); try exact I; destruct Hcon as (bp & rp & out & Hb & Hrp & Hil & Hl).
  all: exists bp, rp, out; rewrite app_nil_r in Hl; split; [eexists; exact Hb|]; split; [eexists; exact Hrp|]; split; assumption.
Qed.

(** C12. The microphone's audio reaches the server in order, with
    nothing lost and nothing sent twice: along any schedule of the
    three threads, the microphone and the server, the buffers pushed,
    then the one the audio thread holds, then those not yet read are
    exactly the buffers the microphone produced. *)
Theorem mic_audio_in_order (w : CWorld Srv) cs s :
  run cs (init w) = Some s ->
  Streaming.st_pushed (s_stream s) ++ inflight s ++ s_mic s = mic_output cs.
Proof. intros Hr. exact (run_audio_seq cs (init w) s Hr). Qed.

End Proofs.

(** ** Runs against the scripted server *)

Lemma mic_one_late_push_witness :
  reachable mic_w0 (mic_after close_schedule) /\ late (mic_after close_schedule) <= 1.
Proof.
  assert (Hr : reachable mic_w0 (mic_after close_schedule))
    by (apply (mic_run_star close_schedule); vm_compute; reflexivity).
  split; [exact Hr | exact (mic_one_late_push mic_w0 _ Hr)].
Defined.

Lemma mic_audio_order_witness :
  reachable mic_w0 (mic_after close_schedule) /\
  Streaming.st_finished (s_stream (mic_after close_schedule)) = true /\
  isRecording (mic_after close_schedule) = false /\ rec_running (mic_after close_schedule) = false /\
  forall s', step (mic_after close_schedule) s' ->
    Streaming.st_pushed (s_stream s') = Streaming.st_pushed (s_stream (mic_after close_schedule)).
Proof.
  assert (Hr : reachable mic_w0 (mic_after close_schedule))
    by (apply (mic_run_star close_schedule); vm_compute; reflexivity).
  assert (Hf : Streaming.st_finished (s_stream (mic_after close_schedule)) = true) by (vm_compute; reflexivity).
  split; [exact Hr|]. split; [exact Hf|]. exact (mic_audio_order mic_w0 _ Hr Hf).
Defined.

Lemma mic_close_after_joins_witness :
  reachable mic_w0 (mic_after close_schedule) /\
  Streaming.st_closed (s_stream (mic_after close_schedule)) = true /\
  s_audio (mic_after close_schedule) = ADone /\ s_results (mic_after close_schedule) = RDone /\
  Streaming.st_finished (s_stream (mic_after close_schedule)) = true /\
  rec_running (mic_after close_schedule) = false /\
  Streaming.st_ended (s_stream (mic_after close_schedule)) = true /\
  Streaming.st_outbox (s_stream (mic_after close_schedule)) = [].
Proof.
  assert (Hr : reachable mic_w0 (mic_after close_schedule))
    by (apply (mic_run_star close_schedule); vm_compute; reflexivity).
  assert (Hc : Streaming.st_closed (s_stream (mic_after close_schedule)) = true) by (vm_compute; reflexivity).
  split; [exact Hr|]. split; [exact Hc|]. exact (mic_close_after_joins mic_w0 _ Hr Hc).
Defined.

Lemma mic_can_finish_witness :
  reachable mic_w0 (mic_after [Audio; Main]) /\
  exists s', star step (mic_after [Audio; Main]) s' /\ final s'.
Proof.
  assert (Hr : reachable mic_w0 (mic_after [Audio; Main]))
    by (apply (mic_run_star [Audio; Main]); vm_compute; reflexivity).
  split; [exact Hr | exact (mic_can_finish mic_w0 _ Hr)].
Defined.

Lemma mic_transcript_before_banner_witness :
  well_formed hello_response = true /\
  exists s, reachable mic_w0 s /\ c_log (s_world s) = c_log mic_w0 ++ pieces (response_lines hello_response ++ [banner]).
Proof.
  assert (Hw : well_formed hello_response = true) by reflexivity.
  split; [exact Hw | exact (mic_transcript_before_banner mic_w0 hello_response Hw)].
Defined.

Lemma mic_audio_in_order_witness :
  run close_schedule (init mic_w0) = Some (mic_after close_schedule) /\
  Streaming.st_pushed (s_stream (mic_after close_schedule)) ++ inflight (mic_after close_schedule) ++
    s_mic (mic_after close_schedule) = [[Byte.x01]].
Proof.
  assert (Hr : run close_schedule (init mic_w0) = Some (mic_after close_schedule)) by (vm_compute; reflexivity).
  split; [exact Hr | exact (mic_audio_in_order mic_w0 close_schedule _ Hr)].
Defined.

Lemma mic_main_done_witness :
  runs mic_w0 (Ok tt) (s_world mic_main_end) /\
  exists s : @state CMock,
    reachable (snd (preamble mic_w0)) s /\ s_main s = MDone /\ s_world s = s_world mic_main_end /\
    Streaming.st_outbox (s_stream s) = [] /\
    exists out,
      interleave (pieces [banner]) (pieces (Streaming.transcripts_of (Streaming.st_read (s_stream s)))) out /\
      c_log (s_world mic_main_end) = c_log mic_w0 ++ preamble_log "1.0" "2.0" [airport_model] (configOf airport_model) ++
        out ++ Streaming.close_output (Streaming.st_status (s_stream s)).
Proof.
  assert (Hr : runs mic_w0 (Ok tt) (s_world mic_main_end)).
  { apply (runs_done _ mic_main_w1); [vm_compute; reflexivity | | vm_compute; reflexivity].
    apply (mic_run_star close_schedule). vm_compute. reflexivity. }
  split; [exact Hr|].
  exact (mic_main_done mic_w0 _ good_mock good_mock good_mock good_mock "1.0" "2.0" airport_model []
           eq_refl eq_refl eq_refl eq_refl Hr).
Defined.

Lemma mic_sdk_error_aborts_witness :
  areachable mic_w0 (Aborted (mic_after abort_schedule)) /\
  s_main (mic_after abort_schedule) <> MDone /\
  Streaming.st_closed (s_stream (mic_after abort_schedule)) = false /\
  match s_results (mic_after abort_schedule) with
  | RUB _ => True
  | _ => exists bp rp out,
           prefix bp (pieces [banner]) /\
           prefix rp (pieces (Streaming.transcripts_of
                                (Streaming.st_read (s_stream (mic_after abort_schedule))))) /\
           interleave bp rp out /\
           c_log (s_world (mic_after abort_schedule)) = c_log mic_w0 ++ out
  end.
Proof.
  assert (Ha : areachable mic_w0 (Aborted (mic_after abort_schedule))).
  { unfold areachable. apply (star_trans _ _ (Running (mic_after abort_schedule))).
    - apply astar_lift, (mic_run_star abort_schedule). vm_compute. reflexivity.
    - apply star_one, astep_abort. vm_compute. reflexivity. }
  split; [exact Ha | exact (mic_sdk_error_aborts mic_w0 _ Ha)].
Defined.

End MicClient.
